(** * Usage tracking, limits and credential selection of the key rotator

    A shallow embedding of [src/rotator_library/usage] (types, window
    manager, tracking engine, limit checkers, limit engine, rotation
    strategies and selection engine) and the properties of its
    specification.

    Conventions of the embedding.
    - Python [int] is [Z]; Python [float] (timestamps, durations, weights)
      is an exact rational [Q], so rounding is not modelled.
    - [Optional[T]] is [option T]; Python truthiness ([x or y], [if x:]) is
      written out by the [py_*] helpers.
    - The dicts held by a credential are [gmap string _]; dicts whose
      iteration order is used (the [states] passed to selection, the window
      definitions) are association lists in insertion order.
    - Objects mutated in place are returned updated by the function that
      mutates them.
    - [time.time()] and the [random] module are oracles: every read takes
      the next value of [clock] / [random_random] / [rand_bits] and advances
      a counter, so two reads in one call may differ.
    - Log calls have no effect on the state and are left out; the f-string
      of a [reason] is kept as a structured value. *)

From stdpp Require Import gmap strings list fin_maps pretty.
From Stdlib Require Import QArith Qround Qminmax Qabs Lqa ZArith.

Local Open Scope Z_scope.

(** ** Python helpers *)

Definition py_str_truthy (s : string) : bool := negb (String.eqb s "").

(** [a or b] for an optional string [a] and a string [b]. *)
Definition py_or_str (a : option string) (b : string) : string :=
  match a with
  | Some s => if py_str_truthy s then s else b
  | None => b
  end.

(** [if a:] for an optional string. *)
Definition py_opt_str_truthy (a : option string) : bool :=
  match a with Some s => py_str_truthy s | None => false end.

(** [a or b] for an optional int [a] and an optional int [b]. *)
Definition py_or_optZ (a b : option Z) : option Z :=
  match a with
  | Some x => if Z.eqb x 0 then b else Some x
  | None => b
  end.

(** [a or 0] for an optional int. *)
Definition py_or_zero (a : option Z) : Z :=
  match a with Some x => x | None => 0 end.

(** [int(x)] of a float: truncation towards zero. *)
Definition py_int (x : Q) : Z :=
  if Qle_bool 0 x then Qfloor x else Qceiling x.

Definition Qlt_bool (a b : Q) : bool := negb (Qle_bool b a).
Arguments Qlt_bool : simpl never.

(** ** Ordered dicts (insertion order), for the dicts that are iterated *)

Section odict.
Context {V : Type}.

Fixpoint odict_get (d : list (string * V)) (k : string) : option V :=
    match d with
    | [] => None
    | (k', v) :: d' => if String.eqb k' k then Some v else odict_get d' k
    end.

  (** [d[k] = v]: overwrite in place, or append a new key. *)
Fixpoint odict_set (d : list (string * V)) (k : string) (v : V)
    : list (string * V) :=
    match d with
    | [] => [(k, v)]
    | (k', v') :: d' =>
        if String.eqb k' k then (k', v) :: d' else (k', v') :: odict_set d' k v
    end.

Definition odict_keys (d : list (string * V)) : list string := map fst d.
Definition odict_values (d : list (string * V)) : list V := map snd d.
End odict.

(** ** The oracles: wall clock and random numbers *)

Record Oracle := mkOracle { ticks : nat; draws : nat }.

Definition M (A : Type) : Type := Oracle -> A * Oracle.

#[global] Instance M_ret : MRet M := fun A (a : A) (o : Oracle) => (a, o).
#[global] Instance M_bind : MBind M :=
  fun A B (f : A -> M B) (m : M A) (o : Oracle) => let (a, o') := m o in f a o'.

(** ** types.py *)

Module ResetMode.
Inductive t := ROLLING | FIXED_DAILY | CALENDAR_WEEKLY | CALENDAR_MONTHLY
               | API_AUTHORITATIVE.
End ResetMode.

Module LimitResult.
Inductive t := ALLOWED | BLOCKED_WINDOW | BLOCKED_COOLDOWN
               | BLOCKED_FAIR_CYCLE | BLOCKED_CUSTOM_CAP | BLOCKED_CONCURRENT.
Definition eqb (a b : t) : bool :=
    match a, b with
    | ALLOWED, ALLOWED | BLOCKED_WINDOW, BLOCKED_WINDOW
    | BLOCKED_COOLDOWN, BLOCKED_COOLDOWN
    | BLOCKED_FAIR_CYCLE, BLOCKED_FAIR_CYCLE
    | BLOCKED_CUSTOM_CAP, BLOCKED_CUSTOM_CAP
    | BLOCKED_CONCURRENT, BLOCKED_CONCURRENT => true
    | _, _ => false
    end.
End LimitResult.

Module RotationMode.
Inductive t := BALANCED | SEQUENTIAL.
End RotationMode.

Module TrackingMode.
Inductive t := MODEL_GROUP | CREDENTIAL.
End TrackingMode.

Module CooldownMode.
Inductive t := QUOTA_RESET | OFFSET | FIXED.
End CooldownMode.

Module CapMode.
Inductive t := ABSOLUTE | OFFSET | PERCENTAGE.
End CapMode.

Definition FAIR_CYCLE_GLOBAL_KEY : string := "_credential_".

(** The key of a credential-wide cooldown; the source writes the literal
    ["_global_"] at every use. *)
Definition COOLDOWN_GLOBAL_KEY : string := "_global_".

Module WindowStats.
Record t := mk {
    name : string;
    request_count : Z;
    success_count : Z;
    failure_count : Z;
    prompt_tokens : Z;
    completion_tokens : Z;
    thinking_tokens : Z;
    output_tokens : Z;
    prompt_tokens_cache_read : Z;
    prompt_tokens_cache_write : Z;
    total_tokens : Z;
    approx_cost : Q;
    started_at : option Q;
    reset_at : option Q;
    limit : option Z;
    max_recorded_requests : option Z;
    max_recorded_at : option Q;
    first_used_at : option Q;
    last_used_at : option Q
  }.

  (** [WindowStats(name=..., started_at=..., reset_at=..., limit=...,
      max_recorded_requests=..., max_recorded_at=...)]: every other field
      takes its dataclass default. *)
Definition new (name : string) (started_at reset_at : option Q)
      (limit : option Z) (max_recorded_requests : option Z)
      (max_recorded_at : option Q) : t :=
    mk name 0 0 0 0 0 0 0 0 0 0 (0 # 1)%Q started_at reset_at limit
       max_recorded_requests max_recorded_at None None.

Definition set_limit (w : t) (l : option Z) : t :=
    mk (name w) (request_count w) (success_count w) (failure_count w)
       (prompt_tokens w) (completion_tokens w) (thinking_tokens w)
       (output_tokens w) (prompt_tokens_cache_read w)
       (prompt_tokens_cache_write w) (total_tokens w) (approx_cost w)
       (started_at w) (reset_at w) l (max_recorded_requests w)
       (max_recorded_at w) (first_used_at w) (last_used_at w).

Definition set_timing (w : t) (s r : option Q) : t :=
    mk (name w) (request_count w) (success_count w) (failure_count w)
       (prompt_tokens w) (completion_tokens w) (thinking_tokens w)
       (output_tokens w) (prompt_tokens_cache_read w)
       (prompt_tokens_cache_write w) (total_tokens w) (approx_cost w)
       s r (limit w) (max_recorded_requests w)
       (max_recorded_at w) (first_used_at w) (last_used_at w).

Definition set_reset_at (w : t) (r : option Q) : t :=
    set_timing w (started_at w) r.

  (** The [remaining] and [is_exhausted] properties. *)
Definition remaining (w : t) : option Z :=
    match limit w with
    | None => None
    | Some l => Some (Z.max 0 (l - request_count w))
    end.

Definition is_exhausted (w : t) : bool :=
    match limit w with
    | None => false
    | Some l => l <=? request_count w
    end.
End WindowStats.

Module TotalStats.
Record t := mk {
    request_count : Z;
    success_count : Z;
    failure_count : Z;
    prompt_tokens : Z;
    completion_tokens : Z;
    thinking_tokens : Z;
    output_tokens : Z;
    prompt_tokens_cache_read : Z;
    prompt_tokens_cache_write : Z;
    total_tokens : Z;
    approx_cost : Q;
    first_used_at : option Q;
    last_used_at : option Q
  }.
Definition new : t := mk 0 0 0 0 0 0 0 0 0 0 (0 # 1)%Q None None.
End TotalStats.

(** [ModelStats] and [GroupStats] have the same two fields. *)
Module ModelStats.
Record t := mk { windows : gmap string WindowStats.t; totals : TotalStats.t }.
Definition new : t := mk ∅ TotalStats.new.
End ModelStats.

Module GroupStats.
Record t := mk { windows : gmap string WindowStats.t; totals : TotalStats.t }.
Definition new : t := mk ∅ TotalStats.new.
End GroupStats.

Module CooldownInfo.
Record t := mk {
    reason : string;
    until : Q;
    started_at : Q;
    source : string;
    model_or_group : option string;
    backoff_count : Z
  }.
End CooldownInfo.

Module FairCycleState.
Record t := mk {
    exhausted : bool;
    exhausted_at : option Q;
    exhausted_reason : option string;
    cycle_request_count : Z;
    model_or_group : option string
  }.
  (** [FairCycleState(model_or_group=k)]. *)
Definition new (k : string) : t := mk false None None 0 (Some k).
  (** The four assignments that clear a record. *)
Definition cleared (s : t) : t := mk false None None 0 (model_or_group s).
End FairCycleState.

Module GlobalFairCycleState.
Record t := mk {
    cycle_start : Q;
    all_exhausted_at : option Q;
    cycle_count : Z
  }.
End GlobalFairCycleState.

Module UsageUpdate.
Record t := mk {
    request_count : Z;
    success : bool;
    prompt_tokens : Z;
    completion_tokens : Z;
    thinking_tokens : Z;
    prompt_tokens_cache_read : Z;
    prompt_tokens_cache_write : Z;
    approx_cost : Q
  }.
End UsageUpdate.

(** [WindowDefinition] of config.py, which [CredentialState] refers to. *)
Module WindowDefinition.
Record t := mk {
    name : string;
    duration_seconds : option Z;
    reset_mode : ResetMode.t;
    is_primary : bool;
    applies_to : string
  }.
End WindowDefinition.

Module CredentialState.
Record t := mk {
    stable_id : string;
    provider : string;
    accessor : string;
    display_name : option string;
    tier : option string;
    priority : Z;
    window_definitions : list WindowDefinition.t;
    model_usage : gmap string ModelStats.t;
    group_usage : gmap string GroupStats.t;
    totals : TotalStats.t;
    cooldowns : gmap string CooldownInfo.t;
    fair_cycle : gmap string FairCycleState.t;
    active_requests : Z;
    max_concurrent : option Z;
    created_at : option Q;
    last_updated : option Q
  }.

Definition set_model_usage (s : t) (m : gmap string ModelStats.t) : t :=
    mk (stable_id s) (provider s) (accessor s) (display_name s) (tier s)
       (priority s) (window_definitions s) m (group_usage s) (totals s)
       (cooldowns s) (fair_cycle s) (active_requests s) (max_concurrent s)
       (created_at s) (last_updated s).

Definition set_group_usage (s : t) (g : gmap string GroupStats.t) : t :=
    mk (stable_id s) (provider s) (accessor s) (display_name s) (tier s)
       (priority s) (window_definitions s) (model_usage s) g (totals s)
       (cooldowns s) (fair_cycle s) (active_requests s) (max_concurrent s)
       (created_at s) (last_updated s).

Definition set_totals (s : t) (x : TotalStats.t) : t :=
    mk (stable_id s) (provider s) (accessor s) (display_name s) (tier s)
       (priority s) (window_definitions s) (model_usage s) (group_usage s) x
       (cooldowns s) (fair_cycle s) (active_requests s) (max_concurrent s)
       (created_at s) (last_updated s).

Definition set_cooldowns (s : t) (c : gmap string CooldownInfo.t) : t :=
    mk (stable_id s) (provider s) (accessor s) (display_name s) (tier s)
       (priority s) (window_definitions s) (model_usage s) (group_usage s)
       (totals s) c (fair_cycle s) (active_requests s) (max_concurrent s)
       (created_at s) (last_updated s).

Definition set_fair_cycle (s : t) (f : gmap string FairCycleState.t) : t :=
    mk (stable_id s) (provider s) (accessor s) (display_name s) (tier s)
       (priority s) (window_definitions s) (model_usage s) (group_usage s)
       (totals s) (cooldowns s) f (active_requests s) (max_concurrent s)
       (created_at s) (last_updated s).

Definition set_last_updated (s : t) (u : option Q) : t :=
    mk (stable_id s) (provider s) (accessor s) (display_name s) (tier s)
       (priority s) (window_definitions s) (model_usage s) (group_usage s)
       (totals s) (cooldowns s) (fair_cycle s) (active_requests s)
       (max_concurrent s) (created_at s) u.

(** [is_fair_cycle_exhausted]. *)
Definition is_fair_cycle_exhausted (s : t) (model_or_group : string) : bool :=
    match fair_cycle s !! model_or_group with
    | Some st => FairCycleState.exhausted st
    | None => false
    end.

(** [get_model_stats(model, create=False)] and
    [get_group_stats(group, create=False)]. *)
Definition get_model_stats (s : t) (model : string) : option ModelStats.t :=
    model_usage s !! model.
Definition get_group_stats (s : t) (group : string) : option GroupStats.t :=
    group_usage s !! group.

(** [get_model_stats(model)] with [create=True]: [setdefault]. *)
Definition get_model_stats_create (s : t) (model : string) : ModelStats.t * t :=
    match model_usage s !! model with
    | Some ms => (ms, s)
    | None => (ModelStats.new,
               set_model_usage s (<[model := ModelStats.new]> (model_usage s)))
    end.
Definition get_group_stats_create (s : t) (group : string) : GroupStats.t * t :=
    match group_usage s !! group with
    | Some gs => (gs, s)
    | None => (GroupStats.new,
               set_group_usage s (<[group := GroupStats.new]> (group_usage s)))
    end.
End CredentialState.

(** The arguments of the f-string that a checker puts in [reason]. *)
Inductive Reason :=
| ReasonConcurrent (active_requests max_concurrent : Z)
| ReasonCooldown (key reason : string) (remaining_seconds : Q)
| ReasonGlobalCooldown (reason : string) (remaining_seconds : Q)
| ReasonWindow (name : string) (request_count limit : Z)
| ReasonCustomCap (scope_desc scope_key : string) (current_usage max_requests : Z)
| ReasonFairCycle (group_key : string).

Module LimitCheckResult.
Record t := mk {
    allowed : bool;
    result : LimitResult.t;
    reason : option Reason;
    blocked_until : option Q
  }.
Definition ok : t := mk true LimitResult.ALLOWED None None.
Definition blocked (result : LimitResult.t) (reason : Reason)
      (blocked_until : option Q) : t :=
    mk false result (Some reason) blocked_until.
End LimitCheckResult.

(** ** config.py *)


Module FairCycleConfig.
Record t := mk {
    enabled : option bool;
    tracking_mode : TrackingMode.t;
    cross_tier : bool;
    duration : Z;
    quota_threshold : Q;
    reset_cooldown_threshold : Z
  }.
(** The truth value of [config.enabled] ([None] is falsy). *)
Definition is_enabled (c : t) : bool :=
    match enabled c with Some b => b | None => false end.
End FairCycleConfig.

Module CustomCapConfig.
Record t := mk {
    tier_key : string;
    model_or_group : string;
    max_requests : Z;
    max_requests_mode : CapMode.t;
    cooldown_mode : CooldownMode.t;
    cooldown_value : Z
  }.
End CustomCapConfig.

Module ProviderUsageConfig.
Record t := mk {
    rotation_mode : RotationMode.t;
    rotation_tolerance : Q;
    fair_cycle : FairCycleConfig.t;
    custom_caps : list CustomCapConfig.t;
    exhaustion_cooldown_threshold : Z;
    window_limits_enabled : bool;
    windows : list WindowDefinition.t
  }.
End ProviderUsageConfig.

Module WindowManager.
Record t := mk {
    definitions : list (string * WindowDefinition.t);
    daily_reset_time_utc : Z * Z
  }.
(** [__init__]: [{w.name: w for w in window_definitions}]; the reset time
    is taken already parsed, as (hour, minute). *)
Definition init (window_definitions : list WindowDefinition.t)
      (daily_reset_time_utc : Z * Z) : t :=
    mk (fold_left (fun d w => odict_set d (WindowDefinition.name w) w)
                  window_definitions [])
       daily_reset_time_utc.
End WindowManager.

(** The engines hold their collaborators and the configuration. *)
Module TrackingEngine.
Record t := mk {
    _windows : WindowManager.t;
    _config : ProviderUsageConfig.t
  }.
End TrackingEngine.

(** The rate-limit headers of a response, after [int(...)] / [float(...)]:
    a field is [None] when the header is absent or does not convert (the
    source swallows the [ValueError]). *)
Module Headers.
Record t := mk {
    x_ratelimit_limit : option Z;
    x_ratelimit_reset : option Q
  }.
End Headers.

(** The checker classes of [limits/]; the engine keeps a list of them. *)
Inductive Checker :=
| ConcurrentLimitChecker
| CooldownChecker
| WindowLimitChecker
| CustomCapChecker
| FairCycleChecker.

Module LimitEngine.
Record t := mk {
    _config : ProviderUsageConfig.t;
    _window_manager : WindowManager.t;
    _checkers : list Checker
  }.
(** [__init__]: the order of the checkers. *)
Definition init (config : ProviderUsageConfig.t)
      (window_manager : WindowManager.t) : t :=
    mk config window_manager
       ([ConcurrentLimitChecker; CooldownChecker]
        ++ (if ProviderUsageConfig.window_limits_enabled config
            then [WindowLimitChecker] else [])
        ++ [CustomCapChecker; FairCycleChecker]).
End LimitEngine.


Module SelectionContext.
Record t := mk {
    provider : string;
    model : string;
    quota_group : option string;
    candidates : list string;
    priorities : gmap string Z;
    usage_counts : gmap string Z;
    rotation_mode : RotationMode.t;
    rotation_tolerance : Q;
    deadline : Q
  }.
End SelectionContext.

Module SelectionEngine.
Record t := mk {
    _config : ProviderUsageConfig.t;
    _limits : LimitEngine.t;
    _windows : WindowManager.t
  }.
End SelectionEngine.

(** What a selection call reads and mutates: the [states] dict (in
    insertion order; its values are the credential objects), the global
    state of the fair-cycle checker and the sticky map [_current] of the
    sequential strategy. *)
Record World := mkWorld {
    w_states : list (string * CredentialState.t);
    w_global : gmap string (gmap string GlobalFairCycleState.t);
    w_current : gmap (string * string) string
  }.

(** The outcome of [select]: a return value, or Python's [RecursionError]
    when the retries after a reset exceed the recursion limit. *)
Inductive SelectResult :=
| Returned (selected : option string)
| RecursionError.

(** [groups.setdefault(p, []).append(x)] and the grouping loops built on
    it (dict in insertion order). *)
Fixpoint setdefault_append {A} (groups : list (Z * list A)) (p : Z) (x : A)
  : list (Z * list A) :=
  match groups with
  | [] => [(p, [x])]
  | (q, xs) :: rest =>
      if Z.eqb q p then (q, xs ++ [x]) :: rest
      else (q, xs) :: setdefault_append rest p x
  end.

Definition group_by_priority {A} (key : A -> Z) (l : list A)
  : list (Z * list A) :=
  fold_left (fun groups x => setdefault_append groups (key x) x) l [].

(** [sorted(l, key=key)] for keys compared by [lt]: a stable sort. *)
Fixpoint sorted_insert {A K} (lt : K -> K -> bool) (key : A -> K) (x : A)
    (l : list A) : list A :=
  match l with
  | [] => [x]
  | y :: l' =>
      if lt (key y) (key x) then y :: sorted_insert lt key x l'
      else x :: y :: l'
  end.

Definition py_sorted {A K} (lt : K -> K -> bool) (key : A -> K) (l : list A)
  : list A :=
  foldr (sorted_insert lt key) [] l.

(** [global[provider][key].cycle_count], 0 while there is no entry. *)
Definition cycle_count_of
    (global : gmap string (gmap string GlobalFairCycleState.t))
    (provider key : string) : Z :=
  match global !! provider with
  | Some groups =>
      match groups !! key with
      | Some g => GlobalFairCycleState.cycle_count g
      | None => 0
      end
  | None => 0
  end.

(** [state.active_requests = n]. *)
Definition set_active_requests (s : CredentialState.t) (n : Z)
  : CredentialState.t :=
  CredentialState.mk
    (CredentialState.stable_id s) (CredentialState.provider s)
    (CredentialState.accessor s) (CredentialState.display_name s)
    (CredentialState.tier s) (CredentialState.priority s)
    (CredentialState.window_definitions s) (CredentialState.model_usage s)
    (CredentialState.group_usage s) (CredentialState.totals s)
    (CredentialState.cooldowns s) (CredentialState.fair_cycle s) n
    (CredentialState.max_concurrent s) (CredentialState.created_at s)
    (CredentialState.last_updated s).

(** The dict that [get_global_state_dict] writes for one cycle and
    [load_global_state_dict] reads with [.get]: each of the three keys may
    be missing, and ["all_exhausted_at"] may be present with value [None]. *)
Module StateData.
Record t := mk {
    cycle_start : option Q;
    all_exhausted_at : option (option Q);
    cycle_count : option Z
  }.
End StateData.

(** The [name] property of the checker classes. *)
Definition Checker_name (checker : Checker) : string :=
  match checker with
  | ConcurrentLimitChecker => "concurrent"
  | CooldownChecker => "cooldowns"
  | WindowLimitChecker => "window_limits"
  | CustomCapChecker => "custom_caps"
  | FairCycleChecker => "fair_cycle"
  end.

(** ** Concrete data for the examples *)

(** A clock that advances by one millisecond at every read, and one that
    stands still. *)
Definition ex_clock (n : nat) : Q := (1000 + inject_Z (Z.of_nat n) / 1000)%Q.
Definition ex_frozen (now : Q) (n : nat) : Q := now.

(** Stand-ins for the calendar arithmetic; the examples use rolling
    windows only. *)
Definition ex_past_daily (t : Z * Z) (started_at now : Q) : bool := false.
Definition ex_past (started_at now : Q) : bool := false.
Definition ex_next_daily (t : Z * Z) (start : Q) : Q := (start + 86400)%Q.
Definition ex_next (start : Q) : Q := (start + 604800)%Q.

Definition ex_o0 : Oracle := mkOracle 0 0.

(** One rolling primary window ["5h"], scoped to the group. *)
Definition ex_def_5h : WindowDefinition.t :=
  WindowDefinition.mk "5h" (Some 18000) ResetMode.ROLLING true "group".
Definition ex_wm : WindowManager.t := WindowManager.init [ex_def_5h] (3, 0).

(** A ["5h"] window with [n] requests, started at 900, with limit [l]. *)
Definition ex_window (n : Z) (l : option Z) : WindowStats.t :=
  WindowStats.mk "5h" n n 0 0 0 0 0 0 0 0 0%Q (Some 900%Q) (Some 18900%Q) l
    (Some n) (Some 950%Q) (Some 900%Q) (Some 950%Q).

(** A ["5h"] window that reset at 990, with 7 requests but a recorded
    maximum of 5, last used at [last_used]. *)
Definition ex_stale_window (last_used : option Q) : WindowStats.t :=
  WindowStats.mk "5h" 7 7 0 0 0 0 0 0 0 0 0%Q (Some 100%Q) (Some 990%Q) None
    (Some 5) (Some 300%Q) (Some 100%Q) last_used.

(** A credential of priority [p] called [sid]. *)
Definition ex_state (sid : string) (p : Z)
    (group_usage : gmap string GroupStats.t)
    (cooldowns : gmap string CooldownInfo.t)
    (fair_cycle : gmap string FairCycleState.t) : CredentialState.t :=
  CredentialState.mk sid "prov" sid None None p [] ∅ group_usage
    TotalStats.new cooldowns fair_cycle 0 None None None.

(** Scenario S4: the learned limit is 200 and the cap on group ["G"] is
    the offset -50. *)
Definition ex_cap_offset (m : Z) : CustomCapConfig.t :=
  CustomCapConfig.mk "default" "G" m CapMode.OFFSET CooldownMode.QUOTA_RESET 0.
Definition ex_s4_windows (n : Z) : gmap string WindowStats.t :=
  {[ "5h" := ex_window n (Some 200) ]}.
Definition ex_s4_state (n : Z) : CredentialState.t :=
  ex_state "a" 1 {[ "G" := GroupStats.mk (ex_s4_windows n) TotalStats.new ]} ∅ ∅.

Definition ex_fair_cycle (enabled : bool) (mode : TrackingMode.t)
    (cross_tier : bool) : FairCycleConfig.t :=
  FairCycleConfig.mk (Some enabled) mode cross_tier 60 1%Q 120.
Definition ex_config (rotation : RotationMode.t) (fc : FairCycleConfig.t)
  : ProviderUsageConfig.t :=
  ProviderUsageConfig.mk rotation 0%Q fc [] 300 false [ex_def_5h].
Definition ex_te : TrackingEngine.t :=
  TrackingEngine.mk ex_wm
    (ex_config RotationMode.BALANCED
               (ex_fair_cycle true TrackingMode.MODEL_GROUP false)).

(** An update of [n] successful requests without token counts. *)
Definition ex_update (n : Z) : UsageUpdate.t :=
  UsageUpdate.mk n true 0 0 0 0 0 0%Q.

(** A windows dict that holds [w] under ["5h"]. *)
Definition ex_windows (w : WindowStats.t) : gmap string WindowStats.t :=
  {[ "5h" := w ]}.

(** A cooldown on group ["G"] that ends at [until], already backed off
    twice. *)
Definition ex_cooldown (until : Q) : CooldownInfo.t :=
  CooldownInfo.mk "rate_limit" until 900%Q "error" (Some "G") 2.
Definition ex_cooling_state (sid : string) (p : Z) (until : Q)
    (fair_cycle : gmap string FairCycleState.t) : CredentialState.t :=
  ex_state sid p ∅ {[ "G" := ex_cooldown until ]} fair_cycle.

(** A response whose only rate-limit header is [x-ratelimit-reset: 60],
    a number of seconds from now. *)
Definition ex_headers_relative : Headers.t := Headers.mk None (Some 60%Q).
Definition ex_headers_absolute : Headers.t :=
  Headers.mk None (Some 2000000000%Q).
Definition ex_fresh_state : CredentialState.t := ex_state "a" 1 ∅ ∅ ∅.

Definition ex_te_credential : TrackingEngine.t :=
  TrackingEngine.mk ex_wm
    (ex_config RotationMode.BALANCED
               (ex_fair_cycle true TrackingMode.CREDENTIAL false)).

(** An exhausted fair-cycle record at [key]. *)
Definition ex_exhausted (key : string) : FairCycleState.t :=
  FairCycleState.mk true (Some 950%Q) (Some "quota_exceeded") 5 (Some key).

(** A credential with a credential-wide cooldown and a credential-mode
    fair-cycle record. *)
Definition ex_global_cooldown_state : CredentialState.t :=
  ex_state "a" 1 ∅
    {[ "_global_" := CooldownInfo.mk "auth_error" 5000%Q 900%Q "system" None 0 ]}
    {[ "_credential_" := ex_exhausted "_credential_" ]}.

Definition ex_le (fc : FairCycleConfig.t) : LimitEngine.t :=
  LimitEngine.init (ex_config RotationMode.BALANCED fc) ex_wm.
Definition ex_fc : FairCycleConfig.t :=
  ex_fair_cycle true TrackingMode.MODEL_GROUP false.

(** A credential in cooldown on ["G"] until [until] that is also
    fair-cycle exhausted for ["G"]. *)
Definition ex_cooling_exhausted (sid : string) (p : Z) (until : Q)
  : CredentialState.t :=
  ex_cooling_state sid p until {[ "G" := ex_exhausted "G" ]}.
(** A credential that is fair-cycle exhausted for ["G"], not in cooldown. *)
Definition ex_exhausted_state (sid : string) (p : Z) : CredentialState.t :=
  ex_state sid p ∅ ∅ {[ "G" := ex_exhausted "G" ]}.

(** A global fair-cycle state for ["prov"] / ["G"] whose cycle began at
    [start]. *)
Definition ex_global (start : Q)
  : gmap string (gmap string GlobalFairCycleState.t) :=
  {[ "prov" := {[ "G" := GlobalFairCycleState.mk start None 0 ]} ]}.

(** A credential with [n] requests in its totals and no windows. *)
Definition ex_used_state (sid : string) (p n : Z) : CredentialState.t :=
  CredentialState.mk sid "prov" sid None None p [] ∅ ∅
    (TotalStats.mk n n 0 0 0 0 0 0 0 0 0%Q (Some 900%Q) (Some 950%Q))
    ∅ ∅ 0 None None None.

Definition ex_se (rotation : RotationMode.t) (fc : FairCycleConfig.t)
  : SelectionEngine.t :=
  SelectionEngine.mk (ex_config rotation fc)
    (LimitEngine.init (ex_config rotation fc) ex_wm) ex_wm.

Definition ex_world (states : list (string * CredentialState.t))
    (global : gmap string (gmap string GlobalFairCycleState.t)) : World :=
  mkWorld states global ∅.

(** Two credentials of one tier: ["a"] unused, ["b"] used 5 times. *)
Definition ex_unequal_world : World :=
  ex_world [("a", ex_used_state "a" 1 0); ("b", ex_used_state "b" 1 5)] ∅.
Definition ex_unequal_usage : gmap string Z := {[ "a" := 0; "b" := 5 ]}.

(** [random.random()] returning 13/14 at every draw. *)
Definition ex_random (n : nat) : Q := 13 # 14.
Definition ex_bits (n : nat) : nat := 0%nat.

Definition ex_tried_a : gset string := {[ "a" ]}.
Definition ex_fc_off : FairCycleConfig.t :=
  ex_fair_cycle false TrackingMode.MODEL_GROUP false.

(** Scenario S3: two credentials of one tier, both fair-cycle exhausted
    for ["G"] and cooling down on ["G"] for another 900 and 1200 seconds
    at time 1000; the cycle of 60 seconds began at 900. *)
Definition ex_s3_world : World :=
  ex_world [("a", ex_cooling_exhausted "a" 1 1900%Q);
            ("b", ex_cooling_exhausted "b" 1 2200%Q)]
           (ex_global 900%Q).

(** One tier, both exhausted; ["a"] has only 50 seconds of cooldown left
    at time 1000, ["b"] has no cooldown. The cycle began at [start]. *)
Definition ex_short_world (start : Q) : World :=
  ex_world [("a", ex_cooling_exhausted "a" 1 1050%Q);
            ("b", ex_exhausted_state "b" 1)]
           (ex_global start).

(** Two tiers at time 1000: ["a"], of priority 1, is exhausted for ["G"];
    ["c"], of priority 2, is not exhausted but cools down on ["G"] for
    another 900 seconds. The cycle began at 990 and runs until 1050. *)
Definition ex_tiers_world : World :=
  ex_world [("a", ex_exhausted_state "a" 1);
            ("c", ex_cooling_state "c" 2 1900%Q ∅)]
           (ex_global 990%Q).

(** Two tiers at time 1000, both exhausted for ["G"]: ["a"], of priority
    1, has 50 seconds of cooldown left; ["b"], of priority 2, has no
    cooldown. The cycle began at 990. *)
Definition ex_two_tier_short_world : World :=
  ex_world [("a", ex_cooling_exhausted "a" 1 1050%Q);
            ("b", ex_exhausted_state "b" 2)]
           (ex_global 990%Q).

(** A credential that is fair-cycle exhausted for ["G"], not in cooldown,
    with 5 requests in a ["5h"] window of group ["G"] whose limit is known
    to be 200. *)
Definition ex_limit_exhausted (sid : string) (p : Z) : CredentialState.t :=
  ex_state sid p {[ "G" := GroupStats.mk (ex_s4_windows 5) TotalStats.new ]} ∅
    {[ "G" := ex_exhausted "G" ]}.

(** Two tiers at time 1000. In the tier of priority 1 both credentials are
    exhausted for ["G"]: ["a"] cools down on ["G"] for another 900
    seconds, more than the threshold of 120, and ["b"] has no cooldown and
    a known limit of 200. ["c"], of priority 2, is not exhausted and cools
    down for another 900 seconds. The cycle began at 990. *)
Definition ex_reset_world : World :=
  ex_world [("a", ex_cooling_exhausted "a" 1 1900%Q);
            ("b", ex_limit_exhausted "b" 1);
            ("c", ex_cooling_state "c" 2 1900%Q ∅)]
           (ex_global 990%Q).

(** Two tiers at time 1000, each of one credential that is exhausted for
    ["G"] and has no cooldown: ["a"] of priority 1 and ["b"] of priority
    2. The cycle began at 990. *)
Definition ex_two_tiers_exhausted_world : World :=
  ex_world [("a", ex_exhausted_state "a" 1); ("b", ex_exhausted_state "b" 2)]
           (ex_global 990%Q).

(** Fair cycle across tiers, and a pool of two tiers at time 1000, both
    exhausted for ["G"]: ["a"], of priority 1, cools down on ["G"] for
    another 900 seconds; ["b"], of priority 2, has no cooldown and a known
    limit of 200. The cycle began at 990. *)
Definition ex_fc_cross : FairCycleConfig.t :=
  ex_fair_cycle true TrackingMode.MODEL_GROUP true.
Definition ex_cross_tier_world : World :=
  ex_world [("a", ex_cooling_exhausted "a" 1 1900%Q);
            ("b", ex_limit_exhausted "b" 2)]
           (ex_global 990%Q).

(** A quota threshold of 0: a credential counts as exhausted as soon as
    it holds a fair-cycle record. ["a"] has a ["5h"] window of limit 200
    in group ["G"]. *)
Definition ex_fc_threshold_zero : FairCycleConfig.t :=
  FairCycleConfig.mk (Some true) TrackingMode.MODEL_GROUP false 60 0%Q 120.
Definition ex_quota_world : World :=
  ex_world
    [("a", ex_state "a" 1
             {[ "G" := GroupStats.mk (ex_s4_windows 5) TotalStats.new ]} ∅
             {[ "G" := ex_exhausted "G" ]})]
    (ex_global 990%Q).

(** A request for model ["m"] of group ["G"] with the candidates ["a"]
    and ["b"] of [ex_unequal_world], both of priority 1. *)
Definition ex_context : SelectionContext.t :=
  SelectionContext.mk "prov" "m" (Some "G") ["a"; "b"]
    {[ "a" := 1; "b" := 1 ]} ex_unequal_usage RotationMode.SEQUENTIAL 0%Q 0%Q.

(** A later request for another model of the same group, with other
    candidates and no usage known. *)
Definition ex_context_later : SelectionContext.t :=
  SelectionContext.mk "prov" "m2" (Some "G") ["c"; "b"] ∅ ∅
    RotationMode.SEQUENTIAL 0%Q 0%Q.

(** Candidates of two tiers: ["a"] of priority 2 and ["b"] of priority 1. *)
Definition ex_context_tiers : SelectionContext.t :=
  SelectionContext.mk "prov" "m" (Some "G") ["a"; "b"]
    {[ "a" := 2; "b" := 1 ]} ∅ RotationMode.BALANCED 3%Q 0%Q.

(** Sticky maps of the sequential strategy: none yet, and ["a"] or ["b"]
    remembered for provider ["prov"] and group ["G"]. *)
Definition ex_no_sticky : gmap (string * string) string := ∅.
Definition ex_sticky (sid : string) : gmap (string * string) string :=
  <[("prov", "G") := sid]> ex_no_sticky.

Section Rotator.

(** The wall clock ([time.time()]), [random.random()] and the raw bits
    behind [random.choice]; the [n]-th read returns the [n]-th value. *)
Variable clock : nat -> Q.
Variable random_random : nat -> Q.
Variable rand_bits : nat -> nat.

(** The calendar arithmetic of the window manager is done by Python's
    [datetime]; it is kept abstract. Each takes the parsed
    [daily_reset_time_utc] where the source method reads it. *)
Variable _past_daily_reset : Z * Z -> Q -> Q -> bool.
Variable _past_weekly_reset : Q -> Q -> bool.
Variable _past_monthly_reset : Q -> Q -> bool.
Variable _next_daily_reset : Z * Z -> Q -> Q.
Variable _next_weekly_reset : Q -> Q.
Variable _next_monthly_reset : Q -> Q.

Definition time_time : M Q :=
  fun o => (clock (ticks o), mkOracle (S (ticks o)) (draws o)).

(** [random.uniform(a, b)] is [a + (b - a) * random()]. *)
Definition random_uniform (a b : Q) : M Q :=
  fun o => ((a + (b - a) * random_random (draws o))%Q,
            mkOracle (ticks o) (S (draws o))).

(** [random.choice(seq)] is [seq[_randbelow(len(seq))]]. *)
Definition random_choice (seq : list string) : M (option string) :=
  fun o => (seq !! (rand_bits (draws o) `mod` length seq)%nat,
            mkOracle (ticks o) (S (draws o))).

(** ** tracking/windows.py *)

Definition _should_reset (wm : WindowManager.t) (window : WindowStats.t)
    (definition : WindowDefinition.t) : M bool :=
  now ← time_time;
  match WindowStats.reset_at window with
  | Some r => mret (Qle_bool r now)
  | None =>
    match WindowStats.started_at window with
    | None => mret false
    | Some s =>
      match WindowDefinition.reset_mode definition with
      | ResetMode.ROLLING =>
          match WindowDefinition.duration_seconds definition with
          | None => mret false
          | Some d => mret (Qle_bool (s + inject_Z d) now)
          end
      | ResetMode.FIXED_DAILY =>
          mret (_past_daily_reset (WindowManager.daily_reset_time_utc wm) s now)
      | ResetMode.CALENDAR_WEEKLY => mret (_past_weekly_reset s now)
      | ResetMode.CALENDAR_MONTHLY => mret (_past_monthly_reset s now)
      | ResetMode.API_AUTHORITATIVE => mret false
      end
    end
  end.

Definition _calculate_reset_time (wm : WindowManager.t)
    (definition : WindowDefinition.t) (start_time : Q) : option Q :=
  match WindowDefinition.reset_mode definition with
  | ResetMode.ROLLING =>
      match WindowDefinition.duration_seconds definition with
      | None => None
      | Some d => Some (start_time + inject_Z d)%Q
      end
  | ResetMode.FIXED_DAILY =>
      Some (_next_daily_reset (WindowManager.daily_reset_time_utc wm) start_time)
  | ResetMode.CALENDAR_WEEKLY => Some (_next_weekly_reset start_time)
  | ResetMode.CALENDAR_MONTHLY => Some (_next_monthly_reset start_time)
  | ResetMode.API_AUTHORITATIVE => None
  end.

Definition get_active_window (wm : WindowManager.t)
    (windows : gmap string WindowStats.t) (window_name : string)
  : M (option WindowStats.t) :=
  match windows !! window_name with
  | None => mret None
  | Some window =>
    match odict_get (WindowManager.definitions wm) window_name with
    | None => mret (Some window)
    | Some definition =>
        b ← _should_reset wm window definition;
        mret (if b : bool then None else Some window)
    end
  end.

(** [old_window.last_used_at or time.time()]: the clock is read only when
    the left operand is falsy ([None] or [0.0]). *)
Definition last_used_or_now (last_used_at : option Q) : M Q :=
  match last_used_at with
  | Some t => if Qeq_bool t 0 then time_time else mret t
  | None => time_time
  end.

(** Returns the window and the [windows] dict, in which a new window has
    been stored. *)
Definition get_or_create_window (wm : WindowManager.t)
    (windows : gmap string WindowStats.t) (window_name : string)
    (limit : option Z) : M (WindowStats.t * gmap string WindowStats.t) :=
  w ← get_active_window wm windows window_name;
  match w with
  | Some window => mret (window, windows)
  | None =>
    '(old_max, old_max_at, old_limit) ←
      match windows !! window_name with
      | None => mret (None, None, None)
      | Some old_window =>
          let old_limit := WindowStats.limit old_window in
          let old_recorded_max :=
            py_or_zero (WindowStats.max_recorded_requests old_window) in
          if old_recorded_max <? WindowStats.request_count old_window then
            a ← last_used_or_now (WindowStats.last_used_at old_window);
            mret (Some (WindowStats.request_count old_window), Some a, old_limit)
          else if 0 <? old_recorded_max then
            mret (Some old_recorded_max,
                  WindowStats.max_recorded_at old_window, old_limit)
          else mret (None, None, old_limit)
      end;
    let new_window :=
      WindowStats.new window_name None None (py_or_optZ limit old_limit)
                      old_max old_max_at in
    mret (new_window, <[window_name := new_window]> windows)
  end.

Fixpoint first_primary (defs : list (string * WindowDefinition.t))
  : option (string * WindowDefinition.t) :=
  match defs with
  | [] => None
  | (name, definition) :: rest =>
      if WindowDefinition.is_primary definition then Some (name, definition)
      else first_primary rest
  end.

Definition get_primary_window (wm : WindowManager.t)
    (windows : gmap string WindowStats.t) : M (option WindowStats.t) :=
  match first_primary (WindowManager.definitions wm) with
  | Some (name, _) => get_active_window wm windows name
  | None => mret None
  end.

Definition get_primary_definition (wm : WindowManager.t)
  : option WindowDefinition.t :=
  snd <$> first_primary (WindowManager.definitions wm).

(** ** tracking/engine.py *)

Definition _resolve_fair_cycle_key (te : TrackingEngine.t) (group_key : string)
  : string :=
  match FairCycleConfig.tracking_mode
          (ProviderUsageConfig.fair_cycle (TrackingEngine._config te)) with
  | TrackingMode.CREDENTIAL => FAIR_CYCLE_GLOBAL_KEY
  | TrackingMode.MODEL_GROUP => group_key
  end.

Definition _apply_to_window (te : TrackingEngine.t) (window : WindowStats.t)
    (update : UsageUpdate.t) (now : Q) (total_tokens output_tokens : Z)
    (window_def : option WindowDefinition.t) : WindowStats.t :=
  let request_count :=
    WindowStats.request_count window + UsageUpdate.request_count update in
  let effective_def :=
    match window_def with
    | Some d => Some d
    | None => odict_get (WindowManager.definitions (TrackingEngine._windows te))
                        (WindowStats.name window)
    end in
  let started_at :=
    match WindowStats.started_at window with
    | None => Some now
    | Some s => Some s
    end in
  let reset_at :=
    match WindowStats.started_at window, WindowStats.reset_at window with
    | None, None =>
        match effective_def with
        | Some d => _calculate_reset_time (TrackingEngine._windows te) d now
        | None => None
        end
    | _, r => r
    end in
  let new_max :=
    match WindowStats.max_recorded_requests window with
    | None => true
    | Some m => m <? request_count
    end in
  WindowStats.mk
    (WindowStats.name window)
    request_count
    (if UsageUpdate.success update
     then WindowStats.success_count window + UsageUpdate.request_count update
     else WindowStats.success_count window)
    (if UsageUpdate.success update
     then WindowStats.failure_count window
     else WindowStats.failure_count window + UsageUpdate.request_count update)
    (WindowStats.prompt_tokens window + UsageUpdate.prompt_tokens update)
    (WindowStats.completion_tokens window + UsageUpdate.completion_tokens update)
    (WindowStats.thinking_tokens window + UsageUpdate.thinking_tokens update)
    (WindowStats.output_tokens window + output_tokens)
    (WindowStats.prompt_tokens_cache_read window
     + UsageUpdate.prompt_tokens_cache_read update)
    (WindowStats.prompt_tokens_cache_write window
     + UsageUpdate.prompt_tokens_cache_write update)
    (WindowStats.total_tokens window + total_tokens)
    (WindowStats.approx_cost window + UsageUpdate.approx_cost update)%Q
    started_at
    reset_at
    (WindowStats.limit window)
    (if new_max then Some request_count
     else WindowStats.max_recorded_requests window)
    (if new_max then Some now else WindowStats.max_recorded_at window)
    (match WindowStats.first_used_at window with
     | None => Some now
     | Some f => Some f
     end)
    (Some now).

(** The loop of [_apply_to_windows] over the definitions [defs]. *)
Fixpoint _apply_to_windows_loop (te : TrackingEngine.t)
    (defs : list WindowDefinition.t) (windows : gmap string WindowStats.t)
    (update : UsageUpdate.t) (now : Q) (total_tokens output_tokens : Z)
  : M (gmap string WindowStats.t) :=
  match defs with
  | [] => mret windows
  | window_def :: rest =>
      '(window, windows1) ←
        get_or_create_window (TrackingEngine._windows te) windows
                             (WindowDefinition.name window_def) None;
      let window' :=
        _apply_to_window te window update now total_tokens output_tokens
                         (Some window_def) in
      _apply_to_windows_loop te rest
        (<[WindowDefinition.name window_def := window']> windows1)
        update now total_tokens output_tokens
  end.

(** [window_definitions] is what the caller passes:
    [state.window_definitions or None]. *)
Definition _apply_to_windows (te : TrackingEngine.t)
    (windows : gmap string WindowStats.t) (update : UsageUpdate.t) (now : Q)
    (total_tokens output_tokens : Z)
    (window_definitions : list WindowDefinition.t)
  : M (gmap string WindowStats.t) :=
  let defs :=
    match window_definitions with
    | [] => ProviderUsageConfig.windows (TrackingEngine._config te)
    | _ => window_definitions
    end in
  _apply_to_windows_loop te defs windows update now total_tokens output_tokens.

Definition _apply_to_totals (totals : TotalStats.t) (update : UsageUpdate.t)
    (now : Q) (total_tokens output_tokens : Z) : TotalStats.t :=
  TotalStats.mk
    (TotalStats.request_count totals + UsageUpdate.request_count update)
    (if UsageUpdate.success update
     then TotalStats.success_count totals + UsageUpdate.request_count update
     else TotalStats.success_count totals)
    (if UsageUpdate.success update
     then TotalStats.failure_count totals
     else TotalStats.failure_count totals + UsageUpdate.request_count update)
    (TotalStats.prompt_tokens totals + UsageUpdate.prompt_tokens update)
    (TotalStats.completion_tokens totals + UsageUpdate.completion_tokens update)
    (TotalStats.thinking_tokens totals + UsageUpdate.thinking_tokens update)
    (TotalStats.output_tokens totals + output_tokens)
    (TotalStats.prompt_tokens_cache_read totals
     + UsageUpdate.prompt_tokens_cache_read update)
    (TotalStats.prompt_tokens_cache_write totals
     + UsageUpdate.prompt_tokens_cache_write update)
    (TotalStats.total_tokens totals + total_tokens)
    (TotalStats.approx_cost totals + UsageUpdate.approx_cost update)%Q
    (match TotalStats.first_used_at totals with
     | None => Some now
     | Some f => Some f
     end)
    (Some now).

(** One iteration of the loop of [_sync_window_timing_from_group]. *)
Definition sync_one (window_name : string) (group_window : WindowStats.t)
    (model_windows : gmap string WindowStats.t) : gmap string WindowStats.t :=
  match model_windows !! window_name with
  | Some model_window =>
      <[window_name :=
          WindowStats.set_timing model_window
            (WindowStats.started_at group_window)
            (WindowStats.reset_at group_window)]> model_windows
  | None => model_windows
  end.

Definition _sync_window_timing_from_group
    (model_windows group_windows : gmap string WindowStats.t)
  : gmap string WindowStats.t :=
  map_fold sync_one model_windows group_windows.

Definition _apply_header_updates (window : WindowStats.t)
    (limit : option Z) (reset : option Q) : M WindowStats.t :=
  let window1 :=
    match limit with
    | Some l => WindowStats.set_limit window (Some l)
    | None => window
    end in
  match reset with
  | Some reset_float =>
      if Qlt_bool reset_float (inject_Z 1000000000) then
        t ← time_time;
        mret (WindowStats.set_reset_at window1 (Some (t + reset_float)%Q))
      else mret (WindowStats.set_reset_at window1 (Some reset_float))
  | None => mret window1
  end.

Definition _update_from_headers (te : TrackingEngine.t)
    (state : CredentialState.t) (headers : Headers.t) (model : string)
    (group : option string) : M CredentialState.t :=
  let limit := Headers.x_ratelimit_limit headers in
  let reset := Headers.x_ratelimit_reset headers in
  match get_primary_definition (TrackingEngine._windows te) with
  | None => mret state
  | Some primary_def =>
    let pname := WindowDefinition.name primary_def in
    state1 ←
      match group with
      | Some g =>
        if py_str_truthy g then
          match CredentialState.get_group_stats state g with
          | Some group_stats =>
            match GroupStats.windows group_stats !! pname with
            | Some window =>
                window' ← _apply_header_updates window limit reset;
                mret (CredentialState.set_group_usage state
                        (<[g := GroupStats.mk
                                  (<[pname := window']> (GroupStats.windows group_stats))
                                  (GroupStats.totals group_stats)]>
                           (CredentialState.group_usage state)))
            | None => mret state
            end
          | None => mret state
          end
        else mret state
      | None => mret state
      end;
    match CredentialState.get_model_stats state1 model with
    | Some model_stats =>
      match ModelStats.windows model_stats !! pname with
      | Some window =>
          window' ← _apply_header_updates window limit reset;
          mret (CredentialState.set_model_usage state1
                  (<[model := ModelStats.mk
                                (<[pname := window']> (ModelStats.windows model_stats))
                                (ModelStats.totals model_stats)]>
                     (CredentialState.model_usage state1)))
      | None => mret state1
      end
    | None => mret state1
    end
  end.

(** Step 4 of [record_usage]: the request count of the fair-cycle record
    at the tracking key, created on first use. *)
Definition count_cycle_requests (te : TrackingEngine.t)
    (state : CredentialState.t) (fair_cycle_key : string)
    (update : UsageUpdate.t) : CredentialState.t :=
  if FairCycleConfig.is_enabled
       (ProviderUsageConfig.fair_cycle (TrackingEngine._config te)) then
    let fc_state :=
      match CredentialState.fair_cycle state !! fair_cycle_key with
      | Some fc => fc
      | None => FairCycleState.new fair_cycle_key
      end in
    CredentialState.set_fair_cycle state
      (<[fair_cycle_key :=
           FairCycleState.mk
             (FairCycleState.exhausted fc_state)
             (FairCycleState.exhausted_at fc_state)
             (FairCycleState.exhausted_reason fc_state)
             (FairCycleState.cycle_request_count fc_state
              + UsageUpdate.request_count update)
             (FairCycleState.model_or_group fc_state)]>
         (CredentialState.fair_cycle state))
  else state.

(** [record_usage]; the lock is not modelled (calls do not interleave). *)
Definition record_usage (te : TrackingEngine.t) (state : CredentialState.t)
    (model : string) (update : UsageUpdate.t) (group : option string)
    (response_headers : option Headers.t) : M CredentialState.t :=
  now ← time_time;
  let fair_cycle_key := _resolve_fair_cycle_key te (py_or_str group model) in
  let output_tokens :=
    UsageUpdate.completion_tokens update + UsageUpdate.thinking_tokens update in
  let total_tokens :=
    UsageUpdate.prompt_tokens update + UsageUpdate.completion_tokens update
    + UsageUpdate.thinking_tokens update
    + UsageUpdate.prompt_tokens_cache_read update
    + UsageUpdate.prompt_tokens_cache_write update in
  (* 1. model stats *)
  let '(model_stats, state) := CredentialState.get_model_stats_create state model in
  model_windows ←
    _apply_to_windows te (ModelStats.windows model_stats) update now
      total_tokens output_tokens (CredentialState.window_definitions state);
  let model_totals :=
    _apply_to_totals (ModelStats.totals model_stats) update now
                     total_tokens output_tokens in
  let state :=
    CredentialState.set_model_usage state
      (<[model := ModelStats.mk model_windows model_totals]>
         (CredentialState.model_usage state)) in
  (* 2. group stats, then the timing of the model windows *)
  state ←
    (if py_opt_str_truthy group then
       let g := py_or_str group model in
       let '(group_stats, state) := CredentialState.get_group_stats_create state g in
       group_windows ←
         _apply_to_windows te (GroupStats.windows group_stats) update now
           total_tokens output_tokens (CredentialState.window_definitions state);
       let group_totals :=
         _apply_to_totals (GroupStats.totals group_stats) update now
                          total_tokens output_tokens in
       let state :=
         CredentialState.set_group_usage state
           (<[g := GroupStats.mk group_windows group_totals]>
              (CredentialState.group_usage state)) in
       mret (CredentialState.set_model_usage state
               (<[model := ModelStats.mk
                             (_sync_window_timing_from_group model_windows group_windows)
                             model_totals]>
                  (CredentialState.model_usage state)))
     else mret state);
  (* 3. credential totals *)
  let state :=
    CredentialState.set_totals state
      (_apply_to_totals (CredentialState.totals state) update now
                        total_tokens output_tokens) in
  (* 4. fair cycle request count *)
  let state := count_cycle_requests te state fair_cycle_key update in
  (* 5. response headers *)
  state ←
    match response_headers with
    | Some headers => _update_from_headers te state headers model group
    | None => mret state
    end;
  mret (CredentialState.set_last_updated state (Some now)).

Definition _mark_exhausted (state : CredentialState.t)
    (model_or_group : string) (reason : string) : M CredentialState.t :=
  now ← time_time;
  let fair_cycle :=
    match CredentialState.fair_cycle state !! model_or_group with
    | Some _ => CredentialState.fair_cycle state
    | None => <[model_or_group := FairCycleState.new model_or_group]>
                (CredentialState.fair_cycle state)
    end in
  match fair_cycle !! model_or_group with
  | Some fc_state =>
      if FairCycleState.exhausted fc_state then
        mret (CredentialState.set_fair_cycle state fair_cycle)
      else
        mret (CredentialState.set_fair_cycle state
                (<[model_or_group :=
                     FairCycleState.mk true (Some now) (Some reason)
                       (FairCycleState.cycle_request_count fc_state)
                       (FairCycleState.model_or_group fc_state)]> fair_cycle))
  | None => mret (CredentialState.set_fair_cycle state fair_cycle)
  end.

(** The [is_active] property of a cooldown: [time.time() < self.until]. *)
Definition is_active (c : CooldownInfo.t) : M bool :=
  t ← time_time; mret (Qlt_bool t (CooldownInfo.until c)).

(** The [remaining_seconds] property: [max(0.0, self.until - time.time())]. *)
Definition remaining_seconds (c : CooldownInfo.t) : M Q :=
  t ← time_time; mret (Qmax 0 (CooldownInfo.until c - t)).

(** The first lines of [_apply_cooldown]: [until] if given, else
    [now + duration] if given, else nothing to apply. *)
Definition resolve_cooldown_until (now : Q) (duration until : option Q)
  : option Q :=
  match until, duration with
  | Some u, _ => Some u
  | None, Some d => Some (now + d)%Q
  | None, None => None
  end.

Definition _apply_cooldown (te : TrackingEngine.t) (state : CredentialState.t)
    (reason : string) (duration : option Q) (until : option Q)
    (model_or_group : option string) (source : string)
  : M CredentialState.t :=
  now ← time_time;
  match resolve_cooldown_until now duration until with
  | None => mret state
  | Some cooldown_until =>
    let key := py_or_str model_or_group "_global_" in
    let existing := CredentialState.cooldowns state !! key in
    active ←
      match existing with
      | Some e => is_active e
      | None => mret false
      end;
    let '(backoff_count, reason, source, started_at) :=
      match existing, active with
      | Some e, true =>
          (CooldownInfo.backoff_count e + 1, CooldownInfo.reason e,
           CooldownInfo.source e, CooldownInfo.started_at e)
      | _, _ => (0, reason, source, now)
      end in
    let state :=
      CredentialState.set_cooldowns state
        (<[key := CooldownInfo.mk reason cooldown_until started_at source
                    model_or_group backoff_count]>
           (CredentialState.cooldowns state)) in
    let cooldown_duration := (cooldown_until - now)%Q in
    let config := TrackingEngine._config te in
    if Qle_bool (inject_Z (ProviderUsageConfig.exhaustion_cooldown_threshold config))
                cooldown_duration
       && FairCycleConfig.is_enabled (ProviderUsageConfig.fair_cycle config)
       && py_opt_str_truthy model_or_group
    then
      _mark_exhausted state
        (_resolve_fair_cycle_key te (py_or_str model_or_group ""))
        ("cooldown_" +:+ reason)
    else mret state
  end.

(** The public [apply_cooldown] takes the lock and calls [_apply_cooldown]. *)
Definition apply_cooldown := _apply_cooldown.

Definition clear_cooldown (state : CredentialState.t)
    (model_or_group : option string) : CredentialState.t :=
  let key := py_or_str model_or_group "_global_" in
  match CredentialState.cooldowns state !! key with
  | Some _ =>
      CredentialState.set_cooldowns state
        (delete key (CredentialState.cooldowns state))
  | None => state
  end.

(** The public [mark_exhausted] takes the lock and calls [_mark_exhausted]. *)
Definition mark_exhausted := _mark_exhausted.

Definition reset_fair_cycle (state : CredentialState.t)
    (model_or_group : string) : CredentialState.t :=
  match CredentialState.fair_cycle state !! model_or_group with
  | Some fc_state =>
      CredentialState.set_fair_cycle state
        (<[model_or_group := FairCycleState.cleared fc_state]>
           (CredentialState.fair_cycle state))
  | None => state
  end.

(** ** limits/concurrent.py *)

Definition ConcurrentLimitChecker_check (state : CredentialState.t)
  : LimitCheckResult.t :=
  match CredentialState.max_concurrent state with
  | None => LimitCheckResult.ok
  | Some max_concurrent =>
      if max_concurrent <=? CredentialState.active_requests state then
        LimitCheckResult.blocked LimitResult.BLOCKED_CONCURRENT
          (ReasonConcurrent (CredentialState.active_requests state) max_concurrent)
          None
      else LimitCheckResult.ok
  end.

(** ** limits/cooldowns.py *)

Definition cooldown_keys_to_check (model : string) (quota_group : option string)
  : list string :=
  let group_key := py_or_str quota_group model in
  (if py_str_truthy group_key then [group_key] else [])
  ++ (if py_opt_str_truthy quota_group
         && negb (String.eqb (py_or_str quota_group "") model)
      then [model] else []).

Fixpoint cooldown_check_keys (state : CredentialState.t) (now : Q)
    (keys : list string) : M (option LimitCheckResult.t) :=
  match keys with
  | [] => mret None
  | key :: rest =>
      match CredentialState.cooldowns state !! key with
      | Some cooldown =>
          if Qlt_bool now (CooldownInfo.until cooldown) then
            r ← remaining_seconds cooldown;
            mret (Some (LimitCheckResult.blocked LimitResult.BLOCKED_COOLDOWN
                          (ReasonCooldown key (CooldownInfo.reason cooldown) r)
                          (Some (CooldownInfo.until cooldown))))
          else cooldown_check_keys state now rest
      | None => cooldown_check_keys state now rest
      end
  end.

Definition CooldownChecker_check (state : CredentialState.t) (model : string)
    (quota_group : option string) : M LimitCheckResult.t :=
  now ← time_time;
  found ← cooldown_check_keys state now (cooldown_keys_to_check model quota_group);
  match found with
  | Some blocked => mret blocked
  | None =>
      match CredentialState.cooldowns state !! "_global_" with
      | Some global_cooldown =>
          if Qlt_bool now (CooldownInfo.until global_cooldown) then
            r ← remaining_seconds global_cooldown;
            mret (LimitCheckResult.blocked LimitResult.BLOCKED_COOLDOWN
                    (ReasonGlobalCooldown (CooldownInfo.reason global_cooldown) r)
                    (Some (CooldownInfo.until global_cooldown)))
          else mret LimitCheckResult.ok
      | None => mret LimitCheckResult.ok
      end
  end.

(** ** limits/window_limits.py *)

Definition windows_for_definition (state : CredentialState.t)
    (definition : WindowDefinition.t) (model group_key : string)
  : option (gmap string WindowStats.t) :=
  if String.eqb (WindowDefinition.applies_to definition) "model" then
    ModelStats.windows <$> CredentialState.get_model_stats state model
  else if String.eqb (WindowDefinition.applies_to definition) "group" then
    GroupStats.windows <$> CredentialState.get_group_stats state group_key
  else None.

Fixpoint window_limit_loop (wm : WindowManager.t) (state : CredentialState.t)
    (model group_key : string) (defs : list WindowDefinition.t)
  : M LimitCheckResult.t :=
  match defs with
  | [] => mret LimitCheckResult.ok
  | definition :: rest =>
    let continue := window_limit_loop wm state model group_key rest in
    match windows_for_definition state definition model group_key with
    | None => continue
    | Some windows =>
      match windows !! WindowDefinition.name definition with
      | None => continue
      | Some window =>
        match WindowStats.limit window with
        | None => continue
        | Some _ =>
          active ← get_active_window wm windows (WindowDefinition.name definition);
          match active with
          | None => continue
          | Some active =>
            match WindowStats.limit active with
            | Some limit =>
              if limit <=? WindowStats.request_count active then
                mret (LimitCheckResult.blocked LimitResult.BLOCKED_WINDOW
                        (ReasonWindow (WindowDefinition.name definition)
                           (WindowStats.request_count active) limit)
                        (WindowStats.reset_at active))
              else continue
            | None => continue
            end
          end
        end
      end
    end
  end.

Definition WindowLimitChecker_check (wm : WindowManager.t)
    (state : CredentialState.t) (model : string) (quota_group : option string)
  : M LimitCheckResult.t :=
  window_limit_loop wm state model (py_or_str quota_group model)
    (odict_values (WindowManager.definitions wm)).

(** ** limits/custom_caps.py *)

Definition SCOPE_MODEL : string := "model".
Definition SCOPE_GROUP : string := "group".

(** [self._cap_index.get((tier_key, model_or_group))]: the index is filled
    by assignment in list order, so the last cap with that key is found. *)
Fixpoint _cap_index_get (caps : list CustomCapConfig.t)
    (tier_key model_or_group : string) : option CustomCapConfig.t :=
  match caps with
  | [] => None
  | cap :: rest =>
      match _cap_index_get rest tier_key model_or_group with
      | Some later => Some later
      | None =>
          if String.eqb (CustomCapConfig.tier_key cap) tier_key
             && String.eqb (CustomCapConfig.model_or_group cap) model_or_group
          then Some cap else None
      end
  end.

(** [index.get((priority_key, name)) or index.get(("default", name))]. *)
Definition cap_for (caps : list CustomCapConfig.t) (priority_key name : string)
  : option CustomCapConfig.t :=
  match _cap_index_get caps priority_key name with
  | Some cap => Some cap
  | None => _cap_index_get caps "default" name
  end.

Definition _find_all_caps (caps : list CustomCapConfig.t)
    (priority_key model : string) (quota_group : option string)
  : list (CustomCapConfig.t * string * string) :=
  (match cap_for caps priority_key model with
   | Some model_cap => [(model_cap, SCOPE_MODEL, model)]
   | None => []
   end)
  ++ (if py_opt_str_truthy quota_group
         && negb (String.eqb (py_or_str quota_group "") model)
      then
        match cap_for caps priority_key (py_or_str quota_group "") with
        | Some group_cap => [(group_cap, SCOPE_GROUP, py_or_str quota_group "")]
        | None => []
        end
      else []).

(** [int(window_limit * max_requests / 100)]: the quotient of two ints as
    a float, truncated. *)
Definition _resolve_max_requests (cap : CustomCapConfig.t)
    (window_limit : option Z) : Z :=
  match CustomCapConfig.max_requests_mode cap with
  | CapMode.ABSOLUTE => Z.max 0 (CustomCapConfig.max_requests cap)
  | mode =>
    match window_limit with
    | None =>
        match mode with
        | CapMode.OFFSET => Z.max 0 (Z.abs (CustomCapConfig.max_requests cap))
        | _ => 1000
        end
    | Some window_limit =>
        match mode with
        | CapMode.OFFSET =>
            Z.max 0 (window_limit + CustomCapConfig.max_requests cap)
        | _ =>
            Z.max 0 (py_int (inject_Z (window_limit * CustomCapConfig.max_requests cap)
                             / inject_Z 100))
        end
    end
  end.

Definition _calculate_cooldown_until (cap : CustomCapConfig.t)
    (window : WindowStats.t) : M (option Q) :=
  now ← time_time;
  let natural_reset := WindowStats.reset_at window in
  let value := inject_Z (CustomCapConfig.cooldown_value cap) in
  match CustomCapConfig.cooldown_mode cap with
  | CooldownMode.QUOTA_RESET => mret natural_reset
  | CooldownMode.OFFSET =>
      match natural_reset with
      | Some r =>
          if Qeq_bool r 0 then mret (Some (now + Qabs value)%Q)
          else mret (Some (Qmax (r + value) r))
      | None => mret (Some (now + Qabs value)%Q)
      end
  | CooldownMode.FIXED => mret (Some (now + value)%Q)
  end.

(** The windows of the scope of a cap: group windows for [SCOPE_GROUP],
    model windows otherwise. *)
Definition scope_windows (state : CredentialState.t) (scope scope_key : string)
  : option (gmap string WindowStats.t) :=
  if String.eqb scope SCOPE_GROUP then
    GroupStats.windows <$> CredentialState.get_group_stats state scope_key
  else
    ModelStats.windows <$> CredentialState.get_model_stats state scope_key.

Definition _check_single_cap (wm : WindowManager.t) (state : CredentialState.t)
    (cap : CustomCapConfig.t) (scope scope_key : string)
  : M LimitCheckResult.t :=
  match scope_windows state scope scope_key with
  | None => mret LimitCheckResult.ok
  | Some windows =>
    primary_window ← get_primary_window wm windows;
    match primary_window with
    | None => mret LimitCheckResult.ok
    | Some primary_window =>
      let current_usage := WindowStats.request_count primary_window in
      let max_requests :=
        _resolve_max_requests cap (WindowStats.limit primary_window) in
      if max_requests <=? current_usage then
        cooldown_until ← _calculate_cooldown_until cap primary_window;
        let scope_desc :=
          if String.eqb scope SCOPE_MODEL then "model" else "group" in
        mret (LimitCheckResult.blocked LimitResult.BLOCKED_CUSTOM_CAP
                (ReasonCustomCap scope_desc scope_key current_usage max_requests)
                cooldown_until)
      else mret LimitCheckResult.ok
    end
  end.

Fixpoint custom_cap_loop (wm : WindowManager.t) (state : CredentialState.t)
    (all_caps : list (CustomCapConfig.t * string * string))
  : M LimitCheckResult.t :=
  match all_caps with
  | [] => mret LimitCheckResult.ok
  | (cap, scope, scope_key) :: rest =>
      result ← _check_single_cap wm state cap scope scope_key;
      if LimitCheckResult.allowed result then custom_cap_loop wm state rest
      else mret result
  end.

Definition CustomCapChecker_check (caps : list CustomCapConfig.t)
    (wm : WindowManager.t) (state : CredentialState.t) (model : string)
    (quota_group : option string) : M LimitCheckResult.t :=
  match caps with
  | [] => mret LimitCheckResult.ok
  | _ =>
    match get_primary_definition wm with
    | None => mret LimitCheckResult.ok
    | Some _ =>
        custom_cap_loop wm state
          (_find_all_caps caps (pretty (CredentialState.priority state))
                          model quota_group)
    end
  end.

(** ** limits/fair_cycle.py

    The checker's [_global_state] (provider -> tracking key -> state) is
    passed in and returned. *)

Definition _resolve_tracking_key (fc : FairCycleConfig.t) (model : string)
    (quota_group : option string) : string :=
  match FairCycleConfig.tracking_mode fc with
  | TrackingMode.CREDENTIAL => FAIR_CYCLE_GLOBAL_KEY
  | TrackingMode.MODEL_GROUP => py_or_str quota_group model
  end.

Definition get_tracking_key := _resolve_tracking_key.

Definition _get_global_state
    (global : gmap string (gmap string GlobalFairCycleState.t))
    (provider group_key : string)
  : M (GlobalFairCycleState.t * gmap string (gmap string GlobalFairCycleState.t)) :=
  let global1 :=
    match global !! provider with
    | Some _ => global
    | None => <[provider := ∅]> global
    end in
  let groups := default ∅ (global1 !! provider) in
  match groups !! group_key with
  | Some g => mret (g, global1)
  | None =>
      t ← time_time;
      let g := GlobalFairCycleState.mk t None 0 in
      mret (g, <[provider := <[group_key := g]> groups]> global1)
  end.

Definition _should_reset_cycle (fc : FairCycleConfig.t)
    (global_state : GlobalFairCycleState.t) : M bool :=
  now ← time_time;
  mret (Qle_bool (GlobalFairCycleState.cycle_start global_state
                  + inject_Z (FairCycleConfig.duration fc)) now).

(** The smallest [limit] among [windows.values()]. *)
Definition smallest_limit (windows : gmap string WindowStats.t) : option Z :=
  map_fold
    (fun _ window smallest =>
       match WindowStats.limit window with
       | Some l =>
           match smallest with
           | None => Some l
           | Some s => if l <? s then Some l else Some s
           end
       | None => smallest
       end)
    None windows.

Definition _get_quota_limit (wm : WindowManager.t) (state : CredentialState.t)
    (model : string) (quota_group : option string) : M (option Z) :=
  match get_primary_definition wm with
  | None => mret None
  | Some primary_def =>
    let windows :=
      match (if py_opt_str_truthy quota_group
             then CredentialState.get_group_stats state (py_or_str quota_group "")
             else None) with
      | Some group_stats => Some (GroupStats.windows group_stats)
      | None =>
          ModelStats.windows <$> CredentialState.get_model_stats state model
      end in
    match windows with
    | None => mret None
    | Some windows =>
      primary_window ←
        get_active_window wm windows (WindowDefinition.name primary_def);
      match primary_window with
      | Some w =>
          match WindowStats.limit w with
          | Some l => if Z.eqb l 0 then mret (smallest_limit windows)
                      else mret (Some l)
          | None => mret (smallest_limit windows)
          end
      | None => mret (smallest_limit windows)
      end
    end
  end.

Definition FairCycleChecker_check (fc : FairCycleConfig.t)
    (wm : WindowManager.t) (state : CredentialState.t) (model : string)
    (quota_group : option string)
    (global : gmap string (gmap string GlobalFairCycleState.t))
  : M (LimitCheckResult.t * CredentialState.t
       * gmap string (gmap string GlobalFairCycleState.t)) :=
  if negb (FairCycleConfig.is_enabled fc) then
    mret (LimitCheckResult.ok, state, global)
  else
    let group_key := _resolve_tracking_key fc model quota_group in
    (* quota-based exhaustion *)
    state1 ←
      match CredentialState.fair_cycle state !! group_key with
      | Some fc_state =>
        if negb (FairCycleState.exhausted fc_state) then
          quota_limit ← _get_quota_limit wm state model quota_group;
          match quota_limit with
          | Some quota_limit =>
            let threshold :=
              py_int (inject_Z quota_limit * FairCycleConfig.quota_threshold fc) in
            if threshold <=? FairCycleState.cycle_request_count fc_state then
              now ← time_time;
              mret (CredentialState.set_fair_cycle state
                      (<[group_key :=
                           FairCycleState.mk true (Some now)
                             (Some "quota_threshold")
                             (FairCycleState.cycle_request_count fc_state)
                             (FairCycleState.model_or_group fc_state)]>
                         (CredentialState.fair_cycle state)))
            else mret state
          | None => mret state
          end
        else mret state
      | None => mret state
      end;
    match CredentialState.fair_cycle state1 !! group_key with
    | None => mret (LimitCheckResult.ok, state1, global)
    | Some fc_state =>
      if negb (FairCycleState.exhausted fc_state) then
        mret (LimitCheckResult.ok, state1, global)
      else
        '(global_state, global1) ←
          _get_global_state global (CredentialState.provider state1) group_key;
        expired ← _should_reset_cycle fc global_state;
        if expired : bool then mret (LimitCheckResult.ok, state1, global1)
        else
          mret (LimitCheckResult.blocked LimitResult.BLOCKED_FAIR_CYCLE
                  (ReasonFairCycle group_key) None,
                state1, global1)
    end.

(** ** limits/engine.py *)

(** [checker.check(state, model, quota_group)] for the checkers the engine
    builds; only the fair-cycle checker changes a state. *)
Definition Checker_check (le : LimitEngine.t) (checker : Checker)
    (state : CredentialState.t) (model : string) (quota_group : option string)
    (global : gmap string (gmap string GlobalFairCycleState.t))
  : M (LimitCheckResult.t * CredentialState.t
       * gmap string (gmap string GlobalFairCycleState.t)) :=
  let wm := LimitEngine._window_manager le in
  let config := LimitEngine._config le in
  match checker with
  | ConcurrentLimitChecker =>
      mret (ConcurrentLimitChecker_check state, state, global)
  | CooldownChecker =>
      r ← CooldownChecker_check state model quota_group;
      mret (r, state, global)
  | WindowLimitChecker =>
      r ← WindowLimitChecker_check wm state model quota_group;
      mret (r, state, global)
  | CustomCapChecker =>
      r ← CustomCapChecker_check (ProviderUsageConfig.custom_caps config)
            wm state model quota_group;
      mret (r, state, global)
  | FairCycleChecker =>
      FairCycleChecker_check (ProviderUsageConfig.fair_cycle config)
        wm state model quota_group global
  end.

Fixpoint check_all_loop (le : LimitEngine.t) (checkers : list Checker)
    (state : CredentialState.t) (model : string) (quota_group : option string)
    (global : gmap string (gmap string GlobalFairCycleState.t))
  : M (LimitCheckResult.t * CredentialState.t
       * gmap string (gmap string GlobalFairCycleState.t)) :=
  match checkers with
  | [] => mret (LimitCheckResult.ok, state, global)
  | checker :: rest =>
      '(result, state1, global1) ←
        Checker_check le checker state model quota_group global;
      if LimitCheckResult.allowed result then
        check_all_loop le rest state1 model quota_group global1
      else mret (result, state1, global1)
  end.

Definition check_all (le : LimitEngine.t) (state : CredentialState.t)
    (model : string) (quota_group : option string)
    (global : gmap string (gmap string GlobalFairCycleState.t))
  : M (LimitCheckResult.t * CredentialState.t
       * gmap string (gmap string GlobalFairCycleState.t)) :=
  check_all_loop le (LimitEngine._checkers le) state model quota_group global.

(** ** selection/strategies/balanced.py *)

Definition _group_by_priority (candidates : list string)
    (priorities : gmap string Z) : list (Z * list string) :=
  group_by_priority (fun stable_id => default 999 (priorities !! stable_id))
                    candidates.

Definition _calculate_weights (tolerance : Q) (candidates : list string)
    (usage_counts : gmap string Z) : list Q :=
  match candidates with
  | [] => []
  | _ =>
    let usages :=
      map (fun stable_id => default 0 (usage_counts !! stable_id)) candidates in
    let max_usage := foldr Z.max (hd 0 usages) usages in
    map (fun usage =>
           Qmax (inject_Z (max_usage - usage) + tolerance + 1) (1 # 10))
        usages
  end.

(** The loop of [_weighted_random_choice] over [zip(candidates, weights)]. *)
Fixpoint weighted_loop (r cumulative : Q) (pairs : list (string * Q))
  : option string :=
  match pairs with
  | [] => None
  | (candidate, weight) :: rest =>
      let cumulative := (cumulative + weight)%Q in
      if Qle_bool r cumulative then Some candidate
      else weighted_loop r cumulative rest
  end.

Definition _weighted_random_choice (candidates : list string)
    (weights : list Q) : M (option string) :=
  match candidates with
  | [] => mret None
  | [c] => mret (Some c)
  | _ =>
    let total := foldl Qplus 0%Q weights in
    if Qle_bool total 0 then random_choice candidates
    else
      r ← random_uniform 0 total;
      match weighted_loop r 0 (zip candidates weights) with
      | Some c => mret (Some c)
      | None => mret (last candidates)
      end
  end.

(** The loop of [BalancedStrategy.select] over the tiers, lowest priority
    number first; [None] when no tier yields a truthy selection. *)
Fixpoint balanced_tier_loop (tolerance : Q) (usage_counts : gmap string Z)
    (tiers : list (Z * list string)) : M (option string) :=
  match tiers with
  | [] => mret None
  | (_, candidates) :: rest =>
    match candidates with
    | [] => balanced_tier_loop tolerance usage_counts rest
    | _ =>
      let weights := _calculate_weights tolerance candidates usage_counts in
      selected ← _weighted_random_choice candidates weights;
      if py_opt_str_truthy selected then mret selected
      else balanced_tier_loop tolerance usage_counts rest
    end
  end.

Definition BalancedStrategy_select (tolerance : Q)
    (context : SelectionContext.t) : M (option string) :=
  match SelectionContext.candidates context with
  | [] => mret None
  | [c] => mret (Some c)
  | c :: _ =>
    let priority_groups :=
      _group_by_priority (SelectionContext.candidates context)
                         (SelectionContext.priorities context) in
    selected ←
      balanced_tier_loop tolerance (SelectionContext.usage_counts context)
        (py_sorted Z.ltb fst priority_groups);
    match selected with
    | Some s => mret (Some s)
    | None => mret (Some c)
    end
  end.

(** ** selection/strategies/sequential.py *)

(** Tuples [(priority, usage, last_used)] in Python's lexicographic order. *)
Definition sort_key_lt (a b : Z * Z * Q) : bool :=
  let '(p1, u1, l1) := a in
  let '(p2, u2, l2) := b in
  (p1 <? p2)
  || ((p1 =? p2) && ((u1 <? u2) || ((u1 =? u2) && Qlt_bool l1 l2))).

(** [state.totals.last_used_at or 0]. *)
Definition last_used_or_zero (state : CredentialState.t) : Q :=
  default 0%Q (TotalStats.last_used_at (CredentialState.totals state)).

Definition sort_key (priorities usage_counts : gmap string Z)
    (states : list (string * CredentialState.t)) (c : string) : Z * Z * Q :=
  (default 999 (priorities !! c),
   - default 0 (usage_counts !! c),
   match odict_get states c with
   | Some state => (- last_used_or_zero state)%Q
   | None => 0%Q
   end).

Definition _select_by_priority (candidates : list string)
    (priorities usage_counts : gmap string Z)
    (states : list (string * CredentialState.t)) : option string :=
  head (py_sorted sort_key_lt (sort_key priorities usage_counts states)
                  candidates).

(** Returns the selection and the sticky map [_current]. *)
Definition SequentialStrategy_select (context : SelectionContext.t)
    (states : list (string * CredentialState.t))
    (_current : gmap (string * string) string)
  : option string * gmap (string * string) string :=
  match SelectionContext.candidates context with
  | [] => (None, _current)
  | [c] => (Some c, _current)
  | _ =>
    let key := (SelectionContext.provider context,
                py_or_str (SelectionContext.quota_group context)
                          (SelectionContext.model context)) in
    let sticky :=
      match _current !! key with
      | Some current =>
          if py_str_truthy current
             && bool_decide (current ∈ SelectionContext.candidates context)
          then Some current else None
      | None => None
      end in
    match sticky with
    | Some current => (Some current, _current)
    | None =>
      let selected :=
        _select_by_priority (SelectionContext.candidates context)
          (SelectionContext.priorities context)
          (SelectionContext.usage_counts context) states in
      match selected with
      | Some s =>
          if py_str_truthy s then (Some s, <[key := s]> _current)
          else (Some s, _current)
      | None => (None, _current)
      end
    end
  end.

(** ** limits/fair_cycle.py, the operations on a pool of credentials *)

Definition _all_exhausted_in_group (states : list CredentialState.t)
    (group_key : string) : bool :=
  forallb (fun state => CredentialState.is_fair_cycle_exhausted state group_key)
          states.

Definition check_all_exhausted (fc : FairCycleConfig.t) (group_key : string)
    (all_states : list CredentialState.t) (priorities : option (gmap string Z))
  : bool :=
  match priorities with
  | Some priorities =>
    if negb (bool_decide (size priorities = 0%nat))
       && negb (FairCycleConfig.cross_tier fc) then
      forallb (fun group => _all_exhausted_in_group (snd group) group_key)
        (group_by_priority
           (fun state =>
              default 999 (priorities !! CredentialState.stable_id state))
           all_states)
    else _all_exhausted_in_group all_states group_key
  | None => _all_exhausted_in_group all_states group_key
  end.

(** The first loop of [reset_cycle]; [all_states] are the objects stored
    in [states] under the ids [ids]. *)
Fixpoint reset_cycle_states (group_key : string) (ids : list string)
    (states : list (string * CredentialState.t))
  : list (string * CredentialState.t) :=
  match ids with
  | [] => states
  | stable_id :: rest =>
    let states1 :=
      match odict_get states stable_id with
      | Some state =>
        match CredentialState.fair_cycle state !! group_key with
        | Some fc_state =>
            odict_set states stable_id
              (CredentialState.set_fair_cycle state
                 (<[group_key := FairCycleState.cleared fc_state]>
                    (CredentialState.fair_cycle state)))
        | None => states
        end
      | None => states
      end in
    reset_cycle_states group_key rest states1
  end.

Definition reset_cycle (provider group_key : string) (ids : list string)
    (w : World) : M World :=
  now ← time_time;
  let states := reset_cycle_states group_key ids (w_states w) in
  '(global_state, global1) ← _get_global_state (w_global w) provider group_key;
  let global_state :=
    GlobalFairCycleState.mk now None
      (GlobalFairCycleState.cycle_count global_state + 1) in
  mret (mkWorld states
          (<[provider := <[group_key := global_state]>
                           (default ∅ (global1 !! provider))]> global1)
          (w_current w)).

(** ** selection/engine.py *)

Definition _get_usage_count (se : SelectionEngine.t)
    (state : CredentialState.t) (model : string) (quota_group : option string)
  : M Z :=
  let total := TotalStats.request_count (CredentialState.totals state) in
  match get_primary_definition (SelectionEngine._windows se) with
  | None => mret total
  | Some primary_def =>
    match windows_for_definition state primary_def model
            (py_or_str quota_group model) with
    | None => mret total
    | Some windows =>
      if bool_decide (size windows = 0%nat) then mret total
      else
        window ← get_active_window (SelectionEngine._windows se) windows
                   (WindowDefinition.name primary_def);
        match window with
        | Some window => mret (WindowStats.request_count window)
        | None => mret total
        end
    end
  end.

(** One cooldown lookup of the loop of [_get_shortest_cooldown];
    [shortest] is [(shortest_remaining, shortest_cred_id)], with [None]
    for [float("inf")]. *)
Definition shortest_step (now : Q) (state : CredentialState.t) (key : string)
    (shortest : option Q * option string) : option Q * option string :=
  match CredentialState.cooldowns state !! key with
  | Some cooldown =>
    if Qlt_bool now (CooldownInfo.until cooldown) then
      let remaining := (CooldownInfo.until cooldown - now)%Q in
      match fst shortest with
      | Some s =>
          if Qlt_bool remaining s
          then (Some remaining, Some (CredentialState.stable_id state))
          else shortest
      | None => (Some remaining, Some (CredentialState.stable_id state))
      end
    else shortest
  | None => shortest
  end.

Definition _get_shortest_cooldown (se : SelectionEngine.t)
    (states : list CredentialState.t) (group_key : string)
  : M (bool * option string * option Q) :=
  now ← time_time;
  let threshold :=
    inject_Z (FairCycleConfig.reset_cooldown_threshold
                (ProviderUsageConfig.fair_cycle (SelectionEngine._config se))) in
  let '(shortest_remaining, shortest_cred_id) :=
    fold_left
      (fun shortest state =>
         shortest_step now state "_global_"
           (shortest_step now state group_key shortest))
      states (None, None) in
  match shortest_remaining with
  | Some s =>
      if Qlt_bool s threshold then mret (true, shortest_cred_id, Some s)
      else mret (false, None, Some s)
  | None => mret (false, None, None)
  end.

(** [[states[sid] for sid in ids]]. *)
Definition states_of (w : World) (ids : list string) : list CredentialState.t :=
  omap (odict_get (w_states w)) ids.

(** Step 2 of [select]: [check_all] on every candidate, in order; a check
    may mutate the credential and the fair-cycle global state. *)
Fixpoint filter_available (se : SelectionEngine.t) (model : string)
    (quota_group : option string) (candidates : list string) (w : World)
  : M (list string * World) :=
  match candidates with
  | [] => mret ([], w)
  | stable_id :: rest =>
    match odict_get (w_states w) stable_id with
    | None => filter_available se model quota_group rest w
    | Some state =>
      '(result, state1, global1) ←
        check_all (SelectionEngine._limits se) state model quota_group
                  (w_global w);
      let w1 := mkWorld (odict_set (w_states w) stable_id state1) global1
                        (w_current w) in
      '(available, w2) ← filter_available se model quota_group rest w1;
      mret (if LimitCheckResult.allowed result then stable_id :: available
            else available, w2)
    end
  end.

(** The first loop of [_try_fair_cycle_reset]. The result is [None] when
    the loop returns [False] early, and else the final values of
    [all_fair_cycle_blocked] and [fair_cycle_blocked_count]. *)
Fixpoint fair_cycle_blocked_loop (se : SelectionEngine.t) (model : string)
    (quota_group : option string) (candidates : list string)
    (all_fair_cycle_blocked : bool) (fair_cycle_blocked_count : Z) (w : World)
  : M (option (bool * Z) * World) :=
  match candidates with
  | [] => mret (Some (all_fair_cycle_blocked, fair_cycle_blocked_count), w)
  | stable_id :: rest =>
    match odict_get (w_states w) stable_id with
    | None =>
        fair_cycle_blocked_loop se model quota_group rest
          all_fair_cycle_blocked fair_cycle_blocked_count w
    | Some state =>
      '(result, state1, global1) ←
        check_all (SelectionEngine._limits se) state model quota_group
                  (w_global w);
      let w1 := mkWorld (odict_set (w_states w) stable_id state1) global1
                        (w_current w) in
      if LimitCheckResult.allowed result then mret (None, w1)
      else if LimitResult.eqb (LimitCheckResult.result result)
                              LimitResult.BLOCKED_FAIR_CYCLE then
        fair_cycle_blocked_loop se model quota_group rest
          all_fair_cycle_blocked (fair_cycle_blocked_count + 1) w1
      else
        fair_cycle_blocked_loop se model quota_group rest
          false fair_cycle_blocked_count w1
    end
  end.

(** The per-tier loop of [_try_fair_cycle_reset]; a tier is the list of
    the ids of its credentials. *)
Fixpoint tier_reset_loop (se : SelectionEngine.t)
    (provider tracking_key group_key : string)
    (tier_groups : list (Z * list string)) (reset_any : bool) (w : World)
  : M (bool * World) :=
  match tier_groups with
  | [] => mret (reset_any, w)
  | (_, tier_ids) :: rest =>
    let tier_states := states_of w tier_ids in
    let all_tier_exhausted :=
      forallb (fun state =>
                 CredentialState.is_fair_cycle_exhausted state tracking_key)
              tier_states in
    if all_tier_exhausted then
      '(has_short, _, _) ← _get_shortest_cooldown se tier_states group_key;
      if has_short : bool then
        tier_reset_loop se provider tracking_key group_key rest reset_any w
      else
        w1 ← reset_cycle provider tracking_key tier_ids w;
        tier_reset_loop se provider tracking_key group_key rest true w1
    else tier_reset_loop se provider tracking_key group_key rest reset_any w
  end.

Definition _try_fair_cycle_reset (se : SelectionEngine.t)
    (provider model : string) (quota_group : option string)
    (candidates : list string) (priorities : option (gmap string Z))
    (w : World) : M (bool * World) :=
  let fc := ProviderUsageConfig.fair_cycle (SelectionEngine._config se) in
  let group_key := py_or_str quota_group model in
  let tracking_key := get_tracking_key fc model quota_group in
  '(counted, w1) ←
    fair_cycle_blocked_loop se model quota_group candidates true 0 w;
  match counted with
  | None => mret (false, w1)
  | Some (_, fair_cycle_blocked_count) =>
    if fair_cycle_blocked_count =? 0 then mret (false, w1)
    else
      let candidate_states := states_of w1 candidates in
      let own_priorities : gmap string Z :=
        list_to_map
          (omap (fun sid =>
                   (fun state => (sid, CredentialState.priority state))
                     <$> odict_get (w_states w1) sid)
                (reverse candidates)) in
      let priority_map :=
        match priorities with
        | Some p => if bool_decide (size p = 0%nat) then own_priorities else p
        | None => own_priorities
        end in
      if FairCycleConfig.cross_tier fc then
        if check_all_exhausted fc tracking_key candidate_states
                               (Some priority_map) then
          '(has_short, _, _) ←
            _get_shortest_cooldown se candidate_states group_key;
          if has_short : bool then mret (false, w1)
          else
            w2 ← reset_cycle provider tracking_key candidates w1;
            mret (true, w2)
        else mret (false, w1)
      else
        let tier_groups :=
          group_by_priority
            (fun sid =>
               default 0 (CredentialState.priority
                            <$> odict_get (w_states w1) sid))
            (filter (fun sid => is_Some (odict_get (w_states w1) sid))
                    candidates) in
        tier_reset_loop se provider tracking_key group_key tier_groups false w1
  end.

(** The loop that fills [usage_counts] in step 3 of [select]. *)
Fixpoint usage_counts_loop (se : SelectionEngine.t) (model : string)
    (quota_group : option string) (available : list string) (w : World)
    (usage_counts : gmap string Z) : M (gmap string Z) :=
  match available with
  | [] => mret usage_counts
  | stable_id :: rest =>
    match odict_get (w_states w) stable_id with
    | None => usage_counts_loop se model quota_group rest w usage_counts
    | Some state =>
        n ← _get_usage_count se state model quota_group;
        usage_counts_loop se model quota_group rest w
          (<[stable_id := n]> usage_counts)
    end
  end.

(** [SelectionEngine.select]. [fuel] bounds the depth of the recursive
    retries after a reset, as Python's recursion limit does. [exclude] is
    [None] or a set; [deadline] defaults to [0.0]. *)
Fixpoint select (fuel : nat) (se : SelectionEngine.t) (provider model : string)
    (quota_group : option string) (exclude : option (gset string))
    (priorities : option (gmap string Z)) (deadline : Q) (w : World)
  : M (SelectResult * World) :=
  match fuel with
  | O => mret (RecursionError, w)
  | S fuel' =>
    let config := SelectionEngine._config se in
    let excluded := default ∅ exclude in
    (* Step 1: all candidates (not excluded) *)
    let candidates :=
      filter (fun sid => sid ∉ excluded) (odict_keys (w_states w)) in
    match candidates with
    | [] => mret (Returned None, w)
    | _ =>
      (* Step 2: filter by limits *)
      '(available, w1) ← filter_available se model quota_group candidates w;
      match available with
      | [] =>
        if FairCycleConfig.is_enabled (ProviderUsageConfig.fair_cycle config)
        then
          '(reset_performed, w2) ←
            _try_fair_cycle_reset se provider model quota_group candidates
                                  priorities w1;
          if reset_performed : bool then
            select fuel' se provider model quota_group exclude priorities
                   deadline w2
          else mret (Returned None, w2)
        else mret (Returned None, w1)
      | _ =>
        (* Step 3: selection context *)
        usage_counts ← usage_counts_loop se model quota_group available w1 ∅;
        let priorities : gmap string Z :=
          match priorities with
          | Some p => p
          | None =>
              list_to_map
                (omap (fun sid =>
                         (fun state => (sid, CredentialState.priority state))
                           <$> odict_get (w_states w1) sid)
                      (reverse available))
          end in
        deadline ←
          (if Qeq_bool deadline 0 then t ← time_time; mret (t + 120)%Q
           else mret deadline);
        let context :=
          SelectionContext.mk provider model quota_group available priorities
            usage_counts (ProviderUsageConfig.rotation_mode config)
            (ProviderUsageConfig.rotation_tolerance config) deadline in
        (* Step 4: rotation strategy *)
        match ProviderUsageConfig.rotation_mode config with
        | RotationMode.SEQUENTIAL =>
            let '(selected, current) :=
              SequentialStrategy_select context (w_states w1) (w_current w1) in
            mret (Returned selected,
                  mkWorld (w_states w1) (w_global w1) current)
        | RotationMode.BALANCED =>
            selected ←
              BalancedStrategy_select
                (ProviderUsageConfig.rotation_tolerance config) context;
            mret (Returned selected, w1)
        end
      end
    end
  end.

(** [select_with_retry] passes [tried] as [exclude]. *)
Definition select_with_retry := select.

(** ** types.py: [CredentialState.get_cooldown] *)

(** The cooldown stored under [key], if it is still running at [now]:
    [cooldown = cooldowns.get(key)] followed by
    [if cooldown and cooldown.until > now]. *)
Definition active_cooldown_at (state : CredentialState.t) (now : Q)
    (key : string) : option CooldownInfo.t :=
  match CredentialState.cooldowns state !! key with
  | Some cooldown =>
      if Qlt_bool now (CooldownInfo.until cooldown) then Some cooldown else None
  | None => None
  end.

Definition get_cooldown (state : CredentialState.t)
    (model_or_group : option string) : M (option CooldownInfo.t) :=
  now ← time_time;
  match (if py_opt_str_truthy model_or_group
         then active_cooldown_at state now (py_or_str model_or_group "")
         else None) with
  | Some cooldown => mret (Some cooldown)
  | None => mret (active_cooldown_at state now "_global_")
  end.

(** ** limits/cooldowns.py: [reset] and [get_cooldown_end] *)

(** [if key in state.cooldowns: del state.cooldowns[key]]. *)
Definition del_cooldown (state : CredentialState.t) (key : string)
  : CredentialState.t :=
  match CredentialState.cooldowns state !! key with
  | Some _ =>
      CredentialState.set_cooldowns state
        (delete key (CredentialState.cooldowns state))
  | None => state
  end.

Definition CooldownChecker_reset (state : CredentialState.t)
    (model quota_group : option string) : CredentialState.t :=
  if py_opt_str_truthy quota_group then
    del_cooldown state (py_or_str quota_group "")
  else if py_opt_str_truthy model then
    del_cooldown state (py_or_str model "")
  else CredentialState.set_cooldowns state ∅.

Definition get_cooldown_end (state : CredentialState.t)
    (model_or_group : option string) : M (option Q) :=
  now ← time_time;
  match (if py_opt_str_truthy model_or_group
         then active_cooldown_at state now (py_or_str model_or_group "")
         else None) with
  | Some cooldown => mret (Some (CooldownInfo.until cooldown))
  | None =>
      mret (CooldownInfo.until <$> active_cooldown_at state now "_global_")
  end.

(** ** limits/fair_cycle.py: [reset], [mark_all_exhausted] and the
    serialisation of the global state *)

Definition FairCycleChecker_reset (fc : FairCycleConfig.t)
    (state : CredentialState.t) (model quota_group : option string)
  : CredentialState.t :=
  let group_key := _resolve_tracking_key fc (py_or_str model "") quota_group in
  if py_opt_str_truthy quota_group || py_opt_str_truthy model then
    match CredentialState.fair_cycle state !! group_key with
    | Some fc_state =>
        CredentialState.set_fair_cycle state
          (<[group_key := FairCycleState.cleared fc_state]>
             (CredentialState.fair_cycle state))
    | None => state
    end
  else
    CredentialState.set_fair_cycle state
      (FairCycleState.cleared <$> CredentialState.fair_cycle state).

Definition mark_all_exhausted
    (global : gmap string (gmap string GlobalFairCycleState.t))
    (provider group_key : string)
  : M (gmap string (gmap string GlobalFairCycleState.t)) :=
  '(global_state, global1) ← _get_global_state global provider group_key;
  t ← time_time;
  mret (<[provider :=
            <[group_key :=
                GlobalFairCycleState.mk
                  (GlobalFairCycleState.cycle_start global_state) (Some t)
                  (GlobalFairCycleState.cycle_count global_state)]>
              (default ∅ (global1 !! provider))]> global1).

Definition get_global_state_dict
    (global : gmap string (gmap string GlobalFairCycleState.t))
  : gmap string (gmap string StateData.t) :=
  (fun groups : gmap string GlobalFairCycleState.t =>
     (fun state =>
        StateData.mk
          (Some (GlobalFairCycleState.cycle_start state))
          (Some (GlobalFairCycleState.all_exhausted_at state))
          (Some (GlobalFairCycleState.cycle_count state))) <$> groups)
  <$> global.

(** [self._global_state.clear()], then one entry per entry of [data];
    [global] is the state before the call. *)
Definition load_global_state_dict
    (global : gmap string (gmap string GlobalFairCycleState.t))
    (data : gmap string (gmap string StateData.t))
  : gmap string (gmap string GlobalFairCycleState.t) :=
  (fun groups : gmap string StateData.t =>
     (fun state_data =>
        GlobalFairCycleState.mk
          (default 0%Q (StateData.cycle_start state_data))
          (default None (StateData.all_exhausted_at state_data))
          (default 0 (StateData.cycle_count state_data))) <$> groups)
  <$> data.

(** ** limits/engine.py: the other entry points *)

Fixpoint check_specific_loop (le : LimitEngine.t) (checkers : list Checker)
    (checker_name : string) (state : CredentialState.t) (model : string)
    (quota_group : option string)
    (global : gmap string (gmap string GlobalFairCycleState.t))
  : M (LimitCheckResult.t * CredentialState.t
       * gmap string (gmap string GlobalFairCycleState.t)) :=
  match checkers with
  | [] => mret (LimitCheckResult.ok, state, global)
  | checker :: rest =>
      if String.eqb (Checker_name checker) checker_name then
        Checker_check le checker state model quota_group global
      else
        check_specific_loop le rest checker_name state model quota_group global
  end.

Definition check_specific (le : LimitEngine.t) (checker_name : string)
    (state : CredentialState.t) (model : string) (quota_group : option string)
    (global : gmap string (gmap string GlobalFairCycleState.t))
  : M (LimitCheckResult.t * CredentialState.t
       * gmap string (gmap string GlobalFairCycleState.t)) :=
  check_specific_loop le (LimitEngine._checkers le) checker_name state model
    quota_group global.

(** The loop of [get_blocking_info]: every checker is run, and
    [results[checker.name]] is assigned in turn. *)
Fixpoint get_blocking_info_loop (le : LimitEngine.t) (checkers : list Checker)
    (state : CredentialState.t) (model : string) (quota_group : option string)
    (global : gmap string (gmap string GlobalFairCycleState.t))
    (results : list (string * LimitCheckResult.t))
  : M (list (string * LimitCheckResult.t) * CredentialState.t
       * gmap string (gmap string GlobalFairCycleState.t)) :=
  match checkers with
  | [] => mret (results, state, global)
  | checker :: rest =>
      '(result, state1, global1) ←
        Checker_check le checker state model quota_group global;
      get_blocking_info_loop le rest state1 model quota_group global1
        (odict_set results (Checker_name checker) result)
  end.

Definition get_blocking_info (le : LimitEngine.t) (state : CredentialState.t)
    (model : string) (quota_group : option string)
    (global : gmap string (gmap string GlobalFairCycleState.t))
  : M (list (string * LimitCheckResult.t) * CredentialState.t
       * gmap string (gmap string GlobalFairCycleState.t)) :=
  get_blocking_info_loop le (LimitEngine._checkers le) state model quota_group
    global [].

(** [checker.reset(state, model, quota_group)]: the cooldown and the
    fair-cycle checker override the default, which does nothing. *)
Definition Checker_reset (le : LimitEngine.t) (checker : Checker)
    (state : CredentialState.t) (model quota_group : option string)
  : CredentialState.t :=
  match checker with
  | CooldownChecker => CooldownChecker_reset state model quota_group
  | FairCycleChecker =>
      FairCycleChecker_reset
        (ProviderUsageConfig.fair_cycle (LimitEngine._config le))
        state model quota_group
  | ConcurrentLimitChecker | WindowLimitChecker | CustomCapChecker => state
  end.

Definition reset_all (le : LimitEngine.t) (state : CredentialState.t)
    (model quota_group : option string) : CredentialState.t :=
  fold_left (fun state checker => Checker_reset le checker state model quota_group)
            (LimitEngine._checkers le) state.

Definition add_checker (le : LimitEngine.t) (checker : Checker)
  : LimitEngine.t :=
  LimitEngine.mk (LimitEngine._config le) (LimitEngine._window_manager le)
                 (LimitEngine._checkers le ++ [checker]).

(** The loop of [remove_checker]: the list without the first checker of
    that name, or [None] when there is none. *)
Fixpoint remove_first (name : string) (checkers : list Checker)
  : option (list Checker) :=
  match checkers with
  | [] => None
  | checker :: rest =>
      if String.eqb (Checker_name checker) name then Some rest
      else cons checker <$> remove_first name rest
  end.

Definition remove_checker (le : LimitEngine.t) (name : string)
  : bool * LimitEngine.t :=
  match remove_first name (LimitEngine._checkers le) with
  | Some checkers =>
      (true, LimitEngine.mk (LimitEngine._config le)
                            (LimitEngine._window_manager le) checkers)
  | None => (false, le)
  end.

(** ** tracking/engine.py: [record_success], [record_failure], [acquire]
    and the usage reads *)

Definition record_success (te : TrackingEngine.t) (state : CredentialState.t)
    (model : string) (quota_group : option string)
    (prompt_tokens completion_tokens prompt_tokens_cache_read
     prompt_tokens_cache_write thinking_tokens : Z) (approx_cost : Q)
    (request_count : Z) (response_headers : option Headers.t)
  : M CredentialState.t :=
  let update :=
    UsageUpdate.mk request_count true prompt_tokens completion_tokens
      thinking_tokens prompt_tokens_cache_read prompt_tokens_cache_write
      approx_cost in
  record_usage te state model update quota_group response_headers.

Definition record_failure (te : TrackingEngine.t) (state : CredentialState.t)
    (model error_type : string) (quota_group : option string)
    (cooldown_duration quota_reset_timestamp : option Q)
    (mark_exhausted : bool) (request_count : Z)
    (prompt_tokens completion_tokens thinking_tokens prompt_tokens_cache_read
     prompt_tokens_cache_write : Z) (approx_cost : Q)
  : M CredentialState.t :=
  let update :=
    UsageUpdate.mk request_count false prompt_tokens completion_tokens
      thinking_tokens prompt_tokens_cache_read prompt_tokens_cache_write
      approx_cost in
  state ← record_usage te state model update quota_group None;
  let group_key := py_or_str quota_group model in
  let fair_cycle_key := _resolve_fair_cycle_key te group_key in
  state ←
    match cooldown_duration with
    | Some duration =>
        if Qlt_bool 0 duration then
          _apply_cooldown te state error_type (Some duration) None
                          (Some group_key) "error"
        else mret state
    | None => mret state
    end;
  state ←
    match quota_reset_timestamp with
    | Some until =>
        _apply_cooldown te state error_type None (Some until)
                        (Some group_key) "api_quota"
    | None => mret state
    end;
  if mark_exhausted then _mark_exhausted state fair_cycle_key error_type
  else mret state.

Definition acquire (state : CredentialState.t) (model : string)
  : bool * CredentialState.t :=
  let acquired :=
    (true, set_active_requests state (CredentialState.active_requests state + 1)) in
  match CredentialState.max_concurrent state with
  | Some max_concurrent =>
      if max_concurrent <=? CredentialState.active_requests state
      then (false, state) else acquired
  | None => acquired
  end.

(** The request count of the active window [window_name] of [windows],
    [None] when there is none: the two inner blocks of
    [get_window_usage]. *)
Definition active_request_count (te : TrackingEngine.t)
    (windows : option (gmap string WindowStats.t)) (window_name : string)
  : M (option Z) :=
  match windows with
  | Some windows =>
      window ← get_active_window (TrackingEngine._windows te) windows window_name;
      mret (WindowStats.request_count <$> window)
  | None => mret None
  end.

Definition get_window_usage (te : TrackingEngine.t) (state : CredentialState.t)
    (window_name : string) (model group : option string) : M Z :=
  in_group ←
    (if py_opt_str_truthy group then
       active_request_count te
         (GroupStats.windows
            <$> CredentialState.group_usage state !! py_or_str group "")
         window_name
     else mret None);
  match in_group with
  | Some n => mret n
  | None =>
    in_model ←
      (if py_opt_str_truthy model then
         active_request_count te
           (ModelStats.windows
              <$> CredentialState.model_usage state !! py_or_str model "")
           window_name
       else mret None);
    match in_model with
    | Some n => mret n
    | None => mret 0
    end
  end.

Definition get_primary_window_usage (te : TrackingEngine.t)
    (state : CredentialState.t) (model group : option string) : M Z :=
  match get_primary_definition (TrackingEngine._windows te) with
  | None => mret 0
  | Some primary_def =>
      get_window_usage te state (WindowDefinition.name primary_def) model group
  end.

(** ** tracking/windows.py and limits/window_limits.py: the remaining
    requests of a window *)

Definition get_window_remaining (wm : WindowManager.t)
    (windows : gmap string WindowStats.t) (window_name : string)
  : M (option Z) :=
  window ← get_active_window wm windows window_name;
  match window with
  | None => mret None
  | Some window => mret (WindowStats.remaining window)
  end.

Definition update_limit (windows : gmap string WindowStats.t)
    (window_name : string) (new_limit : Z) : gmap string WindowStats.t :=
  match windows !! window_name with
  | Some window =>
      <[window_name := WindowStats.set_limit window (Some new_limit)]> windows
  | None => windows
  end.

Definition update_reset_time (windows : gmap string WindowStats.t)
    (window_name : string) (reset_timestamp : Q) : gmap string WindowStats.t :=
  match windows !! window_name with
  | Some window =>
      <[window_name := WindowStats.set_reset_at window (Some reset_timestamp)]>
        windows
  | None => windows
  end.

Definition get_remaining (wm : WindowManager.t) (state : CredentialState.t)
    (window_name : string) (model quota_group : option string)
  : M (option Z) :=
  let group_key := py_or_str quota_group (py_or_str model "") in
  let windows :=
    match odict_get (WindowManager.definitions wm) window_name with
    | Some definition =>
        if String.eqb (WindowDefinition.applies_to definition) "model"
           && py_opt_str_truthy model then
          ModelStats.windows
            <$> CredentialState.get_model_stats state (py_or_str model "")
        else if String.eqb (WindowDefinition.applies_to definition) "group" then
          GroupStats.windows <$> CredentialState.get_group_stats state group_key
        else None
    | None => None
    end in
  match windows with
  | None => mret None
  | Some windows => get_window_remaining wm windows window_name
  end.

(** ** limits/custom_caps.py: the lookups *)

Definition get_all_caps_for (caps : list CustomCapConfig.t)
    (state : CredentialState.t) (model : string) (quota_group : option string)
  : list (CustomCapConfig.t * string * string) :=
  _find_all_caps caps (pretty (CredentialState.priority state)) model quota_group.

Definition get_cap_for (caps : list CustomCapConfig.t)
    (state : CredentialState.t) (model : string) (quota_group : option string)
  : option CustomCapConfig.t :=
  match get_all_caps_for caps state model quota_group with
  | (cap, _, _) :: _ => Some cap
  | [] => None
  end.

(** ** selection/strategies/sequential.py: the sticky map *)

Definition SequentialStrategy_mark_exhausted
    (_current : gmap (string * string) string) (provider model_or_group : string)
  : gmap (string * string) string :=
  match _current !! (provider, model_or_group) with
  | Some _ => delete (provider, model_or_group) _current
  | None => _current
  end.

Definition get_current (_current : gmap (string * string) string)
    (provider model_or_group : string) : option string :=
  _current !! (provider, model_or_group).

Definition clear_sticky (_current : gmap (string * string) string)
    (provider : option string) : gmap (string * string) string :=
  if py_opt_str_truthy provider then
    filter (fun entry => fst (fst entry) <> py_or_str provider "") _current
  else ∅.

(** ** The specification's wording, for comparison with the code *)

(** The effective maximum as the specification words it: the literal
    number, the window limit plus the offset (its absolute value when the
    limit is unknown), or the percentage of the limit (1000 when unknown). *)
Definition spec_effective_max (cap : CustomCapConfig.t)
    (window_limit : option Z) : Z :=
  match CustomCapConfig.max_requests_mode cap, window_limit with
  | CapMode.ABSOLUTE, _ => CustomCapConfig.max_requests cap
  | CapMode.OFFSET, Some l => l + CustomCapConfig.max_requests cap
  | CapMode.OFFSET, None => Z.abs (CustomCapConfig.max_requests cap)
  | CapMode.PERCENTAGE, Some l =>
      py_int (inject_Z (l * CustomCapConfig.max_requests cap) / inject_Z 100)
  | CapMode.PERCENTAGE, None => 1000
  end.

(** A cycle of a window: the uses [(update, now)] recorded on it, in
    order, each by [_apply_to_window] as [record_usage] calls it. *)
Definition usage_output_tokens (update : UsageUpdate.t) : Z :=
  UsageUpdate.completion_tokens update + UsageUpdate.thinking_tokens update.
Definition usage_total_tokens (update : UsageUpdate.t) : Z :=
  UsageUpdate.prompt_tokens update + UsageUpdate.completion_tokens update
  + UsageUpdate.thinking_tokens update
  + UsageUpdate.prompt_tokens_cache_read update
  + UsageUpdate.prompt_tokens_cache_write update.

Definition use_window (te : TrackingEngine.t) (window_def : WindowDefinition.t)
    (window : WindowStats.t) (uses : list (UsageUpdate.t * Q))
  : WindowStats.t :=
  fold_left
    (fun w use =>
       _apply_to_window te w (fst use) (snd use)
         (usage_total_tokens (fst use)) (usage_output_tokens (fst use))
         (Some window_def))
    uses window.

Definition requests_of (uses : list (UsageUpdate.t * Q)) : Z :=
  fold_right (fun use n => UsageUpdate.request_count (fst use) + n) 0 uses.

(** ** The vocabulary of the fair-cycle properties *)

(** A computation whose result does not depend on the oracle it starts
    from. *)
Definition oracle_free {A} (m : M A) : Prop :=
  forall o o', fst (m o) = fst (m o').

(** The checkers that [LimitEngine.__init__] lists before the fair-cycle
    checker, and the check of one of them: none changes a state or the
    global fair-cycle state. *)
Definition checkers_before_fair_cycle (config : ProviderUsageConfig.t)
  : list Checker :=
  [ConcurrentLimitChecker; CooldownChecker]
  ++ (if ProviderUsageConfig.window_limits_enabled config
      then [WindowLimitChecker] else [])
  ++ [CustomCapChecker].

Definition earlier_check (le : LimitEngine.t) (checker : Checker)
    (state : CredentialState.t) (model : string) (quota_group : option string)
  : M LimitCheckResult.t :=
  let wm := LimitEngine._window_manager le in
  let config := LimitEngine._config le in
  match checker with
  | ConcurrentLimitChecker => mret (ConcurrentLimitChecker_check state)
  | CooldownChecker => CooldownChecker_check state model quota_group
  | WindowLimitChecker => WindowLimitChecker_check wm state model quota_group
  | CustomCapChecker =>
      CustomCapChecker_check (ProviderUsageConfig.custom_caps config)
        wm state model quota_group
  | FairCycleChecker =>
      r ← FairCycleChecker_check (ProviderUsageConfig.fair_cycle config)
            wm state model quota_group ∅;
      mret (fst (fst r))
  end.

Fixpoint earlier_checks (le : LimitEngine.t) (checkers : list Checker)
    (state : CredentialState.t) (model : string) (quota_group : option string)
  : M LimitCheckResult.t :=
  match checkers with
  | [] => mret LimitCheckResult.ok
  | checker :: rest =>
      result ← earlier_check le checker state model quota_group;
      if LimitCheckResult.allowed result then
        earlier_checks le rest state model quota_group
      else mret result
  end.

(** The verdict on a credential of the checkers before the fair-cycle
    checker. *)
Definition verdict_before_fair_cycle (le : LimitEngine.t)
    (state : CredentialState.t) (model : string) (quota_group : option string)
    (o : Oracle) : LimitCheckResult.t :=
  fst (earlier_checks le (checkers_before_fair_cycle (LimitEngine._config le))
         state model quota_group o).

(** No cycle recorded for [key] has run for its full duration at [now]. *)
Definition cycle_live (fc : FairCycleConfig.t) (key : string) (now : Q)
    (global : gmap string (gmap string GlobalFairCycleState.t)) : Prop :=
  forall provider groups g,
    global !! provider = Some groups -> groups !! key = Some g ->
    (now < GlobalFairCycleState.cycle_start g
           + inject_Z (FairCycleConfig.duration fc))%Q.

(** [state'] is [state] with a cleared fair-cycle record at [key]. *)
Definition fair_cycle_cleared (key : string) (state state' : CredentialState.t)
  : Prop :=
  exists fair_cycle fc_state,
    state' = CredentialState.set_fair_cycle state fair_cycle
    /\ fair_cycle !! key = Some fc_state
    /\ FairCycleState.exhausted fc_state = false
    /\ FairCycleState.cycle_request_count fc_state = 0.

(** The credential has a cooldown, on [group_key] or credential-wide,
    that is active at [now] with less than [threshold] seconds left. *)
Definition short_cooldown_at (threshold now : Q) (state : CredentialState.t)
    (key : string) : bool :=
  match CredentialState.cooldowns state !! key with
  | Some cooldown =>
      Qlt_bool now (CooldownInfo.until cooldown)
      && Qlt_bool (CooldownInfo.until cooldown - now) threshold
  | None => false
  end.

Definition has_short_cooldown (threshold now : Q) (group_key : string)
    (state : CredentialState.t) : bool :=
  short_cooldown_at threshold now state group_key
  || short_cooldown_at threshold now state COOLDOWN_GLOBAL_KEY.

(** Step 1 of [select]: the ids that are not excluded. *)
Definition candidates_of (exclude : option (gset string)) (w : World)
  : list string :=
  filter (fun sid => sid ∉ default ∅ exclude) (odict_keys (w_states w)).

(** The fair-cycle configuration and tracking key a selection engine
    works with. *)
Definition fair_cycle_of (se : SelectionEngine.t) : FairCycleConfig.t :=
  ProviderUsageConfig.fair_cycle (SelectionEngine._config se).

Definition tracking_key_of (se : SelectionEngine.t) (model : string)
    (quota_group : option string) : string :=
  get_tracking_key (fair_cycle_of se) model quota_group.

(** [w'] differs from [w] at most by new, running cycles in the global
    fair-cycle state: the credentials, the sticky choices and every cycle
    count are those of [w]. *)
Definition same_pool (w w' : World) : Prop :=
  w_states w' = w_states w
  /\ w_current w' = w_current w
  /\ forall p k, cycle_count_of (w_global w') p k
                 = cycle_count_of (w_global w) p k.

(** The verdict of [_get_shortest_cooldown] on the running minimum
    [(shortest_remaining, shortest_cred_id)]. *)
Definition short_found (threshold : Q) (shortest : option Q * option string)
  : bool :=
  match fst shortest with
  | Some s => Qlt_bool s threshold
  | None => false
  end.

(** The threshold below which an active cooldown holds back a reset. *)
Definition reset_threshold_of (se : SelectionEngine.t) : Q :=
  inject_Z (FairCycleConfig.reset_cooldown_threshold (fair_cycle_of se)).

(** Tiers as [setdefault] builds them: every id of a tier has the
    priority the tier is filed under, and no priority is filed twice. *)
Definition tiers_keyed {A} (key : A -> Z) (tiers : list (Z * list A)) : Prop :=
  NoDup (map fst tiers)
  /\ forall q xs x, (q, xs) ∈ tiers -> x ∈ xs -> key x = q.

Definition in_tiers {A} (x : A) (tiers : list (Z * list A)) : Prop :=
  exists q xs, (q, xs) ∈ tiers /\ x ∈ xs.

(** The candidates filed under priority [p]: one priority tier. *)
Definition tier_of (p : Z) (w : World) (candidates : list string)
  : list string :=
  filter (fun sid =>
            CredentialState.priority <$> odict_get (w_states w) sid = Some p)
         candidates.

(** The test [_try_fair_cycle_reset] puts a tier to before it resets it:
    every credential exhausted, and no cooldown that is about to end. *)
Definition resettable (se : SelectionEngine.t) (model : string)
    (quota_group : option string) (now : Q) (w : World) (ids : list string)
  : bool :=
  forallb (fun state =>
             CredentialState.is_fair_cycle_exhausted state
               (tracking_key_of se model quota_group))
          (states_of w ids)
  && negb (existsb (has_short_cooldown (reset_threshold_of se) now
                      (py_or_str quota_group model))
                   (states_of w ids)).

(** [sid] belongs to a tier of [tiers] that passes the test. *)
Definition reset_by (se : SelectionEngine.t) (model : string)
    (quota_group : option string) (now : Q) (w : World)
    (tiers : list (Z * list string)) (sid : string) : bool :=
  existsb (fun tier =>
             resettable se model quota_group now w (snd tier)
             && bool_decide (sid ∈ snd tier))
          tiers.

(** From [w] to [w'] the credentials listed in [tier] are untouched, and
    no credential has appeared, vanished or changed its priority. *)
Definition tier_kept (tier : list string) (w w' : World) : Prop :=
  (forall sid, sid ∈ tier ->
     odict_get (w_states w') sid = odict_get (w_states w) sid)
  /\ odict_keys (w_states w') = odict_keys (w_states w)
  /\ (forall sid,
        CredentialState.priority <$> odict_get (w_states w') sid
        = CredentialState.priority <$> odict_get (w_states w) sid).

(** The credentials listed in [tier] are all fair-cycle exhausted. *)
Definition tier_exhausted (se : SelectionEngine.t) (model : string)
    (quota_group : option string) (tier : list string) (w : World) : Prop :=
  forall sid state,
    sid ∈ tier -> odict_get (w_states w) sid = Some state ->
    CredentialState.is_fair_cycle_exhausted state
      (tracking_key_of se model quota_group) = true.

(** The situation in which a tier is not reset: [tier] lists candidates
    of priority [p], all fair-cycle exhausted, one of them with a cooldown
    that ends within the threshold. *)
Definition tier_held_back (se : SelectionEngine.t) (model : string)
    (quota_group : option string) (now : Q) (p : Z) (candidates : list string)
    (tier : list string) (w : World) : Prop :=
  (forall sid, sid ∈ tier ->
     sid ∈ candidates
     /\ CredentialState.priority <$> odict_get (w_states w) sid = Some p)
  /\ tier_exhausted se model quota_group tier w
  /\ exists sid state,
       sid ∈ tier
       /\ odict_get (w_states w) sid = Some state
       /\ has_short_cooldown (reset_threshold_of se) now
            (py_or_str quota_group model) state = true.

(** A credential the limit engine stops while the cycle is running: it
    is fair-cycle exhausted, or a checker before the fair-cycle checker
    blocks it. *)
Definition held (se : SelectionEngine.t) (model : string)
    (quota_group : option string) (o : Oracle) (state : CredentialState.t)
  : bool :=
  CredentialState.is_fair_cycle_exhausted state
    (tracking_key_of se model quota_group)
  || negb (LimitCheckResult.allowed
             (verdict_before_fair_cycle (SelectionEngine._limits se) state
                                        model quota_group o)).

(** ** The vocabulary of the further properties *)

(** The first entry of [get_blocking_info] that is not allowed: the entry
    at which the loop of [get_availability_stats] over [blocking.items()]
    breaks. *)
Definition first_blocked (results : list (string * LimitCheckResult.t))
  : option (string * LimitCheckResult.t) :=
  find (fun entry => negb (LimitCheckResult.allowed (snd entry))) results.

(** The verdict of a check, without the state and the global state. *)
Definition verdict_of {S G}
    (r : LimitCheckResult.t * S * G * Oracle) : LimitCheckResult.t :=
  fst (fst (fst r)).

(** The priority, usage and recency that [_select_by_priority] sorts a
    candidate by: [priorities.get(c, 999)], [usage_counts.get(c, 0)] and
    [state.totals.last_used_at or 0] (0 for an id without a state). *)
Definition priority_of (priorities : gmap string Z) (c : string) : Z :=
  default 999 (priorities !! c).

Definition usage_of (usage_counts : gmap string Z) (c : string) : Z :=
  default 0 (usage_counts !! c).

Definition recency_of (states : list (string * CredentialState.t))
    (c : string) : Q :=
  match odict_get states c with
  | Some state => last_used_or_zero state
  | None => 0%Q
  end.

(** The key under which [SequentialStrategy.select] remembers its choice. *)
Definition sticky_key (context : SelectionContext.t) : string * string :=
  (SelectionContext.provider context,
   py_or_str (SelectionContext.quota_group context)
             (SelectionContext.model context)).

(** [state'] is [state] but for its fair-cycle records. *)
Definition only_fair_cycle_differs (state state' : CredentialState.t) : Prop :=
  exists fair_cycle, state' = CredentialState.set_fair_cycle state fair_cycle.

(** [w'] has the credentials of [w], under the same ids in the same
    order, each at most with other fair-cycle records. *)
Definition pool_only_fair_cycle_differs (w w' : World) : Prop :=
  odict_keys (w_states w') = odict_keys (w_states w)
  /\ forall sid state,
       odict_get (w_states w) sid = Some state ->
       exists state',
         odict_get (w_states w') sid = Some state'
         /\ only_fair_cycle_differs state state'.

(** * Properties *)

(** ** Custom caps *)

Lemma _resolve_max_requests_clamped cap window_limit :
  _resolve_max_requests cap window_limit
  = Z.max 0 (spec_effective_max cap window_limit).
Proof.
  unfold _resolve_max_requests, spec_effective_max.
  destruct (CustomCapConfig.max_requests_mode cap), window_limit; reflexivity.
Qed.

(** C7 (as amended). The effective maximum of a cap is the value the
    specification describes, clamped below at 0. When the request count
    of the primary window of the cap's scope has reached it, the check
    blocks with [BLOCKED_CUSTOM_CAP], and in [QUOTA_RESET] cooldown mode
    [blocked_until] is the window's [reset_at]; below it the check
    allows. *)
Theorem C7_custom_cap_clamped_max_and_block
    wm state cap scope scope_key windows primary_window o o1 :
  scope_windows state scope scope_key = Some windows ->
  get_primary_window wm windows o = (Some primary_window, o1) ->
  let effective :=
    Z.max 0 (spec_effective_max cap (WindowStats.limit primary_window)) in
  let result := fst (_check_single_cap wm state cap scope scope_key o) in
  _resolve_max_requests cap (WindowStats.limit primary_window) = effective
  /\ (effective <= WindowStats.request_count primary_window ->
      LimitCheckResult.allowed result = false
      /\ LimitCheckResult.result result = LimitResult.BLOCKED_CUSTOM_CAP
      /\ (CustomCapConfig.cooldown_mode cap = CooldownMode.QUOTA_RESET ->
          LimitCheckResult.blocked_until result
          = WindowStats.reset_at primary_window))
  /\ (WindowStats.request_count primary_window < effective ->
      result = LimitCheckResult.ok).
Proof.
  intros Hw Hp effective result.
  split; [apply _resolve_max_requests_clamped|].
  subst result. unfold _check_single_cap. rewrite Hw.
  unfold mbind, M_bind. rewrite Hp.
  rewrite _resolve_max_requests_clamped. fold effective.
  split.
  - intros Hge. apply Z.leb_le in Hge. rewrite Hge.
    unfold _calculate_cooldown_until, mbind, M_bind, time_time.
    repeat split.
    + destruct (CustomCapConfig.cooldown_mode cap); try reflexivity.
      destruct (WindowStats.reset_at primary_window) as [r|]; [|reflexivity].
      destruct (Qeq_bool r 0); reflexivity.
    + destruct (CustomCapConfig.cooldown_mode cap); try reflexivity.
      destruct (WindowStats.reset_at primary_window) as [r|]; [|reflexivity].
      destruct (Qeq_bool r 0); reflexivity.
    + intros ->. reflexivity.
  - intros Hlt. apply Z.leb_gt in Hlt. rewrite Hlt. reflexivity.
Qed.

(** ** Window reset *)

Lemma use_window_request_count te window_def uses : forall w,
  WindowStats.request_count (use_window te window_def w uses)
  = WindowStats.request_count w + requests_of uses.
Proof.
  induction uses as [|use uses IH]; intros w; simpl.
  - lia.
  - unfold use_window in *. simpl. rewrite IH. simpl. lia.
Qed.

(** Once a window has been used, later uses keep its timing, and its
    recorded maximum stays equal to its count while counts do not fall. *)
Lemma use_window_started te window_def uses : forall w s r,
  WindowStats.started_at w = Some s ->
  WindowStats.reset_at w = r ->
  WindowStats.max_recorded_requests w = Some (WindowStats.request_count w) ->
  Forall (fun use => 0 <= UsageUpdate.request_count (fst use)) uses ->
  let w' := use_window te window_def w uses in
  WindowStats.started_at w' = Some s
  /\ WindowStats.reset_at w' = r
  /\ WindowStats.max_recorded_requests w'
     = Some (WindowStats.request_count w').
Proof.
  induction uses as [|use uses IH]; intros w s r Hs Hr Hm Hpos; simpl.
  - auto.
  - inversion Hpos as [|? ? Hu Hrest]; subst.
    unfold use_window in *. simpl.
    apply IH; auto; simpl.
    + rewrite Hs. reflexivity.
    + rewrite Hs. reflexivity.
    + rewrite Hm.
      destruct (WindowStats.request_count w
                <? WindowStats.request_count w
                   + UsageUpdate.request_count (fst use)) eqn:E.
      * reflexivity.
      * apply Z.ltb_ge in E. f_equal. lia.
Qed.

Lemma get_or_create_window_expired wm windows window_name limit old o :
  windows !! window_name = Some old ->
  fst (get_active_window wm windows window_name o) = None ->
  let o1 := snd (get_active_window wm windows window_name o) in
  let recorded := py_or_zero (WindowStats.max_recorded_requests old) in
  let r := get_or_create_window wm windows window_name limit o in
  let w := fst (fst r) in
  (WindowStats.request_count w = 0
   /\ WindowStats.success_count w = 0
   /\ WindowStats.failure_count w = 0
   /\ WindowStats.prompt_tokens w = 0
   /\ WindowStats.completion_tokens w = 0
   /\ WindowStats.thinking_tokens w = 0
   /\ WindowStats.output_tokens w = 0
   /\ WindowStats.prompt_tokens_cache_read w = 0
   /\ WindowStats.prompt_tokens_cache_write w = 0
   /\ WindowStats.total_tokens w = 0)
  /\ WindowStats.started_at w = None
  /\ WindowStats.reset_at w = None
  /\ WindowStats.limit w = py_or_optZ limit (WindowStats.limit old)
  /\ (recorded < WindowStats.request_count old ->
      WindowStats.max_recorded_requests w
      = Some (WindowStats.request_count old)
      /\ WindowStats.max_recorded_at w
         = Some (fst (last_used_or_now (WindowStats.last_used_at old) o1)))
  /\ (WindowStats.request_count old <= recorded -> 0 < recorded ->
      WindowStats.max_recorded_requests w = Some recorded
      /\ WindowStats.max_recorded_at w = WindowStats.max_recorded_at old)
  /\ (WindowStats.request_count old <= recorded -> recorded <= 0 ->
      WindowStats.max_recorded_requests w = None
      /\ WindowStats.max_recorded_at w = None)
  /\ snd (fst r) = <[window_name := w]> windows.
Proof.
  intros Hold Hexp o1 recorded r w.
  subst r w o1. unfold get_or_create_window, mbind, M_bind.
  destruct (get_active_window wm windows window_name o) as [a o1] eqn:Ha.
  simpl in Hexp. subst a. rewrite Hold. fold recorded. simpl snd.
  destruct (recorded <? WindowStats.request_count old) eqn:E1.
  - apply Z.ltb_lt in E1.
    destruct (last_used_or_now (WindowStats.last_used_at old) o1)
      as [a o2] eqn:Hl. simpl.
    repeat split; try reflexivity; intros; lia.
  - apply Z.ltb_ge in E1.
    destruct (0 <? recorded) eqn:E2; simpl.
    + apply Z.ltb_lt in E2. repeat split; try reflexivity; intros; lia.
    + apply Z.ltb_ge in E2. repeat split; try reflexivity; intros; lia.
Qed.

Lemma rolling_window_expires wm windows window_name window_def old d s o :
  windows !! window_name = Some old ->
  odict_get (WindowManager.definitions wm) window_name = Some window_def ->
  WindowStats.reset_at old = Some (s + inject_Z d)%Q ->
  (s + inject_Z d <= clock (ticks o))%Q ->
  fst (get_active_window wm windows window_name o) = None.
Proof.
  intros Hold Hdef Hreset Hnow.
  unfold get_active_window. rewrite Hold, Hdef.
  unfold mbind, M_bind, _should_reset, time_time. rewrite Hreset. simpl.
  apply Qle_bool_iff in Hnow. rewrite Hnow. reflexivity.
Qed.

(** The expiry check of a window that is held reads the clock once. *)
Lemma get_active_window_expired_reads wm windows window_name old o :
  windows !! window_name = Some old ->
  fst (get_active_window wm windows window_name o) = None ->
  snd (get_active_window wm windows window_name o)
  = mkOracle (S (ticks o)) (draws o).
Proof.
  unfold get_active_window. intros ->.
  destruct (odict_get (WindowManager.definitions wm) window_name) as [def|];
    [|discriminate].
  intros _. unfold mbind, M_bind, _should_reset, time_time, mret, M_ret.
  destruct (WindowStats.reset_at old); [reflexivity|].
  destruct (WindowStats.started_at old); [|reflexivity].
  destruct (WindowDefinition.reset_mode def); try reflexivity.
  destruct (WindowDefinition.duration_seconds def); reflexivity.
Qed.

(** Uses change neither the limit of a window nor, when they record no
    request, its count. *)
Lemma use_window_limit te window_def uses : forall w,
  WindowStats.limit (use_window te window_def w uses) = WindowStats.limit w.
Proof.
  induction uses as [|use uses IH]; intros w; simpl; [reflexivity|].
  unfold use_window in *. simpl. rewrite IH. reflexivity.
Qed.

Lemma requests_of_nonneg uses :
  Forall (fun use : UsageUpdate.t * Q =>
            0 <= UsageUpdate.request_count (fst use)) uses ->
  0 <= requests_of uses.
Proof.
  induction 1 as [|use uses Hu _ IH]; simpl; lia.
Qed.

(** C6, with the case the code treats otherwise. [get_or_create_window]
    on a dict that holds an expired window under [window_name] returns and
    stores a fresh window of that name: all request and token counters are
    zero and [started_at] and [reset_at] are unset. Its limit is the
    passed limit when one is passed and is not 0, and the predecessor's
    limit when none or 0 is passed. When the predecessor's final count
    exceeds its recorded maximum (an unset maximum counts as 0),
    [max_recorded_requests] is that final count and [max_recorded_at] is
    the predecessor's last use, or the next clock reading when no last
    use is recorded (or it is 0.0). Otherwise, when the recorded maximum
    is positive, both are carried over as they are. Otherwise, that is
    when the predecessor has recorded no request, both are unset: a
    recorded maximum of 0 is not carried over. In particular a rolling
    window of duration [d], created fresh with limit [limit0] and used
    from [t0] on with counts that are not negative, is replaced at any
    clock reading from [t0 + d] on by a window with counts 0 and limit
    [limit0], whose [max_recorded_requests] is the number [n] of requests
    of the expired cycle when [n] is positive, stamped as in the expired
    window, and is unset when [n] is 0. *)
Theorem C6_expired_window_is_replaced :
  (forall wm windows window_name limit old o,
     windows !! window_name = Some old ->
     fst (get_active_window wm windows window_name o) = None ->
     let recorded := default 0 (WindowStats.max_recorded_requests old) in
     let r := get_or_create_window wm windows window_name limit o in
     let w := fst (fst r) in
     WindowStats.name w = window_name
     /\ (WindowStats.request_count w = 0
         /\ WindowStats.success_count w = 0
         /\ WindowStats.failure_count w = 0
         /\ WindowStats.prompt_tokens w = 0
         /\ WindowStats.completion_tokens w = 0
         /\ WindowStats.thinking_tokens w = 0
         /\ WindowStats.output_tokens w = 0
         /\ WindowStats.prompt_tokens_cache_read w = 0
         /\ WindowStats.prompt_tokens_cache_write w = 0
         /\ WindowStats.total_tokens w = 0)
     /\ WindowStats.started_at w = None
     /\ WindowStats.reset_at w = None
     /\ (forall l, limit = Some l -> l <> 0 -> WindowStats.limit w = Some l)
     /\ (limit = None \/ limit = Some 0 ->
         WindowStats.limit w = WindowStats.limit old)
     /\ (recorded < WindowStats.request_count old ->
         WindowStats.max_recorded_requests w
         = Some (WindowStats.request_count old)
         /\ (forall t,
               WindowStats.last_used_at old = Some t -> ~ (t == 0)%Q ->
               WindowStats.max_recorded_at w = Some t)
         /\ (WindowStats.last_used_at old = None
             \/ (exists t,
                   WindowStats.last_used_at old = Some t /\ (t == 0)%Q) ->
             WindowStats.max_recorded_at w = Some (clock (S (ticks o)))))
     /\ (WindowStats.request_count old <= recorded -> 0 < recorded ->
         WindowStats.max_recorded_requests w = Some recorded
         /\ WindowStats.max_recorded_at w = WindowStats.max_recorded_at old)
     /\ (WindowStats.request_count old <= recorded -> recorded <= 0 ->
         WindowStats.max_recorded_requests w = None
         /\ WindowStats.max_recorded_at w = None)
     /\ snd (fst r) = <[window_name := w]> windows)
  /\
  (forall te window_def d limit0 first uses windows o,
     let wm := TrackingEngine._windows te in
     let window_name := WindowDefinition.name window_def in
     let t0 := snd first in
     let old :=
       use_window te window_def
         (WindowStats.new window_name None None limit0 None None)
         (first :: uses) in
     let n := requests_of (first :: uses) in
     WindowDefinition.reset_mode window_def = ResetMode.ROLLING ->
     WindowDefinition.duration_seconds window_def = Some d ->
     odict_get (WindowManager.definitions wm) window_name = Some window_def ->
     Forall (fun use => 0 <= UsageUpdate.request_count (fst use))
            (first :: uses) ->
     windows !! window_name = Some old ->
     (t0 + inject_Z d <= clock (ticks o))%Q ->
     let w := fst (fst (get_or_create_window wm windows window_name None o)) in
     WindowStats.request_count w = 0
     /\ WindowStats.success_count w = 0
     /\ WindowStats.failure_count w = 0
     /\ WindowStats.total_tokens w = 0
     /\ WindowStats.started_at w = None
     /\ WindowStats.reset_at w = None
     /\ WindowStats.limit w = limit0
     /\ (0 < n ->
         WindowStats.max_recorded_requests w = Some n
         /\ WindowStats.max_recorded_at w = WindowStats.max_recorded_at old)
     /\ (n = 0 ->
         WindowStats.max_recorded_requests w = None
         /\ WindowStats.max_recorded_at w = None)).
Proof.
  split.
  - intros wm windows window_name limit old o Hold Hexp recorded r w.
    pose proof (get_active_window_expired_reads wm windows window_name old o
                  Hold Hexp) as Ho1.
    destruct (get_or_create_window_expired wm windows window_name limit old o
                Hold Hexp)
      as (Hzero & Hst & Hre & Hlim & Hover & Hkeep & Hnone & Hstore).
    fold r w in Hzero, Hst, Hre, Hlim, Hover, Hkeep, Hnone, Hstore.
    rewrite Ho1 in Hover.
    assert (Hrec : py_or_zero (WindowStats.max_recorded_requests old)
                   = recorded).
    { unfold recorded, py_or_zero.
      destruct (WindowStats.max_recorded_requests old); reflexivity. }
    rewrite Hrec in Hover, Hkeep, Hnone.
    split.
    { subst w r. unfold get_or_create_window, mbind, M_bind.
      destruct (get_active_window wm windows window_name o) as [a o1].
      simpl in Hexp. subst a. rewrite Hold.
      destruct (py_or_zero (WindowStats.max_recorded_requests old)
                <? WindowStats.request_count old).
      - destruct (last_used_or_now (WindowStats.last_used_at old) o1).
        reflexivity.
      - destruct (0 <? py_or_zero (WindowStats.max_recorded_requests old));
          reflexivity. }
    split; [exact Hzero|]. split; [exact Hst|]. split; [exact Hre|].
    split.
    { intros l -> Hl. rewrite Hlim. simpl.
      destruct (l =? 0) eqn:E; [apply Z.eqb_eq in E; contradiction|].
      reflexivity. }
    split.
    { intros [->| ->]; rewrite Hlim; reflexivity. }
    split.
    { intros Hlt. destruct (Hover Hlt) as [Hmax Hat].
      split; [exact Hmax|]. split.
      - intros t Ht Hne. rewrite Hat, Ht. simpl.
        destruct (Qeq_bool t 0) eqn:E;
          [apply Qeq_bool_iff in E; contradiction|].
        reflexivity.
      - intros [Ht|(t & Ht & Hz)]; rewrite Hat, Ht; simpl; [reflexivity|].
        apply Qeq_bool_iff in Hz. rewrite Hz. reflexivity. }
    split; [exact Hkeep|]. split; [exact Hnone|exact Hstore].
  - intros te window_def d limit0 first uses windows o wm window_name t0 old
           n Hmode Hdur Hdef Hpos Hold Hnow w.
    pose proof (requests_of_nonneg _ Hpos) as Hn. fold n in Hn.
    inversion Hpos as [|? ? Hfirst Hrest]; subst.
    set (w1 := _apply_to_window te
                 (WindowStats.new window_name None None limit0 None None)
                 (fst first) (snd first) (usage_total_tokens (fst first))
                 (usage_output_tokens (fst first)) (Some window_def)).
    assert (Hold' : old = use_window te window_def w1 uses) by reflexivity.
    destruct (use_window_started te window_def uses w1 t0
                (Some (t0 + inject_Z d)%Q)) as (Hs & Hr & Hm); auto.
    { subst w1. simpl. unfold _calculate_reset_time.
      rewrite Hmode, Hdur. reflexivity. }
    rewrite <- Hold' in Hs, Hr, Hm.
    assert (Hcount : WindowStats.request_count old = n).
    { unfold old, n. rewrite use_window_request_count. simpl. lia. }
    assert (Hlimit : WindowStats.limit old = limit0).
    { unfold old. rewrite use_window_limit. reflexivity. }
    pose proof (rolling_window_expires wm windows window_name window_def old d
                  t0 o Hold Hdef Hr Hnow) as Hexp.
    destruct (get_or_create_window_expired wm windows window_name None old o
                Hold Hexp)
      as ((Hc & Hsc & Hfc & _ & _ & _ & _ & _ & _ & Htt) & Hst & Hre & Hlim
          & _ & Hkeep & Hnone & _).
    fold w in Hc, Hsc, Hfc, Htt, Hst, Hre, Hlim, Hkeep, Hnone.
    rewrite Hm in Hkeep, Hnone. simpl in Hkeep, Hnone.
    rewrite Hcount in Hkeep, Hnone. simpl in Hlim. rewrite Hlimit in Hlim.
    repeat (split; [assumption|]).
    split.
    + intros Hlt. apply Hkeep; lia.
    + intros Hz. apply Hnone; lia.
Qed.

(** ** Cooldowns *)

Lemma Qlt_bool_iff (a b : Q) : Qlt_bool a b = true <-> (a < b)%Q.
Proof.
  unfold Qlt_bool. destruct (Qle_bool b a) eqn:E; simpl.
  - apply Qle_bool_iff in E. split; [discriminate | intros; lra].
  - split; [|reflexivity]. intros _.
    destruct (Qlt_le_dec a b) as [H|H]; [exact H|].
    apply Qle_bool_iff in H. congruence.
Qed.

Lemma _mark_exhausted_cooldowns state key reason o :
  CredentialState.cooldowns (fst (_mark_exhausted state key reason o))
  = CredentialState.cooldowns state.
Proof.
  unfold _mark_exhausted, mbind, M_bind, mret, M_ret, time_time.
  destruct (CredentialState.fair_cycle state !! key) as [fc|] eqn:E.
  - rewrite E. destruct (FairCycleState.exhausted fc); reflexivity.
  - rewrite lookup_insert_eq. reflexivity.
Qed.

(** C2. When [apply_cooldown] resolves a new end time while the cooldown
    stored at the key is still active (at the clock reading that
    [is_active] takes), the stored cooldown keeps its [reason], [source]
    and [started_at], its [until] becomes the resolved value and its
    [backoff_count] grows by exactly 1; the cooldowns at other keys are
    untouched. *)
Theorem C2_active_cooldown_preserved
    te state reason duration until model_or_group source existing
    cooldown_until o :
  let key := py_or_str model_or_group "_global_" in
  CredentialState.cooldowns state !! key = Some existing ->
  resolve_cooldown_until (clock (ticks o)) duration until
  = Some cooldown_until ->
  (clock (S (ticks o)) < CooldownInfo.until existing)%Q ->
  let state' :=
    fst (apply_cooldown te state reason duration until model_or_group
                        source o) in
  (exists c,
     CredentialState.cooldowns state' !! key = Some c
     /\ CooldownInfo.reason c = CooldownInfo.reason existing
     /\ CooldownInfo.source c = CooldownInfo.source existing
     /\ CooldownInfo.started_at c = CooldownInfo.started_at existing
     /\ CooldownInfo.until c = cooldown_until
     /\ CooldownInfo.backoff_count c = CooldownInfo.backoff_count existing + 1)
  /\ (forall other, other <> key ->
        CredentialState.cooldowns state' !! other
        = CredentialState.cooldowns state !! other).
Proof.
  intros key Hex Hres Hact state'.
  assert (Hs : CredentialState.cooldowns state'
               = <[key := CooldownInfo.mk (CooldownInfo.reason existing)
                            cooldown_until (CooldownInfo.started_at existing)
                            (CooldownInfo.source existing) model_or_group
                            (CooldownInfo.backoff_count existing + 1)]>
                   (CredentialState.cooldowns state)).
  { subst state'. apply Qlt_bool_iff in Hact.
    unfold apply_cooldown, _apply_cooldown, is_active.
    unfold mbind, M_bind, mret, M_ret, time_time. simpl.
    rewrite Hres. fold key. rewrite Hex. simpl. rewrite Hact.
    match goal with
    | |- context [if ?b then _ else _] => destruct b
    end; [rewrite _mark_exhausted_cooldowns|]; reflexivity. }
  rewrite Hs. split.
  - eexists. rewrite lookup_insert_eq. split; [reflexivity|].
    repeat split; reflexivity.
  - intros other Hne. rewrite lookup_insert_ne by congruence. reflexivity.
Qed.

(** ** Group timing *)

(** What the sync loop leaves in the model windows: every model window
    whose name the group has, with the group window's timing. *)
Lemma _sync_window_timing_from_group_lookup model_windows group_windows name :
  _sync_window_timing_from_group model_windows group_windows !! name
  = match model_windows !! name with
    | Some model_window =>
        match group_windows !! name with
        | Some group_window =>
            Some (WindowStats.set_timing model_window
                    (WindowStats.started_at group_window)
                    (WindowStats.reset_at group_window))
        | None => Some model_window
        end
    | None => None
    end.
Proof.
  unfold _sync_window_timing_from_group.
  apply (map_fold_weak_ind
           (fun (r : gmap string WindowStats.t) (g : gmap string WindowStats.t) =>
              r !! name
              = match model_windows !! name with
                | Some model_window =>
                    match g !! name with
                    | Some group_window =>
                        Some (WindowStats.set_timing model_window
                                (WindowStats.started_at group_window)
                                (WindowStats.reset_at group_window))
                    | None => Some model_window
                    end
                | None => None
                end)).
  - rewrite lookup_empty. destruct (model_windows !! name); reflexivity.
  - intros i x m r Hi IH. unfold sync_one.
    destruct (decide (i = name)) as [->|Hne].
    + rewrite lookup_insert_eq. rewrite Hi in IH.
      destruct (r !! name) as [mw|] eqn:Hr.
      * rewrite lookup_insert_eq.
        destruct (model_windows !! name); [|discriminate].
        inversion IH; subst. reflexivity.
      * rewrite Hr. destruct (model_windows !! name); [discriminate|reflexivity].
    + rewrite (lookup_insert_ne m) by exact Hne.
      destruct (r !! i); [rewrite lookup_insert_ne by exact Hne|]; exact IH.
Qed.

Lemma sync_timing_agrees model_windows group_windows name mw gw :
  _sync_window_timing_from_group model_windows group_windows !! name = Some mw ->
  group_windows !! name = Some gw ->
  WindowStats.started_at mw = WindowStats.started_at gw
  /\ WindowStats.reset_at mw = WindowStats.reset_at gw.
Proof.
  rewrite _sync_window_timing_from_group_lookup. intros Hm Hg.
  rewrite Hg in Hm. destruct (model_windows !! name); [|discriminate].
  inversion Hm; subst. split; reflexivity.
Qed.

(** Without response headers the timing of every model window agrees with
    the group window of the same name after [record_usage]. *)
Lemma record_usage_group_timing te state model update g o :
  py_str_truthy g = true ->
  let state' := fst (record_usage te state model update (Some g) None o) in
  forall name model_stats group_stats mw gw,
    CredentialState.model_usage state' !! model = Some model_stats ->
    CredentialState.group_usage state' !! g = Some group_stats ->
    ModelStats.windows model_stats !! name = Some mw ->
    GroupStats.windows group_stats !! name = Some gw ->
    WindowStats.started_at mw = WindowStats.started_at gw
    /\ WindowStats.reset_at mw = WindowStats.reset_at gw.
Proof.
  intros Hg state' name model_stats group_stats mw gw.
  subst state'. unfold record_usage.
  unfold mbind, M_bind, mret, M_ret, time_time.
  cbn [py_opt_str_truthy py_or_str]. rewrite !Hg.
  destruct (CredentialState.get_model_stats_create state model) as [ms st1].
  destruct (_apply_to_windows te (ModelStats.windows ms) update _ _ _ _ _)
    as [model_windows o2].
  match goal with
  | |- context [CredentialState.get_group_stats_create ?s g] =>
      destruct (CredentialState.get_group_stats_create s g) as [gs st3]
  end.
  destruct (_apply_to_windows te (GroupStats.windows gs) update _ _ _ _ _)
    as [group_windows o3].
  unfold count_cycle_requests.
  destruct (FairCycleConfig.is_enabled _); simpl;
    rewrite !lookup_insert_eq;
    intros Hm Hgs; inversion Hm; inversion Hgs; subst; simpl;
    apply sync_timing_agrees.
Qed.

(** ** The two sentinels *)

Lemma _mark_exhausted_ignores_cooldowns state key reason c o :
  fst (_mark_exhausted (CredentialState.set_cooldowns state c) key reason o)
  = CredentialState.set_cooldowns (fst (_mark_exhausted state key reason o)) c.
Proof.
  unfold _mark_exhausted, mbind, M_bind, mret, M_ret, time_time. simpl.
  destruct (CredentialState.fair_cycle state !! key) as [fc|] eqn:E.
  - rewrite E. destruct (FairCycleState.exhausted fc); reflexivity.
  - rewrite lookup_insert_eq. reflexivity.
Qed.

Lemma _get_quota_limit_ignores_cooldowns wm state model quota_group c o :
  _get_quota_limit wm (CredentialState.set_cooldowns state c) model
                   quota_group o
  = _get_quota_limit wm state model quota_group o.
Proof. reflexivity. Qed.

Lemma FairCycleChecker_check_ignores_cooldowns
    fc wm state model quota_group global c o :
  let r := FairCycleChecker_check fc wm state model quota_group global o in
  FairCycleChecker_check fc wm (CredentialState.set_cooldowns state c) model
                         quota_group global o
  = (fst (fst (fst r)), CredentialState.set_cooldowns (snd (fst (fst r))) c,
     snd (fst r), snd r).
Proof.
  unfold FairCycleChecker_check.
  destruct (FairCycleConfig.is_enabled fc); simpl; [|reflexivity].
  unfold mbind, M_bind, mret, M_ret. simpl.
  set (key := _resolve_tracking_key fc model quota_group).
  destruct (CredentialState.fair_cycle state !! key) as [fs|] eqn:E;
    [|simpl; rewrite E; reflexivity].
  destruct (FairCycleState.exhausted fs) eqn:Ex; simpl.
  - rewrite E, Ex. simpl.
    destruct (_get_global_state global (CredentialState.provider state) key o)
      as [[g global1] o1].
    match goal with
    | |- context [if ?b then _ else _] => destruct b
    end; reflexivity.
  - rewrite _get_quota_limit_ignores_cooldowns.
    destruct (_get_quota_limit wm state model quota_group o) as [[ql|] o1];
      [|simpl; rewrite E, Ex; reflexivity].
    destruct (py_int (inject_Z ql * FairCycleConfig.quota_threshold fc)
              <=? FairCycleState.cycle_request_count fs);
      [|simpl; rewrite E, Ex; reflexivity].
    unfold time_time. simpl. rewrite !lookup_insert_eq. simpl.
    destruct (_get_global_state global (CredentialState.provider state) key _)
      as [[g global1] o2].
    match goal with
    | |- context [if ?b then _ else _] => destruct b
    end; reflexivity.
Qed.

(** C10. The credential-wide cooldown key ["_global_"] and the
    credential-mode fair-cycle key ["_credential_"] are different
    strings. [clear_cooldown] without a scope deletes exactly the
    ["_global_"] entry of the cooldown map and leaves every fair-cycle
    record as it is. In credential tracking mode the fair-cycle
    bookkeeping (marking exhausted, resetting, counting requests, the
    fair-cycle check) works at ["_credential_"] and neither reads nor
    writes the cooldown map: it commutes with replacing that map by any
    other. *)
Theorem C10_sentinels_are_distinct
    te state reason update group_key model quota_group global cooldowns o :
  FairCycleConfig.tracking_mode
    (ProviderUsageConfig.fair_cycle (TrackingEngine._config te))
  = TrackingMode.CREDENTIAL ->
  let fc := ProviderUsageConfig.fair_cycle (TrackingEngine._config te) in
  let wm := TrackingEngine._windows te in
  let key := _resolve_fair_cycle_key te group_key in
  let with_cooldowns s := CredentialState.set_cooldowns s cooldowns in
  (* the sentinels *)
  (py_or_str None "_global_" = "_global_"
   /\ key = "_credential_"
   /\ _resolve_tracking_key fc model quota_group = "_credential_"
   /\ key <> "_global_")
  (* clear_cooldown with no scope *)
  /\ (CredentialState.cooldowns (clear_cooldown state None)
      = delete "_global_" (CredentialState.cooldowns state)
      /\ (forall k, k <> "_global_" ->
            CredentialState.cooldowns (clear_cooldown state None) !! k
            = CredentialState.cooldowns state !! k)
      /\ CredentialState.fair_cycle (clear_cooldown state None)
         = CredentialState.fair_cycle state)
  (* fair-cycle bookkeeping does not touch the cooldown map *)
  /\ (fst (mark_exhausted (with_cooldowns state) key reason o)
      = with_cooldowns (fst (mark_exhausted state key reason o))
      /\ reset_fair_cycle (with_cooldowns state) key
         = with_cooldowns (reset_fair_cycle state key)
      /\ count_cycle_requests te (with_cooldowns state) key update
         = with_cooldowns (count_cycle_requests te state key update)
      /\ (let r := FairCycleChecker_check fc wm state model quota_group
                     global o in
          FairCycleChecker_check fc wm (with_cooldowns state) model
                                 quota_group global o
          = (fst (fst (fst r)), with_cooldowns (snd (fst (fst r))),
             snd (fst r), snd r))).
Proof.
  intros Hmode fc wm key with_cooldowns.
  assert (Hkey : key = "_credential_").
  { subst key. unfold _resolve_fair_cycle_key. rewrite Hmode. reflexivity. }
  split; [|split].
  - repeat split.
    + exact Hkey.
    + unfold _resolve_tracking_key. fold fc in Hmode. rewrite Hmode.
      reflexivity.
    + rewrite Hkey. discriminate.
  - unfold clear_cooldown. simpl py_or_str.
    destruct (CredentialState.cooldowns state !! "_global_") eqn:E; simpl.
    + repeat split. intros k Hk. apply lookup_delete_ne. congruence.
    + repeat split. symmetry. apply delete_id. exact E.
  - repeat split.
    + apply _mark_exhausted_ignores_cooldowns.
    + unfold reset_fair_cycle, with_cooldowns. simpl.
      destruct (CredentialState.fair_cycle state !! key); reflexivity.
    + unfold count_cycle_requests, with_cooldowns.
      destruct (FairCycleConfig.is_enabled _); reflexivity.
    + apply FairCycleChecker_check_ignores_cooldowns.
Qed.

(** ** Limit engine *)

(** Running the checkers [pre ++ rest] is running [pre] and, if none of
    them blocks, running [rest] from where [pre] left off. *)
Lemma check_all_loop_app le pre rest model quota_group :
  forall state global o,
    check_all_loop le (pre ++ rest) state model quota_group global o
    = let '(r, state1, global1, o1) :=
        check_all_loop le pre state model quota_group global o in
      if LimitCheckResult.allowed r
      then check_all_loop le rest state1 model quota_group global1 o1
      else (r, state1, global1, o1).
Proof.
  induction pre as [|c pre IH]; intros state global o.
  - reflexivity.
  - simpl. unfold mbind, M_bind.
    destruct (Checker_check le c state model quota_group global o)
      as [[[r1 s1] g1] o1].
    destruct (LimitCheckResult.allowed r1) eqn:E.
    + apply IH.
    + unfold mret, M_ret. rewrite E. reflexivity.
Qed.

(** C1. The engine built by [__init__] holds its checkers in the order
    concurrent, cooldowns, window limits (only when
    [window_limits_enabled]), custom caps, fair cycle. Whenever the
    checkers before one of them all allow and that one blocks, [check_all]
    returns that checker's result, and the credential, the fair-cycle
    global state and the oracle counters are as that checker left them:
    no later checker is run. When that checker allows as well,
    [check_all] goes on with the checkers after it. *)
Theorem C1_first_blocking_checker_wins
    config wm state model quota_group global o pre checker post :
  let le := LimitEngine.init config wm in
  LimitEngine._checkers le = pre ++ checker :: post ->
  let before := check_all_loop le pre state model quota_group global o in
  let state1 := snd (fst (fst before)) in
  let global1 := snd (fst before) in
  let this := Checker_check le checker state1 model quota_group global1
                            (snd before) in
  LimitCheckResult.allowed (fst (fst (fst before))) = true ->
  LimitEngine._checkers le
  = [ConcurrentLimitChecker; CooldownChecker]
    ++ (if ProviderUsageConfig.window_limits_enabled config
        then [WindowLimitChecker] else [])
    ++ [CustomCapChecker; FairCycleChecker]
  /\ (LimitCheckResult.allowed (fst (fst (fst this))) = false ->
      check_all le state model quota_group global o = this)
  /\ (LimitCheckResult.allowed (fst (fst (fst this))) = true ->
      check_all le state model quota_group global o
      = check_all_loop le post (snd (fst (fst this))) model quota_group
                       (snd (fst this)) (snd this)).
Proof.
  intros le Hsplit before state1 global1 this Hbefore.
  split; [reflexivity|].
  unfold check_all. rewrite Hsplit, check_all_loop_app.
  subst this state1 global1. fold before.
  destruct before as [[[r0 s0] g0] o0]. simpl in Hbefore |- *.
  rewrite Hbefore. unfold mbind, M_bind.
  destruct (Checker_check le checker s0 model quota_group g0 o0)
    as [[[r1 s1] g1] o1]. simpl.
  split; intros E; rewrite E; reflexivity.
Qed.

(** ** Balanced strategy *)

Lemma foldr_max_ge (us : list Z) (d u : Z) :
  u ∈ us -> u <= foldr Z.max d us.
Proof.
  induction us as [|x us IH]; intros Hin.
  - inversion Hin.
  - simpl. apply elem_of_cons in Hin as [->|Hin]; [lia|].
    specialize (IH Hin). lia.
Qed.

(** With tolerance 0 every candidate of a tier, the most used one
    included, gets a weight of at least 1. *)
Lemma _calculate_weights_tolerance_zero candidates usage_counts :
  Forall (fun w => (1 <= w)%Q) (_calculate_weights 0 candidates usage_counts).
Proof.
  unfold _calculate_weights. destruct candidates as [|c cs]; [constructor|].
  set (usages := map (fun sid => default 0 (usage_counts !! sid)) (c :: cs)).
  apply Forall_forall. intros w Hw.
  apply list_elem_of_fmap in Hw as (u & -> & Hu).
  pose proof (foldr_max_ge usages (hd 0 usages) u Hu) as Hmax.
  assert (0 <= inject_Z (foldr Z.max (hd 0%Z usages) usages - u)%Z)%Q.
  { rewrite <- (Zle_Qle 0). lia. }
  eapply Qle_trans; [|apply Q.le_max_l]. lra.
Qed.

(** ** Selection returns a candidate *)

Lemma sorted_insert_elem {A K} (lt : K -> K -> bool) (key : A -> K) x y l :
  y ∈ sorted_insert lt key x l -> y = x \/ y ∈ l.
Proof.
  induction l as [|z l IH]; simpl; intros H.
  - apply list_elem_of_singleton in H. auto.
  - destruct (lt (key z) (key x)).
    + apply elem_of_cons in H as [->|H].
      * right. left.
      * destruct (IH H) as [->|Hl]; [auto|]. right. right. exact Hl.
    + apply elem_of_cons in H as [->|H]; auto.
Qed.

Lemma py_sorted_elem {A K} (lt : K -> K -> bool) (key : A -> K) y l :
  y ∈ py_sorted lt key l -> y ∈ l.
Proof.
  induction l as [|x l IH]; simpl; intros H.
  - exact H.
  - apply sorted_insert_elem in H as [->|H]; [left|right; auto].
Qed.

(** Every member of a group is an element that was grouped. *)
Lemma setdefault_append_elem {A} (groups : list (Z * list A)) p x q xs y :
  (q, xs) ∈ setdefault_append groups p x -> y ∈ xs ->
  y = x \/ exists q' xs', (q', xs') ∈ groups /\ y ∈ xs'.
Proof.
  induction groups as [|[q0 xs0] groups IH]; simpl; intros Hin Hy.
  - apply list_elem_of_singleton in Hin. inversion Hin; subst.
    apply list_elem_of_singleton in Hy. auto.
  - destruct (Z.eqb q0 p).
    + apply elem_of_cons in Hin as [Heq|Hin].
      * inversion Heq; subst. apply elem_of_app in Hy as [Hy|Hy].
        -- right. exists q0, xs0. split; [left|exact Hy].
        -- apply list_elem_of_singleton in Hy. auto.
      * right. exists q, xs. split; [right; exact Hin|exact Hy].
    + apply elem_of_cons in Hin as [Heq|Hin].
      * inversion Heq; subst. right. exists q0, xs0. split; [left|exact Hy].
      * destruct (IH Hin Hy) as [->|(q' & xs' & Hg & Hy')]; [auto|].
        right. exists q', xs'. split; [right; exact Hg|exact Hy'].
Qed.

Lemma group_by_priority_elem {A} (key : A -> Z) (l : list A) q xs y :
  (q, xs) ∈ group_by_priority key l -> y ∈ xs -> y ∈ l.
Proof.
  unfold group_by_priority.
  assert (H : forall groups,
             (q, xs) ∈ fold_left
                         (fun groups x => setdefault_append groups (key x) x)
                         l groups ->
             y ∈ xs ->
             y ∈ l \/ exists q' xs', (q', xs') ∈ groups /\ y ∈ xs').
  { induction l as [|x l IH]; simpl; intros groups Hin Hy.
    - right. eauto.
    - destruct (IH _ Hin Hy) as [Hl|(q' & xs' & Hg & Hy')].
      + left. right. exact Hl.
      + destruct (setdefault_append_elem _ _ _ _ _ _ Hg Hy')
          as [->|Hold]; [left; left | right; exact Hold]. }
  intros Hin Hy. destruct (H [] Hin Hy) as [Hl|(q' & xs' & Hg & _)].
  - exact Hl.
  - inversion Hg.
Qed.

Lemma weighted_loop_elem r cumulative pairs c :
  weighted_loop r cumulative pairs = Some c -> c ∈ pairs.*1.
Proof.
  revert cumulative. induction pairs as [|[x w] pairs IH]; simpl; intros cum H.
  - discriminate.
  - destruct (Qle_bool r (cum + w)).
    + inversion H; subst. left.
    + right. eapply IH. exact H.
Qed.

Lemma _weighted_random_choice_elem candidates weights o c :
  fst (_weighted_random_choice candidates weights o) = Some c ->
  c ∈ candidates.
Proof.
  unfold _weighted_random_choice.
  destruct candidates as [|c1 [|c2 cs]]; simpl.
  - discriminate.
  - intros H. inversion H; subst. left.
  - destruct (Qle_bool _ 0).
    + unfold random_choice. simpl. intros H.
      apply list_elem_of_lookup_2 in H. exact H.
    + unfold mbind, M_bind, random_uniform.
      destruct (weighted_loop _ 0 _) as [c'|] eqn:E; simpl; intros H.
      * inversion H; subst. apply weighted_loop_elem in E.
        apply list_elem_of_fmap in E as ([x w] & -> & Hin).
        eapply elem_of_zip_l. exact Hin.
      * apply last_Some_elem_of in H. right. exact H.
Qed.

Lemma balanced_tier_loop_elem tolerance usage_counts tiers : forall o c,
  fst (balanced_tier_loop tolerance usage_counts tiers o) = Some c ->
  exists q xs, (q, xs) ∈ tiers /\ c ∈ xs.
Proof.
  induction tiers as [|[q xs] tiers IH]; simpl; intros o c H.
  - discriminate.
  - destruct xs as [|x xs].
    + destruct (IH o c H) as (q' & xs' & Hin & Hc).
      exists q', xs'. split; [right; exact Hin|exact Hc].
    + unfold mbind, M_bind in H.
      destruct (_weighted_random_choice (x :: xs) _ o) as [sel o1] eqn:E.
      destruct (py_opt_str_truthy sel).
      * simpl in H. subst sel. exists q, (x :: xs). split; [left|].
        eapply _weighted_random_choice_elem. rewrite E. reflexivity.
      * destruct (IH o1 c H) as (q' & xs' & Hin & Hc).
        exists q', xs'. split; [right; exact Hin|exact Hc].
Qed.

Lemma BalancedStrategy_select_elem tolerance context o c :
  fst (BalancedStrategy_select tolerance context o) = Some c ->
  c ∈ SelectionContext.candidates context.
Proof.
  unfold BalancedStrategy_select.
  destruct (SelectionContext.candidates context) as [|c1 [|c2 cs]] eqn:Hc;
    simpl.
  - discriminate.
  - intros H. inversion H; subst. left.
  - unfold mbind, M_bind.
    destruct (balanced_tier_loop _ _ _ o) as [[s|] o1] eqn:E; simpl;
      intros H; inversion H; subst; [|left].
    assert (Hs : fst (balanced_tier_loop tolerance
                        (SelectionContext.usage_counts context)
                        (py_sorted Z.ltb fst
                           (_group_by_priority (c1 :: c2 :: cs)
                              (SelectionContext.priorities context))) o)
                 = Some c) by (rewrite E; reflexivity).
    apply balanced_tier_loop_elem in Hs as (q & xs & Hin & Hx).
    apply py_sorted_elem in Hin.
    eapply group_by_priority_elem; eassumption.
Qed.

Lemma SequentialStrategy_select_elem context states current c :
  fst (SequentialStrategy_select context states current) = Some c ->
  c ∈ SelectionContext.candidates context.
Proof.
  unfold SequentialStrategy_select.
  destruct (SelectionContext.candidates context) as [|c1 [|c2 cs]] eqn:Hc;
    simpl.
  - discriminate.
  - intros H. inversion H; subst. left.
  - set (key := (SelectionContext.provider context,
                 py_or_str (SelectionContext.quota_group context)
                           (SelectionContext.model context))).
    destruct (current !! key) as [cur|] eqn:Ecur.
    + destruct (py_str_truthy cur
                && bool_decide (cur ∈ c1 :: c2 :: cs)) eqn:Est.
      * simpl. intros H. inversion H; subst.
        apply andb_true_iff in Est as [_ Hin].
        apply bool_decide_eq_true in Hin. exact Hin.
      * destruct (_select_by_priority _ _ _ _) as [s|] eqn:Es;
          [|discriminate].
        intros H.
        assert (s = c) by (destruct (py_str_truthy s); inversion H; auto).
        subst s. unfold _select_by_priority in Es.
        apply head_Some_elem_of in Es. apply py_sorted_elem in Es. exact Es.
    + destruct (_select_by_priority _ _ _ _) as [s|] eqn:Es; [|discriminate].
      intros H.
      assert (s = c) by (destruct (py_str_truthy s); inversion H; auto).
      subst s. unfold _select_by_priority in Es.
      apply head_Some_elem_of in Es. apply py_sorted_elem in Es. exact Es.
Qed.

Lemma filter_available_elem se model quota_group candidates : forall w o sid,
  sid ∈ fst (fst (filter_available se model quota_group candidates w o)) ->
  sid ∈ candidates.
Proof.
  induction candidates as [|c cs IH]; simpl; intros w o sid H.
  - exact H.
  - destruct (odict_get (w_states w) c) as [state|].
    + unfold mbind, M_bind in H.
      destruct (check_all _ state model quota_group (w_global w) o)
        as [[[r s1] g1] o1].
      destruct (filter_available se model quota_group cs _ o1)
        as [[av w2] o2] eqn:E.
      assert (Hav : forall x, x ∈ av -> x ∈ cs).
      { intros x Hx. eapply IH. rewrite E. exact Hx. }
      simpl in H. destruct (LimitCheckResult.allowed r).
      * apply elem_of_cons in H as [->|H]; [left|right; auto].
      * right. auto.
    + right. eapply IH. exact H.
Qed.

(** C9. Whatever the clock, the random draws, the strategy (balanced or
    sequential) and the number of retries after fair-cycle resets, a
    stable id that [select] returns is not in [exclude]; so
    [select_with_retry] never returns an id that is in [tried]. *)
Theorem C9_select_never_returns_excluded
    fuel se provider model quota_group exclude priorities deadline :
  forall w o sid,
    fst (fst (select fuel se provider model quota_group exclude priorities
                     deadline w o)) = Returned (Some sid) ->
    sid ∉ default (∅ : gset string) exclude.
Proof.
  induction fuel as [|fuel IH]; intros w o sid H.
  - discriminate.
  - simpl in H.
    set (excluded := default (∅ : gset string) exclude) in *.
    destruct (filter (fun sid => sid ∉ excluded) (odict_keys (w_states w)))
      as [|c cs] eqn:Hcand; [discriminate|].
    unfold mbind, M_bind in H.
    destruct (filter_available se model quota_group (c :: cs) w o)
      as [[available w1] o1] eqn:Hav.
    assert (Hsub : forall x, x ∈ available -> x ∉ excluded).
    { intros x Hx.
      assert (Hc : x ∈ c :: cs).
      { eapply filter_available_elem. rewrite Hav. exact Hx. }
      rewrite <- Hcand in Hc. apply list_elem_of_filter in Hc as [Hn _].
      exact Hn. }
    destruct available as [|a av].
    + destruct (FairCycleConfig.is_enabled _); [|discriminate].
      destruct (_try_fair_cycle_reset se provider model quota_group (c :: cs)
                  priorities w1 o1) as [[[] w2] o2]; [|discriminate].
      eapply IH. exact H.
    + destruct (usage_counts_loop se model quota_group (a :: av) w1 ∅ o1)
        as [usage_counts o2].
      assert (Hstrategy :
                forall ctx o3 r,
                  SelectionContext.candidates ctx = a :: av ->
                  fst (fst (match ProviderUsageConfig.rotation_mode
                                    (SelectionEngine._config se) with
                            | RotationMode.BALANCED =>
                                fun o : Oracle =>
                                  let (s, o') :=
                                    BalancedStrategy_select
                                      (ProviderUsageConfig.rotation_tolerance
                                         (SelectionEngine._config se)) ctx o in
                                  (Returned s, w1, o')
                            | RotationMode.SEQUENTIAL =>
                                let '(selected, current) :=
                                  SequentialStrategy_select ctx (w_states w1)
                                                            (w_current w1) in
                                fun o : Oracle =>
                                  (Returned selected,
                                   mkWorld (w_states w1) (w_global w1)
                                           current, o)
                            end o3)) = Returned (Some r) ->
                  r ∉ excluded).
      { intros ctx o3 r Hctx Hr. apply Hsub. rewrite <- Hctx.
        revert Hr.
        destruct (ProviderUsageConfig.rotation_mode
                    (SelectionEngine._config se)); intros Hr.
        - destruct (BalancedStrategy_select
                      (ProviderUsageConfig.rotation_tolerance
                         (SelectionEngine._config se)) ctx o3)
            as [sel o4] eqn:Eb.
          simpl in Hr. inversion Hr; subst sel.
          apply (BalancedStrategy_select_elem
                   (ProviderUsageConfig.rotation_tolerance
                      (SelectionEngine._config se)) ctx o3 r).
          rewrite Eb. reflexivity.
        - destruct (SequentialStrategy_select ctx (w_states w1) (w_current w1))
            as [sel cur] eqn:Es.
          simpl in Hr. inversion Hr; subst sel.
          apply (SequentialStrategy_select_elem _ (w_states w1)
                   (w_current w1)).
          rewrite Es. reflexivity. }
      destruct (Qeq_bool deadline 0).
      * unfold time_time, mret, M_ret in H.
        eapply Hstrategy; [|exact H]. reflexivity.
      * unfold mret, M_ret in H.
        eapply Hstrategy; [|exact H]. reflexivity.
Qed.

(** ** What a check leaves alone *)

Lemma set_fair_cycle_same state :
  CredentialState.set_fair_cycle state (CredentialState.fair_cycle state) = state.
Proof. destruct state; reflexivity. Qed.

Lemma only_fair_cycle_differs_refl state : only_fair_cycle_differs state state.
Proof.
  exists (CredentialState.fair_cycle state). symmetry.
  apply set_fair_cycle_same.
Qed.

Lemma only_fair_cycle_differs_trans s1 s2 s3 :
  only_fair_cycle_differs s1 s2 -> only_fair_cycle_differs s2 s3 ->
  only_fair_cycle_differs s1 s3.
Proof. intros [f1 ->] [f2 ->]. exists f2. reflexivity. Qed.

Lemma FairCycleChecker_check_frame fc wm state model quota_group global o :
  only_fair_cycle_differs state
    (snd (fst (fst (FairCycleChecker_check fc wm state model quota_group
                      global o)))).
Proof.
  unfold FairCycleChecker_check.
  destruct (negb (FairCycleConfig.is_enabled fc));
    [apply only_fair_cycle_differs_refl|].
  unfold mbind, M_bind.
  match goal with
  | |- context [let (a, o') := ?m o in _] =>
      assert (Hs : only_fair_cycle_differs state (fst (m o)));
      [|destruct (m o) as [state1 o1]; simpl in Hs]
  end.
  { destruct (CredentialState.fair_cycle state !! _) as [fs|];
      [|apply only_fair_cycle_differs_refl].
    destruct (negb (FairCycleState.exhausted fs));
      [|apply only_fair_cycle_differs_refl].
    destruct (_get_quota_limit wm state model quota_group o) as [[ql|] o1];
      [|apply only_fair_cycle_differs_refl].
    destruct (_ <=? _); [|apply only_fair_cycle_differs_refl].
    unfold time_time, mret, M_ret. simpl. eexists. reflexivity. }
  destruct (CredentialState.fair_cycle state1 !! _) as [fs|]; [|exact Hs].
  destruct (negb (FairCycleState.exhausted fs)); [exact Hs|].
  destruct (_get_global_state global _ _ o1) as [[g global1] o2].
  destruct (_should_reset_cycle fc g o2) as [[|] o3]; exact Hs.
Qed.

Lemma Checker_check_frame le checker state model quota_group global o :
  only_fair_cycle_differs state
    (snd (fst (fst (Checker_check le checker state model quota_group
                      global o)))).
Proof.
  destruct checker; simpl; unfold mbind, M_bind, mret, M_ret;
    try apply only_fair_cycle_differs_refl;
    try (match goal with
         | |- context [let (a, o') := ?m in _] => destruct m
         end; apply only_fair_cycle_differs_refl).
  apply FairCycleChecker_check_frame.
Qed.

Lemma check_all_loop_frame le model quota_group checkers :
  forall state global o,
    only_fair_cycle_differs state
      (snd (fst (fst (check_all_loop le checkers state model quota_group
                        global o)))).
Proof.
  induction checkers as [|c rest IH]; intros state global o.
  - apply only_fair_cycle_differs_refl.
  - simpl. unfold mbind, M_bind.
    pose proof (Checker_check_frame le c state model quota_group global o)
      as Hc.
    destruct (Checker_check le c state model quota_group global o)
      as [[[r state1] global1] o1]. simpl in Hc.
    destruct (LimitCheckResult.allowed r); [|exact Hc].
    eapply only_fair_cycle_differs_trans; [exact Hc|apply IH].
Qed.

(** ** Fair-cycle reset *)

Lemma oracle_free_ret {A} (a : A) : oracle_free (mret a).
Proof. intros o o'. reflexivity. Qed.

Lemma oracle_free_bind {A B} (m : M A) (f : A -> M B) :
  oracle_free m -> (forall a, oracle_free (f a)) -> oracle_free (m ≫= f).
Proof.
  intros Hm Hf o o'. unfold mbind, M_bind.
  specialize (Hm o o').
  destruct (m o) as [a o1], (m o') as [a' o1']. simpl in Hm. subst a'.
  apply Hf.
Qed.

Section Frozen.

(** The clock stands still at [now] while a selection runs. *)
Variable now : Q.
Hypothesis Hclock : forall n, clock n = now.

Lemma time_time_frozen o : fst (time_time o) = now.
Proof. unfold time_time. simpl. apply Hclock. Qed.

Lemma oracle_free_time : oracle_free time_time.
Proof. intros o o'. rewrite !time_time_frozen. reflexivity. Qed.

Create HintDb ofree.

Ltac oracle_free_step :=
  first
    [ solve [auto 1 with ofree nocore]
    | apply oracle_free_ret
    | apply oracle_free_time
    | apply oracle_free_bind; [|intros ?]
    | match goal with
      | |- oracle_free (match ?x with _ => _ end) => destruct x
      end
    | assumption ].

Ltac oracle_free := repeat oracle_free_step.

Lemma _should_reset_free wm window definition :
  oracle_free (_should_reset wm window definition).
Proof. unfold _should_reset. oracle_free. Qed.
#[local] Hint Resolve _should_reset_free : ofree.

Lemma get_active_window_free wm windows window_name :
  oracle_free (get_active_window wm windows window_name).
Proof.
  unfold get_active_window. oracle_free.
Qed.
#[local] Hint Resolve get_active_window_free : ofree.

Lemma get_primary_window_free wm windows :
  oracle_free (get_primary_window wm windows).
Proof.
  unfold get_primary_window. oracle_free.
Qed.
#[local] Hint Resolve get_primary_window_free : ofree.

Lemma remaining_seconds_free c : oracle_free (remaining_seconds c).
Proof. unfold remaining_seconds. oracle_free. Qed.
#[local] Hint Resolve remaining_seconds_free : ofree.

Lemma cooldown_check_keys_free state t keys :
  oracle_free (cooldown_check_keys state t keys).
Proof.
  induction keys as [|key rest IH]; simpl; oracle_free.
Qed.
#[local] Hint Resolve cooldown_check_keys_free : ofree.

Lemma CooldownChecker_check_free state model quota_group :
  oracle_free (CooldownChecker_check state model quota_group).
Proof.
  unfold CooldownChecker_check. oracle_free.
Qed.
#[local] Hint Resolve CooldownChecker_check_free : ofree.

Lemma window_limit_loop_free wm state model group_key defs :
  oracle_free (window_limit_loop wm state model group_key defs).
Proof.
  induction defs as [|definition rest IH]; simpl; oracle_free.
Qed.
#[local] Hint Resolve window_limit_loop_free : ofree.

Lemma _calculate_cooldown_until_free cap window :
  oracle_free (_calculate_cooldown_until cap window).
Proof. unfold _calculate_cooldown_until. oracle_free. Qed.
#[local] Hint Resolve _calculate_cooldown_until_free : ofree.

Lemma _check_single_cap_free wm state cap scope scope_key :
  oracle_free (_check_single_cap wm state cap scope scope_key).
Proof.
  unfold _check_single_cap. oracle_free.
Qed.
#[local] Hint Resolve _check_single_cap_free : ofree.

Lemma custom_cap_loop_free wm state all_caps :
  oracle_free (custom_cap_loop wm state all_caps).
Proof.
  induction all_caps as [|[[cap scope] scope_key] rest IH]; simpl; oracle_free.
Qed.
#[local] Hint Resolve custom_cap_loop_free : ofree.

Lemma CustomCapChecker_check_free caps wm state model quota_group :
  oracle_free (CustomCapChecker_check caps wm state model quota_group).
Proof.
  unfold CustomCapChecker_check. oracle_free.
Qed.
#[local] Hint Resolve CustomCapChecker_check_free : ofree.

Lemma _get_quota_limit_free wm state model quota_group :
  oracle_free (_get_quota_limit wm state model quota_group).
Proof.
  unfold _get_quota_limit. oracle_free.
Qed.
#[local] Hint Resolve _get_quota_limit_free : ofree.

Lemma Checker_check_earlier le checker state model quota_group global o :
  checker <> FairCycleChecker ->
  Checker_check le checker state model quota_group global o
  = let (r, o') := earlier_check le checker state model quota_group o in
    (r, state, global, o').
Proof.
  intros Hc.
  destruct checker; try congruence; simpl;
    unfold mbind, M_bind, mret, M_ret; reflexivity.
Qed.

Lemma check_all_loop_earlier le checkers model quota_group :
  FairCycleChecker ∉ checkers ->
  forall state global o,
    check_all_loop le checkers state model quota_group global o
    = let (r, o') := earlier_checks le checkers state model quota_group o in
      (r, state, global, o').
Proof.
  induction checkers as [|c rest IH]; intros Hnot state global o.
  - reflexivity.
  - simpl. unfold mbind, M_bind.
    rewrite Checker_check_earlier
      by (intros ->; apply Hnot; left).
    destruct (earlier_check le c state model quota_group o) as [r o1].
    destruct (LimitCheckResult.allowed r) eqn:E.
    + apply IH. intros H. apply Hnot. right. exact H.
    + reflexivity.
Qed.

Lemma earlier_check_free le checker state model quota_group :
  checker <> FairCycleChecker ->
  oracle_free (earlier_check le checker state model quota_group).
Proof.
  intros Hc. destruct checker; try congruence; simpl; oracle_free.
  unfold WindowLimitChecker_check. oracle_free.
Qed.

Lemma earlier_checks_free le checkers state model quota_group :
  FairCycleChecker ∉ checkers ->
  oracle_free (earlier_checks le checkers state model quota_group).
Proof.
  induction checkers as [|c rest IH]; intros Hnot; simpl.
  - apply oracle_free_ret.
  - apply oracle_free_bind.
    + apply earlier_check_free. intros ->. apply Hnot. left.
    + intros r. destruct (LimitCheckResult.allowed r).
      * apply IH. intros H. apply Hnot. right. exact H.
      * apply oracle_free_ret.
Qed.

Lemma checkers_before_fair_cycle_not config :
  FairCycleChecker ∉ checkers_before_fair_cycle config.
Proof.
  unfold checkers_before_fair_cycle.
  destruct (ProviderUsageConfig.window_limits_enabled config); simpl;
    intros H; repeat (apply elem_of_cons in H as [H|H]; [discriminate|]);
    inversion H.
Qed.

Lemma verdict_before_fair_cycle_free le state model quota_group o o' :
  verdict_before_fair_cycle le state model quota_group o
  = verdict_before_fair_cycle le state model quota_group o'.
Proof.
  apply earlier_checks_free, checkers_before_fair_cycle_not.
Qed.

(** The checkers before the fair-cycle checker do not read the fair-cycle
    records of the credential. *)
Lemma cooldown_check_keys_ignores_fair_cycle state f t keys :
  cooldown_check_keys (CredentialState.set_fair_cycle state f) t keys
  = cooldown_check_keys state t keys.
Proof.
  induction keys as [|key rest IH]; simpl; [reflexivity|].
  rewrite IH. reflexivity.
Qed.

Lemma window_limit_loop_ignores_fair_cycle wm state f model group_key defs :
  window_limit_loop wm (CredentialState.set_fair_cycle state f) model
                    group_key defs
  = window_limit_loop wm state model group_key defs.
Proof.
  induction defs as [|definition rest IH]; simpl; [reflexivity|].
  rewrite IH. reflexivity.
Qed.

Lemma custom_cap_loop_ignores_fair_cycle wm state f all_caps :
  custom_cap_loop wm (CredentialState.set_fair_cycle state f) all_caps
  = custom_cap_loop wm state all_caps.
Proof.
  induction all_caps as [|[[cap scope] scope_key] rest IH]; simpl;
    [reflexivity|].
  rewrite IH. reflexivity.
Qed.

Lemma earlier_check_ignores_fair_cycle le checker state f model quota_group o :
  checker <> FairCycleChecker ->
  earlier_check le checker (CredentialState.set_fair_cycle state f) model
                quota_group o
  = earlier_check le checker state model quota_group o.
Proof.
  intros Hc. unfold earlier_check.
  destruct checker; try congruence; simpl; try reflexivity.
  - unfold CooldownChecker_check, mbind, M_bind, time_time. simpl.
    rewrite cooldown_check_keys_ignores_fair_cycle. reflexivity.
  - unfold WindowLimitChecker_check.
    rewrite window_limit_loop_ignores_fair_cycle. reflexivity.
  - unfold CustomCapChecker_check.
    destruct (ProviderUsageConfig.custom_caps (LimitEngine._config le));
      [reflexivity|].
    destruct (get_primary_definition _); [|reflexivity].
    rewrite custom_cap_loop_ignores_fair_cycle. reflexivity.
Qed.

Lemma earlier_checks_ignores_fair_cycle le checkers state f model quota_group :
  FairCycleChecker ∉ checkers ->
  forall o,
    earlier_checks le checkers (CredentialState.set_fair_cycle state f) model
                   quota_group o
    = earlier_checks le checkers state model quota_group o.
Proof.
  induction checkers as [|c rest IH]; intros Hnot o; simpl; [reflexivity|].
  unfold mbind, M_bind.
  rewrite earlier_check_ignores_fair_cycle
    by (intros ->; apply Hnot; left).
  destruct (earlier_check le c state model quota_group o) as [r o1].
  destruct (LimitCheckResult.allowed r); [|reflexivity].
  apply IH. intros H; apply Hnot; right; exact H.
Qed.

Lemma _get_global_state_frozen fc key global provider o :
  (0 < FairCycleConfig.duration fc)%Z ->
  cycle_live fc key now global ->
  exists g global' o',
    _get_global_state global provider key o = (g, global', o')
    /\ (now < GlobalFairCycleState.cycle_start g
              + inject_Z (FairCycleConfig.duration fc))%Q
    /\ cycle_live fc key now global'
    /\ (forall p k, cycle_count_of global' p k = cycle_count_of global p k).
Proof.
  intros Hdur Hlive.
  assert (Hnew : (now < now + inject_Z (FairCycleConfig.duration fc))%Q).
  { assert (0 < inject_Z (FairCycleConfig.duration fc))%Q
      by (unfold Qlt; simpl; lia).
    lra. }
  unfold _get_global_state.
  destruct (global !! provider) as [groups|] eqn:Ep.
  - rewrite Ep. simpl.
    destruct (groups !! key) as [g|] eqn:Ek.
    + exists g, global, o. repeat split; eauto.
    + unfold mbind, M_bind, mret, M_ret, time_time. simpl. rewrite Hclock.
      eexists _, _, _. split; [reflexivity|]. split; [exact Hnew|]. split.
      * intros p gr g Hp Hg.
        destruct (decide (p = provider)) as [->|Hne].
        -- rewrite lookup_insert_eq in Hp. injection Hp as <-.
           rewrite lookup_insert_eq in Hg. injection Hg as <-. exact Hnew.
        -- rewrite lookup_insert_ne in Hp by congruence. eauto.
      * intros p k. unfold cycle_count_of.
        destruct (decide (p = provider)) as [->|Hne].
        -- rewrite lookup_insert_eq, Ep.
           destruct (decide (k = key)) as [->|Hk].
           ++ rewrite lookup_insert_eq, Ek. reflexivity.
           ++ rewrite lookup_insert_ne by congruence. reflexivity.
        -- rewrite lookup_insert_ne by congruence. reflexivity.
  - rewrite lookup_insert_eq. simpl. rewrite lookup_empty.
    unfold mbind, M_bind, mret, M_ret, time_time. simpl. rewrite Hclock.
    eexists _, _, _. split; [reflexivity|]. split; [exact Hnew|]. split.
    + intros p gr g Hp Hg.
      destruct (decide (p = provider)) as [->|Hne].
      * rewrite lookup_insert_eq in Hp. injection Hp as <-.
        rewrite lookup_insert_eq in Hg. injection Hg as <-. exact Hnew.
      * rewrite !lookup_insert_ne in Hp by congruence. eauto.
    + intros p k. unfold cycle_count_of.
      destruct (decide (p = provider)) as [->|Hne].
      * rewrite lookup_insert_eq, Ep.
        destruct (decide (k = key)) as [->|Hk].
        -- rewrite lookup_insert_eq. reflexivity.
        -- rewrite lookup_insert_ne by congruence. rewrite lookup_empty.
           reflexivity.
      * rewrite !lookup_insert_ne by congruence. reflexivity.
Qed.

(** An exhausted credential is blocked by the fair-cycle checker while
    the cycle is running; the check changes neither the credential nor a
    cycle count. *)
Lemma FairCycleChecker_check_exhausted fc wm state model quota_group global o :
  FairCycleConfig.is_enabled fc = true ->
  (0 < FairCycleConfig.duration fc)%Z ->
  CredentialState.is_fair_cycle_exhausted state
    (get_tracking_key fc model quota_group) = true ->
  cycle_live fc (get_tracking_key fc model quota_group) now global ->
  exists global' o',
    FairCycleChecker_check fc wm state model quota_group global o
    = (LimitCheckResult.blocked LimitResult.BLOCKED_FAIR_CYCLE
         (ReasonFairCycle (get_tracking_key fc model quota_group)) None,
       state, global', o')
    /\ cycle_live fc (get_tracking_key fc model quota_group) now global'
    /\ (forall p k, cycle_count_of global' p k = cycle_count_of global p k).
Proof.
  intros Hen Hdur Hex Hlive.
  unfold get_tracking_key in *.
  unfold FairCycleChecker_check. rewrite Hen. simpl.
  set (key := _resolve_tracking_key fc model quota_group) in *.
  unfold CredentialState.is_fair_cycle_exhausted in Hex.
  destruct (CredentialState.fair_cycle state !! key) as [fs|] eqn:E;
    [|discriminate].
  rewrite Hex. unfold mbind, M_bind, mret, M_ret. simpl. rewrite E, Hex. simpl.
  destruct (_get_global_state_frozen fc key global
              (CredentialState.provider state) o Hdur Hlive)
    as (g & global' & o' & Hg & Hnot & Hlive' & Hcount).
  rewrite Hg. unfold _should_reset_cycle, mbind, M_bind, mret, M_ret, time_time.
  simpl. rewrite Hclock.
  destruct (Qle_bool _ now) eqn:Hq.
  - apply Qle_bool_iff in Hq. lra.
  - eexists _, _. split; [reflexivity|]. split; assumption.
Qed.

Lemma LimitEngine_init_checkers config wm :
  LimitEngine._checkers (LimitEngine.init config wm)
  = checkers_before_fair_cycle config ++ [FairCycleChecker].
Proof.
  unfold checkers_before_fair_cycle. simpl.
  destruct (ProviderUsageConfig.window_limits_enabled config); reflexivity.
Qed.

Lemma check_all_exhausted_blocked config wm state model quota_group global o :
  let le := LimitEngine.init config wm in
  let fc := ProviderUsageConfig.fair_cycle config in
  let key := get_tracking_key fc model quota_group in
  FairCycleConfig.is_enabled fc = true ->
  (0 < FairCycleConfig.duration fc)%Z ->
  CredentialState.is_fair_cycle_exhausted state key = true ->
  cycle_live fc key now global ->
  exists r global' o',
    check_all le state model quota_group global o = (r, state, global', o')
    /\ LimitCheckResult.allowed r = false
    /\ (LimitCheckResult.allowed
          (verdict_before_fair_cycle le state model quota_group o) = true ->
        LimitCheckResult.result r = LimitResult.BLOCKED_FAIR_CYCLE)
    /\ cycle_live fc key now global'
    /\ (forall p k, cycle_count_of global' p k = cycle_count_of global p k).
Proof.
  intros le fc key Hen Hdur Hex Hlive.
  unfold check_all.
  change (LimitEngine._checkers le)
    with (LimitEngine._checkers (LimitEngine.init config wm)).
  rewrite LimitEngine_init_checkers.
  rewrite check_all_loop_app.
  rewrite check_all_loop_earlier by apply checkers_before_fair_cycle_not.
  unfold verdict_before_fair_cycle.
  change (LimitEngine._config le) with config.
  destruct (earlier_checks le (checkers_before_fair_cycle config) state model
              quota_group o) as [r o1] eqn:Hr.
  simpl fst.
  destruct (LimitCheckResult.allowed r) eqn:Hall.
  - simpl. unfold mbind, M_bind.
    destruct (FairCycleChecker_check_exhausted fc wm state model quota_group
                global o1 Hen Hdur Hex Hlive)
      as (global' & o' & Hc & Hlive' & Hcount).
    change (ProviderUsageConfig.fair_cycle (LimitEngine._config le)) with fc.
    change (LimitEngine._window_manager le) with wm.
    fold fc. rewrite Hc. simpl.
    eexists _, _, _. split; [reflexivity|]. repeat split; auto.
  - eexists _, _, _. split; [reflexivity|]. repeat split; auto.
    intros; discriminate.
Qed.

Lemma Qlt_bool_false (a b : Q) : Qlt_bool a b = false -> (b <= a)%Q.
Proof.
  unfold Qlt_bool. intros H. apply negb_false_iff in H.
  apply Qle_bool_iff. exact H.
Qed.

Lemma shortest_step_short threshold t state key shortest :
  short_found threshold (shortest_step t state key shortest)
  = short_found threshold shortest || short_cooldown_at threshold t state key.
Proof.
  unfold shortest_step, short_cooldown_at.
  destruct (CredentialState.cooldowns state !! key) as [c|];
    [|rewrite orb_false_r; reflexivity].
  destruct (Qlt_bool t (CooldownInfo.until c)) eqn:Ha; simpl;
    [|rewrite orb_false_r; reflexivity].
  destruct shortest as [[s|] id]; unfold short_found; simpl; [|reflexivity].
  destruct (Qlt_bool (CooldownInfo.until c - t) s) eqn:Hlt; simpl.
  - destruct (Qlt_bool s threshold) eqn:Hs; simpl; [|reflexivity].
    apply Qlt_bool_iff. apply Qlt_bool_iff in Hlt, Hs. lra.
  - destruct (Qlt_bool s threshold) eqn:Hs; simpl; [reflexivity|].
    destruct (Qlt_bool (CooldownInfo.until c - t) threshold) eqn:Hr;
      [|reflexivity].
    apply Qlt_bool_iff in Hr. apply Qlt_bool_false in Hlt, Hs. lra.
Qed.

Lemma fold_shortest_short threshold t group_key states : forall shortest,
  short_found threshold
    (fold_left
       (fun shortest state =>
          shortest_step t state "_global_"
            (shortest_step t state group_key shortest))
       states shortest)
  = short_found threshold shortest
    || existsb (has_short_cooldown threshold t group_key) states.
Proof.
  induction states as [|state rest IH]; intros shortest; simpl.
  - rewrite orb_false_r. reflexivity.
  - rewrite IH, !shortest_step_short. unfold has_short_cooldown.
    rewrite !orb_assoc. reflexivity.
Qed.

Lemma group_by_priority_const {A} (key : A -> Z) (l : list A) p :
  (forall x, x ∈ l -> key x = p) ->
  group_by_priority key l = match l with [] => [] | _ => [(p, l)] end.
Proof.
  assert (Hfold : forall l xs,
            (forall x, x ∈ l -> key x = p) ->
            fold_left (fun groups x => setdefault_append groups (key x) x)
                      l [(p, xs)] = [(p, xs ++ l)]).
  { clear l. induction l as [|x l IH]; intros xs Hkey; simpl.
    - rewrite app_nil_r. reflexivity.
    - rewrite (Hkey x) by left. rewrite Z.eqb_refl.
      rewrite IH by (intros y Hy; apply Hkey; right; exact Hy).
      rewrite <- app_assoc. reflexivity. }
  intros Hkey. destruct l as [|x l]; [reflexivity|].
  unfold group_by_priority. simpl. rewrite (Hkey x) by left.
  apply (Hfold l [x]). intros y Hy. apply Hkey. right. exact Hy.
Qed.

Lemma omap_filter_is_Some {A B} (f : A -> option B) (l : list A) :
  omap f (filter (fun x => is_Some (f x)) l) = omap f l.
Proof.
  induction l as [|x l IH]; [reflexivity|].
  rewrite filter_cons. destruct (decide (is_Some (f x))) as [[y Hy]|Hn].
  - simpl in *. rewrite Hy. f_equal. exact IH.
  - simpl in *. destruct (f x) eqn:E; [exfalso; apply Hn; eauto|]. exact IH.
Qed.

Lemma odict_set_same {V} (d : list (string * V)) k v :
  odict_get d k = Some v -> odict_set d k v = d.
Proof.
  induction d as [|[k' v'] d IH]; simpl; [discriminate|].
  destruct (String.eqb k' k) eqn:E.
  - intros [= ->]. reflexivity.
  - intros H. rewrite IH by exact H. reflexivity.
Qed.

Lemma same_pool_refl w : same_pool w w.
Proof. repeat split. Qed.

Lemma same_pool_trans w1 w2 w3 :
  same_pool w1 w2 -> same_pool w2 w3 -> same_pool w1 w3.
Proof.
  intros (Hs & Hc & Hn) (Hs' & Hc' & Hn').
  split; [congruence|]. split; [congruence|].
  intros p k. rewrite Hn', Hn. reflexivity.
Qed.

Lemma states_of_elem w ids sid state :
  sid ∈ ids -> odict_get (w_states w) sid = Some state ->
  state ∈ states_of w ids.
Proof.
  intros Hin Hget. unfold states_of. apply list_elem_of_omap. eauto.
Qed.

Lemma forallb_elem {A} (f : A -> bool) (l : list A) x :
  forallb f l = true -> x ∈ l -> f x = true.
Proof.
  intros H Hin. rewrite forallb_forall in H. apply H.
  apply list_elem_of_In. exact Hin.
Qed.

Section Pool.

Variable se : SelectionEngine.t.
Variable model : string.
Variable quota_group : option string.

(** The limit engine is the one built for the configuration of the
    selection engine; fair cycle is enabled, with a positive duration. *)
Hypothesis Hle :
  SelectionEngine._limits se
  = LimitEngine.init (SelectionEngine._config se) (SelectionEngine._windows se).
Hypothesis Hen : FairCycleConfig.is_enabled (fair_cycle_of se) = true.
Hypothesis Hdur : (0 < FairCycleConfig.duration (fair_cycle_of se))%Z.

Lemma check_all_pool state global o o0 :
  held se model quota_group o0 state = true ->
  cycle_live (fair_cycle_of se) (tracking_key_of se model quota_group) now
             global ->
  exists r global' o',
    check_all (SelectionEngine._limits se) state model quota_group global o
    = (r, state, global', o')
    /\ LimitCheckResult.allowed r = false
    /\ (CredentialState.is_fair_cycle_exhausted state
          (tracking_key_of se model quota_group) = true ->
        LimitCheckResult.allowed
          (verdict_before_fair_cycle (SelectionEngine._limits se) state model
                                     quota_group o) = true ->
        LimitCheckResult.result r = LimitResult.BLOCKED_FAIR_CYCLE)
    /\ cycle_live (fair_cycle_of se) (tracking_key_of se model quota_group)
                  now global'
    /\ (forall p k, cycle_count_of global' p k = cycle_count_of global p k).
Proof.
  intros Hheld Hlive. unfold held in Hheld.
  destruct (CredentialState.is_fair_cycle_exhausted state _) eqn:Hex.
  - rewrite Hle.
    destruct (check_all_exhausted_blocked (SelectionEngine._config se)
                (SelectionEngine._windows se) state model quota_group global o
                Hen Hdur Hex Hlive)
      as (r & global' & o' & Hc & Hall & Hfc & Hlive' & Hcount).
    exists r, global', o'. auto.
  - simpl in Hheld. apply negb_true_iff in Hheld.
    rewrite (verdict_before_fair_cycle_free _ _ _ _ o0 o) in Hheld.
    unfold verdict_before_fair_cycle in Hheld. revert Hheld.
    rewrite Hle. intros Hheld. simpl LimitEngine._config in Hheld.
    unfold check_all. rewrite LimitEngine_init_checkers.
    rewrite check_all_loop_app.
    rewrite check_all_loop_earlier by apply checkers_before_fair_cycle_not.
    destruct (earlier_checks _ _ state model quota_group o) as [r1 o1].
    simpl in Hheld. rewrite Hheld.
    exists r1, global, o1. split; [reflexivity|]. split; [exact Hheld|].
    split; [discriminate|]. split; [exact Hlive|reflexivity].
Qed.

Lemma filter_available_held o0 candidates : forall w o,
  forallb (held se model quota_group o0) (states_of w candidates) = true ->
  cycle_live (fair_cycle_of se) (tracking_key_of se model quota_group) now
             (w_global w) ->
  exists w' o',
    filter_available se model quota_group candidates w o = ([], w', o')
    /\ same_pool w w'
    /\ cycle_live (fair_cycle_of se) (tracking_key_of se model quota_group)
                  now (w_global w').
Proof.
  induction candidates as [|sid rest IH]; intros w o Hex Hlive.
  - exists w, o. split; [reflexivity|]. split; [apply same_pool_refl|exact Hlive].
  - simpl. unfold states_of in Hex. simpl in Hex.
    destruct (odict_get (w_states w) sid) as [state|] eqn:Hget.
    + simpl in Hex. apply andb_prop in Hex as [Hs Hrest].
      destruct (check_all_pool state (w_global w) o o0 Hs Hlive)
        as (r & global' & o1 & Hc & Hall & _ & Hlive' & Hcount).
      unfold mbind, M_bind. rewrite Hc. simpl.
      rewrite (odict_set_same _ _ _ Hget).
      destruct (IH (mkWorld (w_states w) global' (w_current w)) o1 Hrest Hlive')
        as (w' & o' & Hf & Hsame & Hlive'').
      rewrite Hf, Hall. exists w', o'. split; [reflexivity|].
      split; [|exact Hlive''].
      eapply same_pool_trans; [|exact Hsame].
      repeat split. exact Hcount.
    + apply IH; assumption.
Qed.

Lemma fair_cycle_blocked_loop_held o0 candidates : forall w o b n,
  forallb (held se model quota_group o0) (states_of w candidates) = true ->
  cycle_live (fair_cycle_of se) (tracking_key_of se model quota_group) now
             (w_global w) ->
  exists b' n' w' o',
    fair_cycle_blocked_loop se model quota_group candidates b n w o
    = (Some (b', n'), w', o')
    /\ (n <= n')%Z
    /\ (forall sid state o2,
          sid ∈ candidates -> odict_get (w_states w) sid = Some state ->
          CredentialState.is_fair_cycle_exhausted state
            (tracking_key_of se model quota_group) = true ->
          LimitCheckResult.allowed
            (verdict_before_fair_cycle (SelectionEngine._limits se) state
                                       model quota_group o2) = true ->
          (n < n')%Z)
    /\ same_pool w w'
    /\ cycle_live (fair_cycle_of se) (tracking_key_of se model quota_group)
                  now (w_global w').
Proof.
  induction candidates as [|sid rest IH]; intros w o b n Hex Hlive.
  - exists b, n, w, o. split; [reflexivity|]. split; [lia|].
    split; [intros ? ? ? H; inversion H|].
    split; [apply same_pool_refl|exact Hlive].
  - simpl. unfold states_of in Hex. simpl in Hex.
    destruct (odict_get (w_states w) sid) as [state|] eqn:Hget.
    + simpl in Hex. apply andb_prop in Hex as [Hs Hrest].
      destruct (check_all_pool state (w_global w) o o0 Hs Hlive)
        as (r & global' & o1 & Hc & Hall & Hfc & Hlive' & Hcount).
      unfold mbind, M_bind. rewrite Hc. simpl.
      rewrite (odict_set_same _ _ _ Hget). rewrite Hall.
      assert (Hsame1 : same_pool w (mkWorld (w_states w) global' (w_current w)))
        by (repeat split; exact Hcount).
      destruct (LimitResult.eqb (LimitCheckResult.result r)
                                LimitResult.BLOCKED_FAIR_CYCLE) eqn:Hr.
      * destruct (IH (mkWorld (w_states w) global' (w_current w)) o1 b
                     (n + 1)%Z Hrest Hlive')
          as (b' & n' & w' & o' & Hf & Hle' & Hlt & Hsame & Hlive'').
        rewrite Hf. exists b', n', w', o'. split; [reflexivity|].
        split; [lia|]. split; [intros; lia|].
        split; [eapply same_pool_trans; eassumption|exact Hlive''].
      * destruct (IH (mkWorld (w_states w) global' (w_current w)) o1 false
                     n Hrest Hlive')
          as (b' & n' & w' & o' & Hf & Hle' & Hlt & Hsame & Hlive'').
        rewrite Hf. exists b', n', w', o'. split; [reflexivity|].
        split; [lia|]. split.
        -- intros sid' state' o2 Hin Hget' Hex' Hv.
           apply elem_of_cons in Hin as [->|Hin].
           ++ rewrite Hget in Hget'. injection Hget' as <-.
              rewrite (verdict_before_fair_cycle_free _ _ _ _ o2 o) in Hv.
              rewrite (Hfc Hex' Hv) in Hr. discriminate.
           ++ eapply Hlt; eassumption.
        -- split; [eapply same_pool_trans; eassumption|exact Hlive''].
    + destruct (IH w o b n Hex Hlive)
        as (b' & n' & w' & o' & Hf & Hle' & Hlt & Hsame & Hlive'').
      rewrite Hf. exists b', n', w', o'. split; [reflexivity|].
      split; [lia|]. split.
      * intros sid' state' o2 Hin Hget' Hex' Hv.
        apply elem_of_cons in Hin as [->|Hin]; [congruence|].
        eapply Hlt; eassumption.
      * split; assumption.
Qed.

(** Exhausted credentials are held. *)
Lemma forallb_held o0 states :
  forallb (fun state =>
             CredentialState.is_fair_cycle_exhausted state
               (tracking_key_of se model quota_group))
          states = true ->
  forallb (held se model quota_group o0) states = true.
Proof.
  intros H. apply forallb_forall. intros state Hin.
  rewrite forallb_forall in H. unfold held. rewrite (H state Hin).
  reflexivity.
Qed.

Lemma _get_shortest_cooldown_short states group_key o :
  fst (fst (fst (_get_shortest_cooldown se states group_key o)))
  = existsb (has_short_cooldown (reset_threshold_of se) now group_key) states.
Proof.
  unfold _get_shortest_cooldown, mbind, M_bind, time_time. simpl.
  rewrite Hclock.
  pose proof (fold_shortest_short (reset_threshold_of se) now group_key
                states (None, None)) as H.
  simpl in H. rewrite <- H. clear H.
  destruct (fold_left _ states (None, None)) as [[s|] id]; simpl;
    [|reflexivity].
  unfold short_found, reset_threshold_of, fair_cycle_of. simpl.
  destruct (Qlt_bool s _); reflexivity.
Qed.

Lemma _try_fair_cycle_reset_short provider candidates priorities p w o :
  forallb (fun state =>
             CredentialState.is_fair_cycle_exhausted state
               (tracking_key_of se model quota_group))
          (states_of w candidates) = true ->
  cycle_live (fair_cycle_of se) (tracking_key_of se model quota_group) now
             (w_global w) ->
  existsb (has_short_cooldown (reset_threshold_of se) now
             (py_or_str quota_group model))
          (states_of w candidates) = true ->
  FairCycleConfig.cross_tier (fair_cycle_of se) = true
  \/ forallb (fun state => CredentialState.priority state =? p)%Z
             (states_of w candidates) = true ->
  exists w' o',
    _try_fair_cycle_reset se provider model quota_group candidates priorities
                          w o = (false, w', o')
    /\ same_pool w w'
    /\ cycle_live (fair_cycle_of se) (tracking_key_of se model quota_group)
                  now (w_global w').
Proof.
  intros Hex Hlive Hshort Htier.
  unfold _try_fair_cycle_reset, mbind, M_bind.
  destruct (fair_cycle_blocked_loop_held o candidates w o true 0
              (forallb_held o _ Hex) Hlive)
    as (b' & n' & w1 & o1 & Hloop & _ & _ & Hsame & Hlive1).
  rewrite Hloop.
  destruct (n' =? 0)%Z; [exists w1, o1; auto|].
  assert (Hst : states_of w1 candidates = states_of w candidates).
  { unfold states_of. destruct Hsame as (-> & _). reflexivity. }
  fold (fair_cycle_of se).
  destruct (FairCycleConfig.cross_tier (fair_cycle_of se)) eqn:Hcross.
  - rewrite Hst.
    destruct (check_all_exhausted _ _ _ _); [|exists w1, o1; auto].
    pose proof (_get_shortest_cooldown_short (states_of w candidates)
                  (py_or_str quota_group model) o1) as Hs.
    rewrite Hshort in Hs.
    destruct (_get_shortest_cooldown se (states_of w candidates) _ o1)
      as [[[hs id] rem] o2].
    simpl in Hs. subst hs. exists w1, o2. auto.
  - destruct Htier as [?|Htier]; [discriminate|].
    set (ids := filter (fun sid => is_Some (odict_get (w_states w1) sid))
                       candidates).
    assert (Hids : states_of w1 ids = states_of w candidates).
    { rewrite <- Hst. unfold states_of, ids. apply omap_filter_is_Some. }
    rewrite (group_by_priority_const _ ids p).
    + destruct ids as [|sid ids'] eqn:Eids; [exists w1, o1; auto|].
      rewrite <- Eids in *. simpl.
      rewrite Hids. fold (tracking_key_of se model quota_group).
      rewrite Hex.
      pose proof (_get_shortest_cooldown_short (states_of w candidates)
                    (py_or_str quota_group model) o1) as Hs.
      rewrite Hshort in Hs. unfold mbind, M_bind.
      destruct (_get_shortest_cooldown se (states_of w candidates) _ o1)
        as [[[hs id] rem] o2].
      simpl in Hs. subst hs. exists w1, o2. auto.
    + intros sid Hin. unfold ids in Hin.
      apply list_elem_of_filter in Hin as [[state Hget] Hin].
      rewrite Hget. simpl.
      assert (Hin' : state ∈ states_of w candidates).
      { rewrite <- Hst. eapply states_of_elem; eassumption. }
      apply (forallb_elem _ _ _ Htier) in Hin'.
      apply Z.eqb_eq in Hin'. exact Hin'.
Qed.

(** An exhausted pool of one tier (or with [cross_tier] set) in which a
    cooldown ends within the threshold: [select] returns [None] and
    changes no credential and no cycle count. *)
Lemma select_short_cooldown_pool
    fuel provider exclude priorities deadline p w o :
  let candidates := candidates_of exclude w in
  let key := tracking_key_of se model quota_group in
  forallb (fun state => CredentialState.is_fair_cycle_exhausted state key)
          (states_of w candidates) = true ->
  cycle_live (fair_cycle_of se) key now (w_global w) ->
  existsb (has_short_cooldown (reset_threshold_of se) now
             (py_or_str quota_group model))
          (states_of w candidates) = true ->
  FairCycleConfig.cross_tier (fair_cycle_of se) = true
  \/ forallb (fun state => CredentialState.priority state =? p)%Z
             (states_of w candidates) = true ->
  exists w' o',
    select (S fuel) se provider model quota_group exclude priorities deadline
           w o = (Returned None, w', o')
    /\ w_states w' = w_states w
    /\ (forall provider' key',
          cycle_count_of (w_global w') provider' key'
          = cycle_count_of (w_global w) provider' key').
Proof.
  intros candidates key Hex Hlive Hshort Htier.
  simpl.
  change (filter (fun sid => sid ∉ default ∅ exclude) (odict_keys (w_states w)))
    with candidates.
  destruct candidates as [|c cs] eqn:Hcand.
  - exists w, o. repeat split.
  - rewrite <- Hcand in *. unfold mbind, M_bind.
    destruct (filter_available_held o candidates w o (forallb_held o _ Hex)
                Hlive)
      as (w1 & o1 & Hf & Hsame1 & Hlive1).
    rewrite Hf. fold (fair_cycle_of se). rewrite Hen.
    assert (Hst : states_of w1 candidates = states_of w candidates).
    { unfold states_of. destruct Hsame1 as (-> & _). reflexivity. }
    rewrite <- Hst in Hex, Hshort, Htier.
    destruct (_try_fair_cycle_reset_short provider candidates priorities p w1 o1
                Hex Hlive1 Hshort Htier)
      as (w2 & o2 & Ht & Hsame2 & _).
    rewrite Ht. exists w2, o2. split; [reflexivity|].
    destruct (same_pool_trans _ _ _ Hsame1 Hsame2) as (Hs & _ & Hn).
    split; assumption.
Qed.

Lemma odict_get_set_eq {V} (d : list (string * V)) k v :
  odict_get (odict_set d k v) k = Some v.
Proof.
  induction d as [|[k' v'] d IH]; simpl.
  - rewrite String.eqb_refl. reflexivity.
  - destruct (String.eqb k' k) eqn:E; simpl; rewrite E; [reflexivity|exact IH].
Qed.

Lemma odict_get_set_ne {V} (d : list (string * V)) k k' v :
  k <> k' -> odict_get (odict_set d k v) k' = odict_get d k'.
Proof.
  intros Hne. induction d as [|[k0 v0] d IH]; simpl.
  - apply String.eqb_neq in Hne. rewrite Hne. reflexivity.
  - destruct (String.eqb k0 k) eqn:E; simpl.
    + apply String.eqb_eq in E. subst k0.
      apply String.eqb_neq in Hne. rewrite Hne. reflexivity.
    + rewrite IH. reflexivity.
Qed.

Lemma odict_keys_set {V} (d : list (string * V)) k v :
  is_Some (odict_get d k) -> odict_keys (odict_set d k v) = odict_keys d.
Proof.
  unfold odict_keys.
  induction d as [|[k' v'] d IH]; simpl; intros [x Hx]; [discriminate|].
  destruct (String.eqb k' k) eqn:E; simpl; [reflexivity|].
  rewrite IH by eauto. reflexivity.
Qed.

Lemma reset_fair_cycle_idem state key :
  reset_fair_cycle (reset_fair_cycle state key) key
  = reset_fair_cycle state key.
Proof.
  unfold reset_fair_cycle.
  destruct (CredentialState.fair_cycle state !! key) as [fs|] eqn:E.
  - simpl. rewrite lookup_insert_eq.
    unfold CredentialState.set_fair_cycle. simpl.
    rewrite insert_insert_eq. reflexivity.
  - rewrite E. reflexivity.
Qed.

Lemma reset_fair_cycle_cleared state key :
  CredentialState.is_fair_cycle_exhausted state key = true ->
  fair_cycle_cleared key state (reset_fair_cycle state key).
Proof.
  unfold CredentialState.is_fair_cycle_exhausted, reset_fair_cycle.
  destruct (CredentialState.fair_cycle state !! key) as [fs|]; [|discriminate].
  intros _. eexists _, _. split; [reflexivity|].
  rewrite lookup_insert_eq. repeat split.
Qed.

(** [reset_cycle] clears the record of every listed credential and
    touches no other. *)
Lemma reset_cycle_states_get key ids : forall states sid,
  odict_get (reset_cycle_states key ids states) sid
  = if bool_decide (sid ∈ ids)
    then (fun state => reset_fair_cycle state key) <$> odict_get states sid
    else odict_get states sid.
Proof.
  induction ids as [|c rest IH]; intros states sid; simpl.
  - destruct (bool_decide (sid ∈ [])) eqn:E; [|reflexivity].
    apply bool_decide_eq_true in E. inversion E.
  - rewrite IH.
    set (states1 := match odict_get states c with
                    | Some state => _ | None => states end).
    assert (H1 : forall x,
              odict_get states1 x
              = if bool_decide (x = c)
                then (fun state => reset_fair_cycle state key)
                       <$> odict_get states x
                else odict_get states x).
    { intros x. unfold states1.
      destruct (bool_decide (x = c)) eqn:Ex.
      - apply bool_decide_eq_true in Ex. subst x.
        destruct (odict_get states c) as [state|] eqn:Hget; [|rewrite Hget; reflexivity].
        unfold reset_fair_cycle. simpl.
        destruct (CredentialState.fair_cycle state !! key) as [fs|].
        + apply odict_get_set_eq.
        + exact Hget.
      - apply bool_decide_eq_false in Ex.
        destruct (odict_get states c) as [state|]; [|reflexivity].
        destruct (CredentialState.fair_cycle state !! key) as [fs|];
          [|reflexivity].
        apply odict_get_set_ne. congruence. }
    rewrite H1.
    destruct (bool_decide (sid = c)) eqn:Ec.
    + apply bool_decide_eq_true in Ec. subst sid.
      rewrite (bool_decide_eq_true_2 (c ∈ c :: rest)) by left.
      destruct (bool_decide (c ∈ rest)); [|reflexivity].
      destruct (odict_get states c) as [state|]; [|reflexivity].
      simpl. rewrite reset_fair_cycle_idem. reflexivity.
    + apply bool_decide_eq_false in Ec.
      destruct (bool_decide (sid ∈ rest)) eqn:Er.
      * apply bool_decide_eq_true in Er.
        rewrite (bool_decide_eq_true_2 (sid ∈ c :: rest)) by (right; exact Er).
        reflexivity.
      * apply bool_decide_eq_false in Er.
        rewrite (bool_decide_eq_false_2 (sid ∈ c :: rest)); [reflexivity|].
        intros H. apply elem_of_cons in H as [?|?]; contradiction.
Qed.

Lemma reset_cycle_states_keys key ids : forall states,
  odict_keys (reset_cycle_states key ids states) = odict_keys states.
Proof.
  induction ids as [|c rest IH]; intros states; simpl; [reflexivity|].
  rewrite IH.
  destruct (odict_get states c) as [state|] eqn:Hget; [|reflexivity].
  destruct (CredentialState.fair_cycle state !! key); [|reflexivity].
  apply odict_keys_set. eauto.
Qed.

Lemma _get_global_state_entry global provider key o g global' o' :
  _get_global_state global provider key o = (g, global', o') ->
  exists groups,
    global' !! provider = Some groups /\ groups !! key = Some g.
Proof.
  unfold _get_global_state.
  destruct (global !! provider) as [groups|] eqn:Ep.
  - rewrite Ep. simpl.
    destruct (groups !! key) as [g0|] eqn:Ek.
    + intros [= <- <- <-]. eauto.
    + unfold mbind, M_bind, mret, M_ret, time_time. simpl.
      intros [= <- <- <-]. eexists. rewrite lookup_insert_eq.
      split; [reflexivity|]. apply lookup_insert_eq.
  - rewrite lookup_insert_eq. simpl. rewrite lookup_empty.
    unfold mbind, M_bind, mret, M_ret, time_time. simpl.
    intros [= <- <- <-]. eexists. rewrite lookup_insert_eq.
    split; [reflexivity|]. apply lookup_insert_eq.
Qed.

Lemma setdefault_append_fst {A} (groups : list (Z * list A)) p x q :
  q ∈ map fst (setdefault_append groups p x) -> q = p \/ q ∈ map fst groups.
Proof.
  induction groups as [|[q0 xs0] groups IH]; simpl; intros H.
  - apply list_elem_of_singleton in H. auto.
  - destruct (Z.eqb q0 p); simpl in H.
    + right. exact H.
    + apply elem_of_cons in H as [->|H]; [right; left|].
      destruct (IH H) as [->|H']; [auto|right; right; exact H'].
Qed.

Lemma setdefault_append_keyed {A} (key : A -> Z) groups x :
  tiers_keyed key groups ->
  tiers_keyed key (setdefault_append groups (key x) x).
Proof.
  induction groups as [|[q0 xs0] groups IH]; intros [Hnd Hkey]; simpl.
  - split.
    + simpl. apply NoDup_singleton.
    + intros q xs y Hin Hy. apply list_elem_of_singleton in Hin.
      injection Hin as -> ->. apply list_elem_of_singleton in Hy.
      subst. reflexivity.
  - simpl in Hnd. apply NoDup_cons in Hnd as [Hq0 Hnd].
    destruct (Z.eqb q0 (key x)) eqn:E.
    + apply Z.eqb_eq in E. split.
      * simpl. apply NoDup_cons. split; assumption.
      * intros q xs y Hin Hy. apply elem_of_cons in Hin as [Heq|Hin].
        -- injection Heq as -> ->. apply elem_of_app in Hy as [Hy|Hy].
           ++ eapply Hkey; [left|exact Hy].
           ++ apply list_elem_of_singleton in Hy. subst. auto.
        -- eapply Hkey; [right; exact Hin|exact Hy].
    + apply Z.eqb_neq in E.
      destruct IH as [Hnd' Hkey'].
      { split; [exact Hnd|]. intros q xs y Hin Hy.
        eapply Hkey; [right; exact Hin|exact Hy]. }
      split.
      * simpl. apply NoDup_cons. split; [|exact Hnd'].
        intros H. apply setdefault_append_fst in H as [->|H]; [congruence|].
        contradiction.
      * intros q xs y Hin Hy. apply elem_of_cons in Hin as [Heq|Hin].
        -- injection Heq as -> ->. eapply Hkey; [left|exact Hy].
        -- eapply Hkey'; eassumption.
Qed.

Lemma setdefault_append_old {A} (groups : list (Z * list A)) p x y :
  in_tiers y groups -> in_tiers y (setdefault_append groups p x).
Proof.
  induction groups as [|[q0 xs0] groups IH]; intros (q & xs & Hin & Hy).
  - inversion Hin.
  - simpl. destruct (Z.eqb q0 p).
    + apply elem_of_cons in Hin as [Heq|Hin].
      * injection Heq as -> ->. exists q0, (xs0 ++ [x]).
        split; [left|apply elem_of_app; left; exact Hy].
      * exists q, xs. split; [right; exact Hin|exact Hy].
    + apply elem_of_cons in Hin as [Heq|Hin].
      * injection Heq as -> ->. exists q0, xs0. split; [left|exact Hy].
      * destruct IH as (q' & xs' & Hin' & Hy'); [exists q, xs; auto|].
        exists q', xs'. split; [right; exact Hin'|exact Hy'].
Qed.

Lemma setdefault_append_new {A} (groups : list (Z * list A)) p x :
  in_tiers x (setdefault_append groups p x).
Proof.
  induction groups as [|[q0 xs0] groups IH]; simpl.
  - exists p, [x]. split; left.
  - destruct (Z.eqb q0 p).
    + exists q0, (xs0 ++ [x]).
      split; [left|apply elem_of_app; right; left].
    + destruct IH as (q' & xs' & Hin' & Hy').
      exists q', xs'. split; [right; exact Hin'|exact Hy'].
Qed.

Lemma group_by_priority_keyed {A} (key : A -> Z) (l : list A) :
  tiers_keyed key (group_by_priority key l).
Proof.
  unfold group_by_priority.
  assert (H : forall groups,
            tiers_keyed key groups ->
            tiers_keyed key
              (fold_left (fun groups x => setdefault_append groups (key x) x)
                         l groups)).
  { induction l as [|x l IH]; simpl; intros groups Hk; [exact Hk|].
    apply IH. apply setdefault_append_keyed. exact Hk. }
  apply H. split; [apply NoDup_nil_2|]. intros q xs x Hin. inversion Hin.
Qed.

Lemma group_by_priority_covers {A} (key : A -> Z) (l : list A) x :
  x ∈ l -> in_tiers x (group_by_priority key l).
Proof.
  unfold group_by_priority.
  assert (H : forall groups,
            x ∈ l \/ in_tiers x groups ->
            in_tiers x
              (fold_left (fun groups x => setdefault_append groups (key x) x)
                         l groups)).
  { induction l as [|y l IH]; simpl; intros groups [Hx|Hx].
    - inversion Hx.
    - exact Hx.
    - apply IH. apply elem_of_cons in Hx as [->|Hx]; [right|left; exact Hx].
      apply setdefault_append_new.
    - apply IH. right. apply setdefault_append_old. exact Hx. }
  intros Hx. apply H. left. exact Hx.
Qed.

Lemma tiers_keyed_tail {A} (key : A -> Z) q ids (rest : list (Z * list A)) :
  tiers_keyed key ((q, ids) :: rest) ->
  tiers_keyed key rest
  /\ forall x, x ∈ ids -> ~ in_tiers x rest.
Proof.
  intros [Hnd Hkey]. simpl in Hnd. apply NoDup_cons in Hnd as [Hq Hnd].
  split.
  - split; [exact Hnd|]. intros q' xs x Hin Hx.
    eapply Hkey; [right; exact Hin|exact Hx].
  - intros x Hx (q' & xs & Hin & Hx').
    assert (key x = q) by (eapply Hkey; [left|exact Hx]).
    assert (key x = q') by (eapply Hkey; [right; exact Hin|exact Hx']).
    apply Hq. apply list_elem_of_fmap. exists (q', xs). split; [|exact Hin].
    simpl. congruence.
Qed.

Lemma states_of_ext w w' ids :
  (forall x, x ∈ ids -> odict_get (w_states w') x = odict_get (w_states w) x) ->
  states_of w' ids = states_of w ids.
Proof.
  unfold states_of. induction ids as [|x ids IH]; intros H; [reflexivity|].
  assert (IH' : omap (odict_get (w_states w')) ids
                = omap (odict_get (w_states w)) ids)
    by (apply IH; intros y Hy; apply H; right; exact Hy).
  simpl. rewrite (H x) by left.
  destruct (odict_get (w_states w) x); [f_equal|]; exact IH'.
Qed.

Lemma states_of_sub w ids candidates state :
  (forall x, x ∈ ids -> x ∈ candidates) ->
  state ∈ states_of w ids -> state ∈ states_of w candidates.
Proof.
  intros Hsub Hin. unfold states_of in *.
  apply list_elem_of_omap in Hin as (x & Hx & Hget).
  apply list_elem_of_omap. exists x. split; [apply Hsub; exact Hx|exact Hget].
Qed.

Lemma forallb_sub {A} (f : A -> bool) (l l' : list A) :
  (forall x, x ∈ l' -> x ∈ l) -> forallb f l = true -> forallb f l' = true.
Proof.
  intros Hsub H. apply forallb_forall. intros x Hx.
  apply (forallb_elem f l); [exact H|]. apply Hsub.
  apply list_elem_of_In. exact Hx.
Qed.

Lemma existsb_sub {A} (f : A -> bool) (l l' : list A) :
  (forall x, x ∈ l' -> x ∈ l) -> existsb f l = false -> existsb f l' = false.
Proof.
  intros Hsub H. destruct (existsb f l') eqn:E; [|reflexivity].
  apply existsb_exists in E as (x & Hx & Hf).
  rewrite <- H. symmetry. apply existsb_exists. exists x. split; [|exact Hf].
  apply list_elem_of_In. apply Hsub. apply list_elem_of_In. exact Hx.
Qed.

Lemma check_all_exhausted_cross_tier fc key states priorities :
  FairCycleConfig.cross_tier fc = true ->
  check_all_exhausted fc key states priorities
  = forallb (fun state => CredentialState.is_fair_cycle_exhausted state key)
            states.
Proof.
  intros H. unfold check_all_exhausted, _all_exhausted_in_group.
  destruct priorities; [|reflexivity].
  rewrite H, andb_false_r. reflexivity.
Qed.

Lemma sorted_insert_not_nil {A K} (lt : K -> K -> bool) (key : A -> K) x l :
  sorted_insert lt key x l <> [].
Proof. destruct l as [|y l]; simpl; [|destruct (lt _ _)]; discriminate. Qed.

Lemma BalancedStrategy_select_some tolerance context o :
  SelectionContext.candidates context <> [] ->
  exists s o', BalancedStrategy_select tolerance context o = (Some s, o').
Proof.
  unfold BalancedStrategy_select.
  destruct (SelectionContext.candidates context) as [|c1 [|c2 cs]];
    intros Hne; [congruence|eexists _, _; reflexivity|].
  unfold mbind, M_bind.
  destruct (balanced_tier_loop _ _ _ o) as [[s|] o1];
    eexists _, _; reflexivity.
Qed.

Lemma SequentialStrategy_select_some context states current :
  SelectionContext.candidates context <> [] ->
  exists s current',
    SequentialStrategy_select context states current = (Some s, current').
Proof.
  unfold SequentialStrategy_select.
  destruct (SelectionContext.candidates context) as [|c1 [|c2 cs]];
    intros Hne; [congruence|eexists _, _; reflexivity|].
  assert (Hsel : exists s,
            _select_by_priority (c1 :: c2 :: cs)
              (SelectionContext.priorities context)
              (SelectionContext.usage_counts context) states = Some s).
  { unfold _select_by_priority. simpl.
    destruct (sorted_insert _ _ c1 _) as [|s l] eqn:E.
    - apply sorted_insert_not_nil in E. contradiction.
    - exists s. reflexivity. }
  destruct Hsel as [s Hs]. rewrite Hs.
  destruct (current !! _) as [cur|].
  - destruct (py_str_truthy cur && bool_decide (cur ∈ c1 :: c2 :: cs));
      [eexists _, _; reflexivity|].
    destruct (py_str_truthy s); eexists _, _; reflexivity.
  - destruct (py_str_truthy s); eexists _, _; reflexivity.
Qed.

(** When step 2 finds an available credential, [select] returns one of
    the available credentials. *)
Lemma select_available
    fuel engine provider model0 group exclude priorities deadline w o a av
    w1 o1 :
  filter_available engine model0 group (candidates_of exclude w) w o
  = (a :: av, w1, o1) ->
  exists chosen w' o',
    select (S fuel) engine provider model0 group exclude priorities deadline
           w o = (Returned (Some chosen), w', o')
    /\ chosen ∈ a :: av.
Proof.
  intros Hf. simpl.
  change (filter (fun sid => sid ∉ default ∅ exclude) (odict_keys (w_states w)))
    with (candidates_of exclude w).
  destruct (candidates_of exclude w) as [|c cs] eqn:Hcand.
  - simpl in Hf. unfold mret, M_ret in Hf. discriminate.
  - unfold mbind, M_bind. rewrite Hf.
    destruct (usage_counts_loop engine model0 group (a :: av) w1 ∅ o1)
      as [usage_counts o2].
    set (own := match priorities with Some p => p | None => _ end).
    assert (Hstrategy :
              forall d o3,
                exists chosen w' o',
                  match ProviderUsageConfig.rotation_mode
                          (SelectionEngine._config engine) with
                  | RotationMode.BALANCED =>
                      fun o : Oracle =>
                        let (s, o') :=
                          BalancedStrategy_select
                            (ProviderUsageConfig.rotation_tolerance
                               (SelectionEngine._config engine))
                            (SelectionContext.mk provider model0 group
                               (a :: av) own usage_counts
                               (ProviderUsageConfig.rotation_mode
                                  (SelectionEngine._config engine))
                               (ProviderUsageConfig.rotation_tolerance
                                  (SelectionEngine._config engine)) d) o in
                        (Returned s, w1, o')
                  | RotationMode.SEQUENTIAL =>
                      let '(selected, current) :=
                        SequentialStrategy_select
                          (SelectionContext.mk provider model0 group
                             (a :: av) own usage_counts
                             (ProviderUsageConfig.rotation_mode
                                (SelectionEngine._config engine))
                             (ProviderUsageConfig.rotation_tolerance
                                (SelectionEngine._config engine)) d)
                          (w_states w1) (w_current w1) in
                      fun o : Oracle =>
                        (Returned selected,
                         mkWorld (w_states w1) (w_global w1) current, o)
                  end o3 = (Returned (Some chosen), w', o')
                  /\ chosen ∈ a :: av).
    { intros d o3.
      destruct (ProviderUsageConfig.rotation_mode
                  (SelectionEngine._config engine)).
      - match goal with
        | |- context [BalancedStrategy_select ?t ?ctx o3] =>
            destruct (BalancedStrategy_select_some t ctx o3) as (s & o4 & Hs);
              [discriminate|];
            pose proof (BalancedStrategy_select_elem t ctx o3 s) as Hin;
            rewrite Hs in *
        end.
        eexists _, _, _. split; [reflexivity|]. apply Hin. reflexivity.
      - match goal with
        | |- context [SequentialStrategy_select ?ctx ?st ?cur] =>
            destruct (SequentialStrategy_select_some ctx st cur)
              as (s & cur' & Hs); [discriminate|];
            pose proof (SequentialStrategy_select_elem ctx st cur s) as Hin;
            rewrite Hs in *
        end.
        eexists _, _, _. split; [reflexivity|]. apply Hin. reflexivity. }
    destruct (Qeq_bool deadline 0).
    + unfold time_time, mret, M_ret. apply Hstrategy.
    + unfold mret, M_ret. apply Hstrategy.
Qed.

(** A credential whose record has been cleared passes the limit engine
    when the checkers before the fair-cycle checker let it through and its
    request count of zero is below the quota threshold. *)
Lemma check_all_cleared state0 state global o o0 :
  fair_cycle_cleared (tracking_key_of se model quota_group) state0 state ->
  LimitCheckResult.allowed
    (verdict_before_fair_cycle (SelectionEngine._limits se) state0 model
                               quota_group o0) = true ->
  (forall quota_limit,
     fst (_get_quota_limit (SelectionEngine._windows se) state0 model
                           quota_group o0) = Some quota_limit ->
     (0 < py_int (inject_Z quota_limit
                  * FairCycleConfig.quota_threshold (fair_cycle_of se)))%Z) ->
  exists r o',
    check_all (SelectionEngine._limits se) state model quota_group global o
    = (r, state, global, o')
    /\ LimitCheckResult.allowed r = true.
Proof.
  intros (f & fs & -> & Hf & Hnot & Hzero) Hverdict Hquota.
  set (key := tracking_key_of se model quota_group) in *.
  unfold verdict_before_fair_cycle in Hverdict. revert Hverdict.
  rewrite Hle. intros Hverdict.
  unfold check_all. rewrite LimitEngine_init_checkers.
  rewrite check_all_loop_app.
  rewrite check_all_loop_earlier by apply checkers_before_fair_cycle_not.
  rewrite earlier_checks_ignores_fair_cycle
    by apply checkers_before_fair_cycle_not.
  pose proof (earlier_checks_free
                (LimitEngine.init (SelectionEngine._config se)
                                  (SelectionEngine._windows se))
                (checkers_before_fair_cycle (SelectionEngine._config se))
                state0 model quota_group
                (checkers_before_fair_cycle_not _) o o0) as Hfree.
  simpl LimitEngine._config in Hverdict.
  rewrite <- Hfree in Hverdict. clear Hfree.
  destruct (earlier_checks _ _ state0 model quota_group o) as [r1 o1].
  simpl in Hverdict. rewrite Hverdict.
  simpl. unfold mbind, M_bind.
  unfold FairCycleChecker_check.
  fold (fair_cycle_of se). rewrite Hen. simpl.
  change (_resolve_tracking_key (fair_cycle_of se) model quota_group)
    with key.
  rewrite Hf, Hnot. simpl. unfold mbind, M_bind.
  pose proof (_get_quota_limit_free (SelectionEngine._windows se) state0 model
                quota_group o1 o0) as Hqfree.
  change (_get_quota_limit (SelectionEngine._windows se)
            (CredentialState.set_fair_cycle state0 f) model quota_group o1)
    with (_get_quota_limit (SelectionEngine._windows se) state0 model
            quota_group o1).
  destruct (_get_quota_limit (SelectionEngine._windows se) state0 model
              quota_group o1) as [[ql|] o2].
  - simpl in Hqfree. specialize (Hquota ql (eq_sym Hqfree)).
    rewrite Hzero.
    destruct (_ <=? 0)%Z eqn:El; [apply Z.leb_le in El; lia|].
    unfold mret, M_ret. simpl. rewrite Hf, Hnot. simpl.
    eexists _, _. split; reflexivity.
  - unfold mret, M_ret. simpl. rewrite Hf, Hnot. simpl.
    eexists _, _. split; reflexivity.
Qed.

Lemma filter_available_finds state0 sid o0 candidates : forall w o state,
  sid ∈ candidates ->
  odict_get (w_states w) sid = Some state ->
  fair_cycle_cleared (tracking_key_of se model quota_group) state0 state ->
  LimitCheckResult.allowed
    (verdict_before_fair_cycle (SelectionEngine._limits se) state0 model
                               quota_group o0) = true ->
  (forall quota_limit,
     fst (_get_quota_limit (SelectionEngine._windows se) state0 model
                           quota_group o0) = Some quota_limit ->
     (0 < py_int (inject_Z quota_limit
                  * FairCycleConfig.quota_threshold (fair_cycle_of se)))%Z) ->
  exists available w' o',
    filter_available se model quota_group candidates w o = (available, w', o')
    /\ sid ∈ available.
Proof.
  induction candidates as [|c rest IH];
    intros w o state Hin Hget Hclear Hverdict Hquota.
  - inversion Hin.
  - simpl. destruct (decide (c = sid)) as [->|Hne].
    + rewrite Hget. unfold mbind, M_bind.
      destruct (check_all_cleared state0 state (w_global w) o o0 Hclear
                  Hverdict Hquota) as (r & o1 & Hc & Hall).
      rewrite Hc.
      destruct (filter_available se model quota_group rest _ o1)
        as [[available w2] o2].
      rewrite Hall. eexists _, _, _. split; [reflexivity|]. left.
    + apply elem_of_cons in Hin as [?|Hin]; [congruence|].
      destruct (odict_get (w_states w) c) as [state_c|] eqn:Hc.
      * unfold mbind, M_bind.
        destruct (check_all _ state_c model quota_group (w_global w) o)
          as [[[r s1] g1] o1].
        destruct (IH (mkWorld (odict_set (w_states w) c s1) g1 (w_current w))
                     o1 state Hin)
          as (available & w2 & o2 & Hf & Hs); auto.
        { simpl. rewrite odict_get_set_ne by exact Hne. exact Hget. }
        rewrite Hf. simpl.
        eexists _, _, _. split; [reflexivity|].
        destruct (LimitCheckResult.allowed r); [right|]; exact Hs.
      * eapply IH; eassumption.
Qed.

(** One level of [select]: no candidate available and a reset performed
    lead to the recursive call. *)
Lemma select_retries_after_reset
    fuel engine provider model0 group exclude priorities deadline w o w1 o1
    w2 o2 :
  candidates_of exclude w <> [] ->
  filter_available engine model0 group (candidates_of exclude w) w o
  = ([], w1, o1) ->
  FairCycleConfig.is_enabled (fair_cycle_of engine) = true ->
  _try_fair_cycle_reset engine provider model0 group (candidates_of exclude w)
                        priorities w1 o1 = (true, w2, o2) ->
  select (S fuel) engine provider model0 group exclude priorities deadline w o
  = select fuel engine provider model0 group exclude priorities deadline w2 o2.
Proof.
  intros Hne Hf Henabled Ht. simpl.
  change (filter (fun sid => sid ∉ default ∅ exclude) (odict_keys (w_states w)))
    with (candidates_of exclude w).
  destruct (candidates_of exclude w) as [|c cs]; [congruence|].
  unfold mbind, M_bind. rewrite Hf.
  fold (fair_cycle_of engine). rewrite Henabled, Ht. reflexivity.
Qed.

Lemma _get_global_state_count global provider key o g global' o' :
  _get_global_state global provider key o = (g, global', o') ->
  forall p k, cycle_count_of global' p k = cycle_count_of global p k.
Proof.
  unfold _get_global_state.
  destruct (global !! provider) as [groups|] eqn:Ep.
  - rewrite Ep. simpl.
    destruct (groups !! key) as [g0|] eqn:Ek.
    + intros [= <- <- <-]. reflexivity.
    + unfold mbind, M_bind, mret, M_ret, time_time. simpl.
      intros [= <- <- <-] p k. unfold cycle_count_of.
      destruct (decide (p = provider)) as [->|Hne].
      * rewrite lookup_insert_eq, Ep.
        destruct (decide (k = key)) as [->|Hk].
        -- rewrite lookup_insert_eq, Ek. reflexivity.
        -- rewrite lookup_insert_ne by congruence. reflexivity.
      * rewrite lookup_insert_ne by congruence. reflexivity.
  - rewrite lookup_insert_eq. simpl. rewrite lookup_empty.
    unfold mbind, M_bind, mret, M_ret, time_time. simpl.
    intros [= <- <- <-] p k. unfold cycle_count_of.
    destruct (decide (p = provider)) as [->|Hne].
    + rewrite lookup_insert_eq, Ep.
      destruct (decide (k = key)) as [->|Hk].
      * rewrite lookup_insert_eq. reflexivity.
      * rewrite lookup_insert_ne by congruence. rewrite lookup_empty.
        reflexivity.
    + rewrite !lookup_insert_ne by congruence. reflexivity.
Qed.

(** [reset_cycle] on any clock: the listed records are cleared and the
    cycle count of the provider and key grows by one. *)
Lemma reset_cycle_spec provider key ids w o :
  exists w' o',
    reset_cycle provider key ids w o = (w', o')
    /\ w_states w' = reset_cycle_states key ids (w_states w)
    /\ w_current w' = w_current w
    /\ cycle_count_of (w_global w') provider key
       = (cycle_count_of (w_global w) provider key + 1)%Z.
Proof.
  unfold reset_cycle, mbind, M_bind, mret, M_ret, time_time. simpl.
  destruct (_get_global_state (w_global w) provider key _)
    as [[g global'] o'] eqn:Hg.
  destruct (_get_global_state_entry _ _ _ _ _ _ _ Hg) as (groups & Hp & Hk).
  eexists _, _. split; [reflexivity|]. simpl.
  split; [reflexivity|]. split; [reflexivity|].
  rewrite <- (_get_global_state_count _ _ _ _ _ _ _ Hg).
  unfold cycle_count_of.
  rewrite lookup_insert_eq, lookup_insert_eq, Hp, Hk. reflexivity.
Qed.

Lemma reset_fair_cycle_priority state key :
  CredentialState.priority (reset_fair_cycle state key)
  = CredentialState.priority state.
Proof.
  unfold reset_fair_cycle.
  destruct (CredentialState.fair_cycle state !! key); reflexivity.
Qed.

Lemma existsb_ext_elem {A} (f g : A -> bool) (l : list A) :
  (forall x, x ∈ l -> f x = g x) -> existsb f l = existsb g l.
Proof.
  induction l as [|x l IH]; intros H; simpl; [reflexivity|].
  rewrite (H x) by left.
  rewrite IH by (intros y Hy; apply H; right; exact Hy). reflexivity.
Qed.

Lemma reset_by_in_tiers w tiers sid :
  reset_by se model quota_group now w tiers sid = true -> in_tiers sid tiers.
Proof.
  unfold reset_by. intros H. apply existsb_exists in H as ([q ids] & Hin & Hb).
  apply andb_prop in Hb as [_ Hb]. apply bool_decide_eq_true in Hb.
  exists q, ids. split; [apply list_elem_of_In; exact Hin|exact Hb].
Qed.

(** The per-tier loop: exactly the tiers that pass the test are reset,
    each adding one to the cycle count. *)
Lemma tier_reset_loop_spec provider (keyf : string -> Z) tiers :
  forall reset_any w o,
  tiers_keyed keyf tiers ->
  exists w' o',
    tier_reset_loop se provider (tracking_key_of se model quota_group)
                    (py_or_str quota_group model) tiers reset_any w o
    = (reset_any
       || existsb (fun tier =>
                     resettable se model quota_group now w (snd tier)) tiers,
       w', o')
    /\ (forall sid,
          odict_get (w_states w') sid
          = if reset_by se model quota_group now w tiers sid
            then (fun state =>
                    reset_fair_cycle state
                      (tracking_key_of se model quota_group))
                   <$> odict_get (w_states w) sid
            else odict_get (w_states w) sid)
    /\ odict_keys (w_states w') = odict_keys (w_states w)
    /\ w_current w' = w_current w
    /\ cycle_count_of (w_global w') provider
                      (tracking_key_of se model quota_group)
       = (cycle_count_of (w_global w) provider
                         (tracking_key_of se model quota_group)
          + Z.of_nat (length (List.filter
                                (fun tier =>
                                   resettable se model quota_group now w
                                              (snd tier))
                                tiers)))%Z.
Proof.
  set (key := tracking_key_of se model quota_group).
  induction tiers as [|[q ids] rest IH]; intros reset_any w o Hkeyed.
  - exists w, o. simpl. rewrite orb_false_r.
    repeat split; try reflexivity. lia.
  - destruct (tiers_keyed_tail _ _ _ _ Hkeyed) as [Hkeyed' Hdisj].
    assert (Hhead : forall sid,
              reset_by se model quota_group now w ((q, ids) :: rest) sid
              = resettable se model quota_group now w ids
                && bool_decide (sid ∈ ids)
                || reset_by se model quota_group now w rest sid)
      by reflexivity.
    cbn [tier_reset_loop existsb List.filter snd]. fold key.
    pose proof (_get_shortest_cooldown_short (states_of w ids)
                  (py_or_str quota_group model) o) as Hs.
    destruct (forallb _ (states_of w ids)) eqn:Hex.
    + unfold mbind, M_bind.
      destruct (_get_shortest_cooldown se (states_of w ids) _ o)
        as [[[hs id] rem] o1].
      simpl in Hs. subst hs.
      destruct (existsb _ (states_of w ids)) eqn:Hshort.
      * (* a short cooldown: the tier is passed over *)
        assert (Hres : resettable se model quota_group now w ids = false).
        { unfold resettable. fold key. rewrite Hex, Hshort. reflexivity. }
        destruct (IH reset_any w o1 Hkeyed')
          as (w' & o' & Hloop & Hget & Hkeys & Hcur & Hcount).
        rewrite Hloop, Hres. exists w', o'. split; [reflexivity|].
        split; [|auto].
        intros sid. rewrite Hget, Hhead, Hres. reflexivity.
      * (* the tier is reset *)
        assert (Hres : resettable se model quota_group now w ids = true).
        { unfold resettable. fold key. rewrite Hex, Hshort. reflexivity. }
        destruct (reset_cycle_spec provider key ids w o1)
          as (w1 & o2 & Hreset & Hstates & Hcur1 & Hcount1).
        rewrite Hreset, Hres.
        assert (Hget1 : forall x,
                  odict_get (w_states w1) x
                  = if bool_decide (x ∈ ids)
                    then (fun state => reset_fair_cycle state key)
                           <$> odict_get (w_states w) x
                    else odict_get (w_states w) x).
        { intros x. rewrite Hstates. apply reset_cycle_states_get. }
        assert (Hrest : forall tier,
                  tier ∈ rest ->
                  resettable se model quota_group now w1 (snd tier)
                  = resettable se model quota_group now w (snd tier)).
        { intros [q' ids'] Hin. unfold resettable. simpl.
          assert (Hsame : states_of w1 ids' = states_of w ids').
          { apply states_of_ext. intros x Hx. rewrite Hget1.
            rewrite bool_decide_eq_false_2; [reflexivity|].
            intros Hx'. apply (Hdisj x Hx'). exists q', ids'. auto. }
          rewrite Hsame. reflexivity. }
        destruct (IH true w1 o2 Hkeyed')
          as (w' & o' & Hloop & Hget & Hkeys & Hcur & Hcount).
        rewrite Hloop. exists w', o'. split.
        { rewrite orb_true_r. reflexivity. }
        split; [|split; [|split]].
        -- intros sid. rewrite Hget, Hget1, Hhead, Hres.
           assert (Hby : reset_by se model quota_group now w1 rest sid
                         = reset_by se model quota_group now w rest sid).
           { unfold reset_by. apply existsb_ext_elem. intros tier Hin.
             rewrite (Hrest tier Hin). reflexivity. }
           rewrite Hby.
           destruct (bool_decide (sid ∈ ids)) eqn:Hin; simpl.
           ++ apply bool_decide_eq_true in Hin.
              destruct (reset_by se model quota_group now w rest sid) eqn:Hb;
                [|reflexivity].
              apply reset_by_in_tiers in Hb. destruct (Hdisj sid Hin Hb).
           ++ reflexivity.
        -- rewrite Hkeys, Hstates. apply reset_cycle_states_keys.
        -- congruence.
        -- rewrite Hcount, Hcount1. cbn [length].
           rewrite (filter_ext_in _ _ rest
                      (fun tier Hin =>
                         Hrest tier (proj2 (list_elem_of_In _ _) Hin))).
           lia.
    + (* not all exhausted: the tier is passed over *)
      assert (Hres : resettable se model quota_group now w ids = false).
      { unfold resettable. fold key. rewrite Hex. reflexivity. }
      destruct (IH reset_any w o Hkeyed')
        as (w' & o' & Hloop & Hget & Hkeys & Hcur & Hcount).
      rewrite Hloop, Hres. exists w', o'. split; [reflexivity|].
      split; [|auto].
      intros sid. rewrite Hget, Hhead, Hres. reflexivity.
Qed.

Lemma tier_kept_refl tier w : tier_kept tier w w.
Proof. repeat split. Qed.

Lemma tier_kept_trans tier w1 w2 w3 :
  tier_kept tier w1 w2 -> tier_kept tier w2 w3 -> tier_kept tier w1 w3.
Proof.
  intros (Hm & Hk & Hp) (Hm' & Hk' & Hp').
  split; [|split].
  - intros sid Hin. rewrite Hm', Hm by exact Hin. reflexivity.
  - congruence.
  - intros sid. rewrite Hp', Hp. reflexivity.
Qed.

(** The fair-cycle check writes only fair-cycle records, and none of a
    credential that is already exhausted. *)
Lemma FairCycleChecker_check_keeps fc wm state model0 group global o :
  let state1 :=
    snd (fst (fst (FairCycleChecker_check fc wm state model0 group global o)))
  in
  CredentialState.priority state1 = CredentialState.priority state
  /\ (CredentialState.is_fair_cycle_exhausted state
        (get_tracking_key fc model0 group) = true ->
      state1 = state).
Proof.
  unfold get_tracking_key, FairCycleChecker_check,
    CredentialState.is_fair_cycle_exhausted.
  destruct (FairCycleConfig.is_enabled fc); simpl; [|auto].
  unfold mbind, M_bind, mret, M_ret.
  set (key := _resolve_tracking_key fc model0 group).
  destruct (CredentialState.fair_cycle state !! key) as [fs|] eqn:E.
  - destruct (FairCycleState.exhausted fs) eqn:Ex; simpl.
    + rewrite E, Ex. simpl.
      destruct (_get_global_state global (CredentialState.provider state) key o)
        as [[g global1] o1].
      match goal with
      | |- context [if ?b then _ else _] => destruct b
      end; simpl; auto.
    + split; [|discriminate].
      destruct (_get_quota_limit wm state model0 group o) as [[ql|] o1].
      * destruct (_ <=? _)%Z.
        -- unfold time_time. simpl. rewrite lookup_insert_eq. simpl.
           destruct (_get_global_state global _ key _) as [[g global1] o2].
           match goal with
           | |- context [if ?b then _ else _] => destruct b
           end; reflexivity.
        -- simpl. rewrite E, Ex. reflexivity.
      * simpl. rewrite E, Ex. reflexivity.
  - simpl. rewrite E. simpl. split; [reflexivity|discriminate].
Qed.

Lemma check_all_keeps state global o :
  exists r state1 global1 o1,
    check_all (SelectionEngine._limits se) state model quota_group global o
    = (r, state1, global1, o1)
    /\ CredentialState.priority state1 = CredentialState.priority state
    /\ (CredentialState.is_fair_cycle_exhausted state
          (tracking_key_of se model quota_group) = true ->
        state1 = state).
Proof.
  rewrite Hle. unfold check_all. rewrite LimitEngine_init_checkers.
  rewrite check_all_loop_app.
  rewrite check_all_loop_earlier by apply checkers_before_fair_cycle_not.
  destruct (earlier_checks _ _ state model quota_group o) as [r1 o1].
  destruct (LimitCheckResult.allowed r1).
  - simpl. unfold mbind, M_bind.
    pose proof (FairCycleChecker_check_keeps
                  (ProviderUsageConfig.fair_cycle (SelectionEngine._config se))
                  (SelectionEngine._windows se) state model quota_group
                  global o1) as Hk.
    destruct (FairCycleChecker_check _ _ state model quota_group global o1)
      as [[[r2 s2] g2] o2].
    simpl in Hk.
    destruct (LimitCheckResult.allowed r2); eexists _, _, _, _;
      (split; [reflexivity|exact Hk]).
  - eexists _, _, _, _. split; [reflexivity|]. auto.
Qed.

Section Tier.

(** A set of credentials that are fair-cycle exhausted. *)
Variable tier : list string.

Lemma tier_exhausted_kept w w' :
  tier_kept tier w w' ->
  tier_exhausted se model quota_group tier w ->
  tier_exhausted se model quota_group tier w'.
Proof.
  intros (Hm & _) Hex sid state Hin Hget. rewrite Hm in Hget by exact Hin.
  eapply Hex; eassumption.
Qed.

(** One check of one credential keeps the tier. *)
Lemma check_step_kept w sid state o :
  tier_exhausted se model quota_group tier w ->
  odict_get (w_states w) sid = Some state ->
  exists r state1 global1 o1,
    check_all (SelectionEngine._limits se) state model quota_group
              (w_global w) o = (r, state1, global1, o1)
    /\ tier_kept tier w
         (mkWorld (odict_set (w_states w) sid state1) global1 (w_current w)).
Proof.
  intros Hex Hget.
  destruct (check_all_keeps state (w_global w) o)
    as (r & state1 & global1 & o1 & Hc & Hprio & Hsame).
  exists r, state1, global1, o1. split; [exact Hc|].
  split; [|split]; simpl.
  - intros m Hm. destruct (decide (sid = m)) as [->|Hne].
    + rewrite odict_get_set_eq, Hget. f_equal. apply Hsame.
      eapply Hex; eassumption.
    + apply odict_get_set_ne. exact Hne.
  - apply odict_keys_set. eauto.
  - intros m. destruct (decide (sid = m)) as [->|Hne].
    + rewrite odict_get_set_eq, Hget. simpl. rewrite Hprio. reflexivity.
    + rewrite odict_get_set_ne by exact Hne. reflexivity.
Qed.

Lemma filter_available_kept candidates : forall w o,
  tier_exhausted se model quota_group tier w ->
  exists available w' o',
    filter_available se model quota_group candidates w o
    = (available, w', o')
    /\ tier_kept tier w w'.
Proof.
  induction candidates as [|sid rest IH]; intros w o Hex.
  - eexists _, _, _. split; [reflexivity|apply tier_kept_refl].
  - simpl. destruct (odict_get (w_states w) sid) as [state|] eqn:Hget.
    + destruct (check_step_kept w sid state o Hex Hget)
        as (r & state1 & global1 & o1 & Hc & Hkept).
      unfold mbind, M_bind. rewrite Hc.
      destruct (IH _ o1 (tier_exhausted_kept _ _ Hkept Hex))
        as (available & w' & o' & Hf & Hkept').
      rewrite Hf. eexists _, _, _. split; [reflexivity|].
      eapply tier_kept_trans; eassumption.
    + apply IH. exact Hex.
Qed.

Lemma fair_cycle_blocked_loop_kept candidates : forall w o b n,
  tier_exhausted se model quota_group tier w ->
  exists counted w' o',
    fair_cycle_blocked_loop se model quota_group candidates b n w o
    = (counted, w', o')
    /\ tier_kept tier w w'.
Proof.
  induction candidates as [|sid rest IH]; intros w o b n Hex.
  - eexists _, _, _. split; [reflexivity|apply tier_kept_refl].
  - simpl. destruct (odict_get (w_states w) sid) as [state|] eqn:Hget.
    + destruct (check_step_kept w sid state o Hex Hget)
        as (r & state1 & global1 & o1 & Hc & Hkept).
      unfold mbind, M_bind. rewrite Hc.
      destruct (LimitCheckResult.allowed r).
      * eexists _, _, _. split; [reflexivity|exact Hkept].
      * destruct (LimitResult.eqb _ _).
        -- destruct (IH _ o1 b (n + 1)%Z (tier_exhausted_kept _ _ Hkept Hex))
             as (counted & w' & o' & Hf & Hkept').
           rewrite Hf. eexists _, _, _. split; [reflexivity|].
           eapply tier_kept_trans; eassumption.
        -- destruct (IH _ o1 false n (tier_exhausted_kept _ _ Hkept Hex))
             as (counted & w' & o' & Hf & Hkept').
           rewrite Hf. eexists _, _, _. split; [reflexivity|].
           eapply tier_kept_trans; eassumption.
    + apply IH. exact Hex.
Qed.

Lemma tier_held_back_kept p candidates w w' :
  tier_kept tier w w' ->
  tier_held_back se model quota_group now p candidates tier w ->
  tier_held_back se model quota_group now p candidates tier w'.
Proof.
  intros Hkept (Hin & Hex & sid & state & Hsid & Hget & Hshort).
  split; [|split].
  - intros m Hm. destruct (Hin m Hm) as [Hc Hp]. split; [exact Hc|].
    destruct Hkept as (_ & _ & Hprio). rewrite Hprio. exact Hp.
  - eapply tier_exhausted_kept; eassumption.
  - exists sid, state. destruct Hkept as (Hm & _).
    rewrite Hm by exact Hsid. auto.
Qed.

Lemma tiers_keyed_functional {A} (keyf : A -> Z) tiers q xs ys :
  tiers_keyed keyf tiers -> (q, xs) ∈ tiers -> (q, ys) ∈ tiers -> xs = ys.
Proof.
  intros [Hnd _]. induction tiers as [|[q0 zs] rest IH]; intros Hx Hy.
  - inversion Hx.
  - simpl in Hnd. apply NoDup_cons in Hnd as [Hq Hnd].
    apply elem_of_cons in Hx as [Hx|Hx], Hy as [Hy|Hy].
    + congruence.
    + injection Hx as -> ->. exfalso. apply Hq.
      apply list_elem_of_fmap. exists (q0, ys). auto.
    + injection Hy as -> ->. exfalso. apply Hq.
      apply list_elem_of_fmap. exists (q0, xs). auto.
    + apply IH; assumption.
Qed.

(** A tier that is held back is left alone by [_try_fair_cycle_reset],
    whatever it does to other tiers. *)
Lemma _try_fair_cycle_reset_kept provider candidates priorities p w o :
  tier_held_back se model quota_group now p candidates tier w ->
  exists r w' o',
    _try_fair_cycle_reset se provider model quota_group candidates priorities
                          w o = (r, w', o')
    /\ tier_kept tier w w'.
Proof.
  intros Hheld.
  unfold _try_fair_cycle_reset, mbind, M_bind.
  destruct (fair_cycle_blocked_loop_kept candidates w o true 0
              (proj1 (proj2 Hheld)))
    as (counted & w1 & o1 & Hloop & Hkept1).
  rewrite Hloop.
  destruct counted as [[b n]|]; [|eexists _, _, _; split; [reflexivity|auto]].
  destruct (n =? 0)%Z; [eexists _, _, _; split; [reflexivity|auto]|].
  destruct (tier_held_back_kept p candidates w w1 Hkept1 Hheld)
    as (Hin & Hex & sid & state & Hsid & Hget & Hshort).
  destruct (Hin sid Hsid) as [Hcand Hprio].
  destruct (FairCycleConfig.cross_tier _).
  - destruct (check_all_exhausted _ _ _ _);
      [|eexists _, _, _; split; [reflexivity|auto]].
    pose proof (_get_shortest_cooldown_short (states_of w1 candidates)
                  (py_or_str quota_group model) o1) as Hs.
    destruct (_get_shortest_cooldown se (states_of w1 candidates) _ o1)
      as [[[hs id] rem] o2].
    simpl in Hs. subst hs.
    assert (Hhas : existsb (has_short_cooldown (reset_threshold_of se) now
                              (py_or_str quota_group model))
                           (states_of w1 candidates) = true).
    { apply existsb_exists. exists state. split; [|exact Hshort].
      apply list_elem_of_In. eapply states_of_elem; eassumption. }
    rewrite Hhas. eexists _, _, _. split; [reflexivity|auto].
  - set (ids := filter (fun sid => is_Some (odict_get (w_states w1) sid))
                       candidates).
    set (keyf := fun sid : string =>
                   default 0%Z (CredentialState.priority
                                  <$> odict_get (w_states w1) sid)).
    pose proof (group_by_priority_keyed keyf ids) as Hkeyed.
    destruct (tier_reset_loop_spec provider keyf (group_by_priority keyf ids)
                false w1 o1 Hkeyed)
      as (w2 & o2 & Hloop2 & Hget2 & Hkeys2 & Hcur2 & _).
    fold (fair_cycle_of se).
    fold (tracking_key_of se model quota_group).
    rewrite Hloop2. eexists _, _, _. split; [reflexivity|].
    eapply tier_kept_trans; [exact Hkept1|].
    assert (Hnot : forall m,
              m ∈ tier ->
              reset_by se model quota_group now w1
                       (group_by_priority keyf ids) m = false).
    { intros m Hm.
      destruct (reset_by _ _ _ _ _ _ m) eqn:Hby; [|reflexivity].
      exfalso. unfold reset_by in Hby.
      apply existsb_exists in Hby as ([q xs] & Hgroup & Hb).
      apply list_elem_of_In in Hgroup.
      apply andb_prop in Hb as [Hres Hmx]. apply bool_decide_eq_true in Hmx.
      simpl in Hres, Hmx.
      assert (Hq : q = p).
      { destruct Hkeyed as [_ Hkey]. rewrite <- (Hkey q xs m Hgroup Hmx).
        unfold keyf. destruct (Hin m Hm) as [_ Hpm]. rewrite Hpm.
        reflexivity. }
      subst q.
      assert (Hsx : sid ∈ xs).
      { destruct (group_by_priority_covers keyf ids sid)
          as (q' & xs' & Hgroup' & Hsx').
        { unfold ids. apply list_elem_of_filter. split; [|exact Hcand].
          rewrite Hget. eauto. }
        assert (q' = p).
        { destruct Hkeyed as [_ Hkey]. rewrite <- (Hkey q' xs' sid Hgroup' Hsx').
          unfold keyf. rewrite Hprio. reflexivity. }
        subst q'.
        rewrite (tiers_keyed_functional keyf _ p xs xs' Hkeyed Hgroup Hgroup').
        exact Hsx'. }
      unfold resettable in Hres. apply andb_prop in Hres as [_ Hres].
      apply negb_true_iff in Hres.
      assert (Hhas : existsb (has_short_cooldown (reset_threshold_of se) now
                                (py_or_str quota_group model))
                             (states_of w1 xs) = true).
      { apply existsb_exists. exists state. split; [|exact Hshort].
        apply list_elem_of_In. eapply states_of_elem; eassumption. }
      congruence. }
    split; [|split].
    + intros m Hm. rewrite Hget2, (Hnot m Hm). reflexivity.
    + exact Hkeys2.
    + intros m. rewrite Hget2.
      destruct (reset_by _ _ _ _ _ _ m); [|reflexivity].
      destruct (odict_get (w_states w1) m); [|reflexivity].
      simpl. rewrite reset_fair_cycle_priority. reflexivity.
Qed.

(** [select] at any depth of retries keeps a tier that is held back. *)
Lemma select_kept fuel provider exclude priorities deadline p :
  forall w o,
  tier_held_back se model quota_group now p (candidates_of exclude w) tier w ->
  tier_kept tier w
    (snd (fst (select fuel se provider model quota_group exclude priorities
                      deadline w o))).
Proof.
  clear Hen Hdur.
  induction fuel as [|fuel IH]; intros w o Hheld.
  - apply tier_kept_refl.
  - simpl select.
    change (filter (fun sid => sid ∉ default ∅ exclude)
                   (odict_keys (w_states w)))
      with (candidates_of exclude w).
    destruct (candidates_of exclude w) as [|c cs] eqn:Hcand;
      [apply tier_kept_refl|].
    rewrite <- Hcand in *. unfold mbind, M_bind.
    destruct (filter_available_kept (candidates_of exclude w) w o
                (proj1 (proj2 Hheld)))
      as (available & w1 & o1 & Hf & Hkept1).
    rewrite Hf.
    destruct available as [|a av].
    + destruct (FairCycleConfig.is_enabled _); [|exact Hkept1].
      pose proof (tier_held_back_kept _ _ _ _ Hkept1 Hheld) as Hheld1.
      destruct (_try_fair_cycle_reset_kept provider (candidates_of exclude w)
                  priorities p w1 o1 Hheld1)
        as (r & w2 & o2 & Ht & Hkept2).
      rewrite Ht.
      pose proof (tier_kept_trans _ _ _ _ Hkept1 Hkept2) as Hkept.
      destruct r; [|exact Hkept].
      eapply tier_kept_trans; [exact Hkept|].
      apply IH.
      assert (Hsame : candidates_of exclude w2 = candidates_of exclude w).
      { unfold candidates_of. destruct Hkept as (_ & -> & _). reflexivity. }
      rewrite Hsame. eapply tier_held_back_kept; eassumption.
    + destruct (usage_counts_loop se model quota_group (a :: av) w1 ∅ o1)
        as [usage_counts o2].
      destruct (Qeq_bool deadline 0);
        unfold time_time, mret, M_ret;
        destruct (ProviderUsageConfig.rotation_mode _);
        try (destruct (BalancedStrategy_select _ _ _) as [s o3];
             exact Hkept1);
        destruct (SequentialStrategy_select _ _ _) as [s current];
        exact Hkept1.
Qed.

End Tier.

Lemma filter_length_pos {A} (f : A -> bool) (l : list A) x :
  x ∈ l -> f x = true -> (0 < length (List.filter f l))%nat.
Proof.
  induction l as [|y l IH]; intros Hin Hf; [inversion Hin|].
  simpl. apply elem_of_cons in Hin as [->|Hin].
  - rewrite Hf. simpl. lia.
  - destruct (f y); simpl; [lia|]. apply IH; assumption.
Qed.

(** A pool in which nothing is available, with a tier that passes the
    reset test and in which the fair-cycle checker is what blocks at
    least one credential: the tier is reset. *)
Lemma _try_fair_cycle_reset_resets
    provider candidates priorities p w o sid state :
  let tier := tier_of p w candidates in
  forallb (held se model quota_group o) (states_of w candidates) = true ->
  cycle_live (fair_cycle_of se) (tracking_key_of se model quota_group) now
             (w_global w) ->
  resettable se model quota_group now w tier = true ->
  (FairCycleConfig.cross_tier (fair_cycle_of se) = true ->
   resettable se model quota_group now w candidates = true) ->
  sid ∈ tier ->
  odict_get (w_states w) sid = Some state ->
  LimitCheckResult.allowed
    (verdict_before_fair_cycle (SelectionEngine._limits se) state model
                               quota_group o) = true ->
  exists w' o',
    _try_fair_cycle_reset se provider model quota_group candidates priorities
                          w o = (true, w', o')
    /\ (forall c, c ∈ tier ->
          odict_get (w_states w') c
          = (fun state =>
               reset_fair_cycle state (tracking_key_of se model quota_group))
              <$> odict_get (w_states w) c)
    /\ (forall c,
          odict_get (w_states w') c = odict_get (w_states w) c
          \/ odict_get (w_states w') c
             = (fun state =>
                  reset_fair_cycle state (tracking_key_of se model quota_group))
                 <$> odict_get (w_states w) c)
    /\ odict_keys (w_states w') = odict_keys (w_states w)
    /\ w_current w' = w_current w
    /\ (cycle_count_of (w_global w) provider
                       (tracking_key_of se model quota_group)
        < cycle_count_of (w_global w') provider
                         (tracking_key_of se model quota_group))%Z.
Proof.
  intros tier Hheld Hlive Hres Hcross Hsid Hget Hverdict.
  set (key := tracking_key_of se model quota_group) in *.
  assert (Htier : forall c, c ∈ tier ->
            c ∈ candidates
            /\ CredentialState.priority <$> odict_get (w_states w) c = Some p).
  { intros c Hc. apply list_elem_of_filter in Hc as [Hp Hc]. auto. }
  pose proof Hres as Hres'. unfold resettable in Hres'.
  apply andb_prop in Hres' as [Hex Hshort]. apply negb_true_iff in Hshort.
  fold key in Hex.
  assert (Hexs : CredentialState.is_fair_cycle_exhausted state key = true).
  { apply (forallb_elem _ _ _ Hex). eapply states_of_elem; eassumption. }
  unfold _try_fair_cycle_reset, mbind, M_bind.
  destruct (fair_cycle_blocked_loop_held o candidates w o true 0 Hheld Hlive)
    as (b' & n' & w1 & o1 & Hloop & _ & Hlt & Hsame & Hlive1).
  rewrite Hloop.
  specialize (Hlt sid state o (proj1 (Htier sid Hsid)) Hget Hexs Hverdict).
  destruct (n' =? 0)%Z eqn:En; [apply Z.eqb_eq in En; lia|].
  destruct Hsame as (Hstates1 & Hcur1 & Hcount1).
  assert (Hst : forall ids, states_of w1 ids = states_of w ids).
  { intros ids. unfold states_of. rewrite Hstates1. reflexivity. }
  fold (fair_cycle_of se). fold (tracking_key_of se model quota_group).
  fold key.
  destruct (FairCycleConfig.cross_tier (fair_cycle_of se)) eqn:Hmode.
  - specialize (Hcross eq_refl). unfold resettable in Hcross.
    apply andb_prop in Hcross as [Hexc Hshortc].
    apply negb_true_iff in Hshortc. fold key in Hexc.
    rewrite Hst.
    rewrite (check_all_exhausted_cross_tier _ _ _ _ Hmode), Hexc.
    pose proof (_get_shortest_cooldown_short (states_of w candidates)
                  (py_or_str quota_group model) o1) as Hs.
    rewrite Hshortc in Hs.
    destruct (_get_shortest_cooldown se (states_of w candidates) _ o1)
      as [[[hs id] rem] o2].
    simpl in Hs. subst hs.
    destruct (reset_cycle_spec provider key candidates w1 o2)
      as (w2 & o3 & Hreset & Hstates & Hcur & Hcount).
    rewrite Hreset.
    exists w2, o3. split; [reflexivity|].
    split; [|split; [|split; [|split]]].
    + intros c Hc. rewrite Hstates, reset_cycle_states_get.
      rewrite bool_decide_eq_true_2 by (apply Htier; exact Hc).
      rewrite Hstates1. reflexivity.
    + intros c. rewrite Hstates, reset_cycle_states_get, Hstates1.
      destruct (bool_decide (c ∈ candidates)); [right|left]; reflexivity.
    + rewrite Hstates, reset_cycle_states_keys, Hstates1. reflexivity.
    + congruence.
    + rewrite Hcount, Hcount1. lia.
  - set (ids := filter (fun sid => is_Some (odict_get (w_states w1) sid))
                       candidates).
    set (keyf := fun sid : string =>
                   default 0%Z (CredentialState.priority
                                  <$> odict_get (w_states w1) sid)).
    pose proof (group_by_priority_keyed keyf ids) as Hkeyed.
    destruct (tier_reset_loop_spec provider keyf (group_by_priority keyf ids)
                false w1 o1 Hkeyed)
      as (w2 & o2 & Hloop2 & Hget2 & Hkeys2 & Hcur2 & Hcount2).
    fold key in Hloop2, Hget2, Hcount2.
    (* the group the tier is filed under *)
    assert (Hkeyp : forall c, c ∈ tier -> c ∈ ids /\ keyf c = p).
    { intros c Hc. destruct (Htier c Hc) as [Hcand Hp]. split.
      - unfold ids. apply list_elem_of_filter. split; [|exact Hcand].
        rewrite Hstates1. destruct (odict_get (w_states w) c); [eauto|].
        discriminate.
      - unfold keyf. rewrite Hstates1, Hp. reflexivity. }
    destruct (group_by_priority_covers keyf ids sid
                (proj1 (Hkeyp sid Hsid)))
      as (q & xs & Hgroup & Hsx).
    assert (q = p).
    { destruct Hkeyed as [_ Hkey]. rewrite <- (Hkey q xs sid Hgroup Hsx).
      apply Hkeyp. exact Hsid. }
    subst q.
    assert (Hxs : forall x, x ∈ xs -> x ∈ tier).
    { intros x Hx. unfold tier, tier_of. apply list_elem_of_filter.
      pose proof (group_by_priority_elem keyf ids p xs x Hgroup Hx) as Hi.
      unfold ids in Hi. apply list_elem_of_filter in Hi as [[st Hs] Hc].
      split; [|exact Hc].
      destruct Hkeyed as [_ Hkey]. pose proof (Hkey p xs x Hgroup Hx) as Hk.
      unfold keyf in Hk. rewrite Hs in Hk. simpl in Hk.
      rewrite <- Hstates1, Hs. simpl. congruence. }
    assert (Hresx : resettable se model quota_group now w1 xs = true).
    { unfold resettable. rewrite Hst. fold key.
      rewrite (forallb_sub _ _ _ (fun st Hin =>
                 states_of_sub w xs tier st Hxs Hin) Hex).
      rewrite (existsb_sub _ _ _ (fun st Hin =>
                 states_of_sub w xs tier st Hxs Hin) Hshort).
      reflexivity. }
    assert (Hsome : existsb (fun tier0 : Z * list string =>
                               resettable se model quota_group now w1
                                          (snd tier0))
                            (group_by_priority keyf ids) = true).
    { apply existsb_exists. exists (p, xs).
      split; [apply list_elem_of_In; exact Hgroup|exact Hresx]. }
    rewrite Hloop2, Hsome. exists w2, o2. split; [reflexivity|].
    split; [|split; [|split; [|split]]].
    + intros c Hc. rewrite Hget2, Hstates1.
      assert (Hby : reset_by se model quota_group now w1
                             (group_by_priority keyf ids) c = true).
      { unfold reset_by. apply existsb_exists. exists (p, xs).
        split; [apply list_elem_of_In; exact Hgroup|]. simpl.
        rewrite Hresx. simpl. apply bool_decide_eq_true.
        destruct (Hkeyp c Hc) as [Hci Hck].
        destruct (group_by_priority_covers keyf ids c Hci)
          as (q' & xs' & Hgroup' & Hcx).
        assert (q' = p).
        { destruct Hkeyed as [_ Hkey].
          rewrite <- (Hkey q' xs' c Hgroup' Hcx). exact Hck. }
        subst q'.
        rewrite (tiers_keyed_functional keyf _ p xs xs' Hkeyed Hgroup Hgroup').
        exact Hcx. }
      rewrite Hby. reflexivity.
    + intros c. rewrite Hget2, Hstates1.
      destruct (reset_by se model quota_group now w1
                         (group_by_priority keyf ids) c);
        [right|left]; reflexivity.
    + rewrite Hkeys2, Hstates1. reflexivity.
    + congruence.
    + rewrite Hcount2, Hcount1.
      pose proof (filter_length_pos
                    (fun tier0 : Z * list string =>
                       resettable se model quota_group now w1 (snd tier0))
                    (group_by_priority keyf ids) (p, xs) Hgroup Hresx).
      lia.
Qed.

(** A credential that passes the limit engine passes the checkers before
    the fair-cycle checker. *)
Lemma check_all_allowed_verdict state global o :
  LimitCheckResult.allowed
    (fst (fst (fst (check_all (SelectionEngine._limits se) state model
                      quota_group global o)))) = true ->
  LimitCheckResult.allowed
    (verdict_before_fair_cycle (SelectionEngine._limits se) state model
                               quota_group o) = true.
Proof.
  intros H. rewrite Hle in H |- *. unfold verdict_before_fair_cycle.
  unfold check_all in H.
  rewrite LimitEngine_init_checkers, check_all_loop_app in H.
  rewrite check_all_loop_earlier in H
    by apply checkers_before_fair_cycle_not.
  simpl LimitEngine._config in *.
  destruct (earlier_checks _ _ state model quota_group o) as [r1 o1].
  simpl fst.
  destruct (LimitCheckResult.allowed r1) eqn:E; [reflexivity|].
  simpl in H. congruence.
Qed.

(** The credentials that step 2 of [select] finds available are let
    through by the checkers before the fair-cycle checker; [w0] is a pool
    from which [w] differs at most by fair-cycle records. *)
Lemma filter_available_passes o0 w0 candidates : forall w o c,
  (forall sid st,
     odict_get (w_states w) sid = Some st ->
     exists st0,
       odict_get (w_states w0) sid = Some st0
       /\ only_fair_cycle_differs st0 st) ->
  c ∈ fst (fst (filter_available se model quota_group candidates w o)) ->
  exists st0,
    odict_get (w_states w0) c = Some st0
    /\ LimitCheckResult.allowed
         (verdict_before_fair_cycle (SelectionEngine._limits se) st0 model
                                    quota_group o0) = true.
Proof.
  induction candidates as [|sid rest IH]; intros w o c Hrel Hc.
  - inversion Hc.
  - simpl in Hc.
    destruct (odict_get (w_states w) sid) as [state|] eqn:Hget;
      [|exact (IH w o c Hrel Hc)].
    unfold mbind, M_bind in Hc.
    pose proof (check_all_allowed_verdict state (w_global w) o) as Hv.
    pose proof (check_all_loop_frame (SelectionEngine._limits se) model
                  quota_group
                  (LimitEngine._checkers (SelectionEngine._limits se))
                  state (w_global w) o) as Hframe.
    fold (check_all (SelectionEngine._limits se) state model quota_group
            (w_global w)) in Hframe.
    destruct (check_all _ state model quota_group (w_global w) o)
      as [[[r state1] global1] o1]. simpl in Hv, Hframe.
    set (w1 := mkWorld (odict_set (w_states w) sid state1) global1
                       (w_current w)) in *.
    assert (Hrel1 : forall sid' st,
              odict_get (w_states w1) sid' = Some st ->
              exists st0,
                odict_get (w_states w0) sid' = Some st0
                /\ only_fair_cycle_differs st0 st).
    { intros sid' st Hs. subst w1. simpl in Hs.
      destruct (decide (sid = sid')) as [<-|Hne].
      - rewrite odict_get_set_eq in Hs. inversion Hs; subst st.
        destruct (Hrel sid state Hget) as (st0 & H0 & Hd).
        exists st0. split; [exact H0|].
        eapply only_fair_cycle_differs_trans; eassumption.
      - rewrite odict_get_set_ne in Hs by exact Hne. exact (Hrel sid' st Hs). }
    specialize (IH w1 o1 c Hrel1).
    destruct (filter_available se model quota_group rest w1 o1)
      as [[available w2] o2]. simpl in Hc, IH.
    destruct (LimitCheckResult.allowed r) eqn:Er; [|exact (IH Hc)].
    apply elem_of_cons in Hc as [->|Hc]; [|exact (IH Hc)].
    destruct (Hrel sid state Hget) as (st0 & H0 & [f ->]).
    exists st0. split; [exact H0|].
    rewrite (verdict_before_fair_cycle_free _ _ _ _ o0 o).
    specialize (Hv eq_refl). unfold verdict_before_fair_cycle in *.
    rewrite earlier_checks_ignores_fair_cycle in Hv
      by apply checkers_before_fair_cycle_not.
    exact Hv.
Qed.


End Pool.


End Frozen.

(** ** Fair-cycle exhaustion of a pool and of a credential *)

Lemma forallb_groups {A} (key : A -> Z) (P : A -> bool) (l : list A) :
  forallb (fun group => forallb P (snd group)) (group_by_priority key l)
  = forallb P l.
Proof.
  apply eq_true_iff_eq. rewrite !forallb_forall. split.
  - intros H x Hx. apply list_elem_of_In in Hx.
    destruct (group_by_priority_covers key l x Hx) as (q & xs & Hg & Hxs).
    apply list_elem_of_In in Hg. specialize (H (q, xs) Hg). simpl in H.
    rewrite forallb_forall in H. apply H. apply list_elem_of_In. exact Hxs.
  - intros H [q xs] Hg. simpl. apply forallb_forall. intros x Hx.
    apply H. apply list_elem_of_In.
    apply (group_by_priority_elem key l q xs x); apply list_elem_of_In; assumption.
Qed.

(** X1. [check_all_exhausted] does not depend on the tiers: whatever the
    [priorities] and the [cross_tier] setting, it answers whether every
    credential of [all_states] is exhausted for the key, because a pool is
    exhausted tier by tier exactly when it is exhausted as a whole. *)
Theorem check_all_exhausted_ignores_tiers fc group_key all_states priorities :
  check_all_exhausted fc group_key all_states priorities
  = _all_exhausted_in_group all_states group_key.
Proof.
  unfold check_all_exhausted. destruct priorities as [p|]; [|reflexivity].
  destruct (negb (bool_decide (size p = 0%nat))
            && negb (FairCycleConfig.cross_tier fc)); [|reflexivity].
  unfold _all_exhausted_in_group. apply forallb_groups.
Qed.

(** X2. Marking a credential exhausted makes it exhausted for that key and
    leaves its records for other keys alone; [reset_fair_cycle] on the key
    then makes it not exhausted again, with the request count of the cycle
    back at 0. *)
Theorem mark_exhausted_then_reset state key reason o :
  let state1 := fst (mark_exhausted state key reason o) in
  let state2 := reset_fair_cycle state1 key in
  CredentialState.is_fair_cycle_exhausted state1 key = true
  /\ (forall k, k <> key ->
        CredentialState.fair_cycle state1 !! k
        = CredentialState.fair_cycle state !! k)
  /\ CredentialState.is_fair_cycle_exhausted state2 key = false
  /\ FairCycleState.cycle_request_count
       <$> CredentialState.fair_cycle state2 !! key = Some 0
  /\ (forall k, k <> key ->
        CredentialState.fair_cycle state2 !! k
        = CredentialState.fair_cycle state !! k).
Proof.
  unfold mark_exhausted, _mark_exhausted, reset_fair_cycle,
    CredentialState.is_fair_cycle_exhausted, mbind, M_bind, mret, M_ret,
    time_time.
  destruct (CredentialState.fair_cycle state !! key) as [fc|] eqn:E.
  - rewrite E. destruct (FairCycleState.exhausted fc) eqn:Ex; simpl.
    + rewrite E. simpl. rewrite lookup_insert_eq. simpl.
      repeat split; try assumption; try reflexivity.
      intros k Hk. rewrite lookup_insert_ne by congruence. reflexivity.
    + rewrite !lookup_insert_eq. simpl. rewrite lookup_insert_eq. simpl.
      repeat split; try reflexivity.
      * intros k Hk. rewrite lookup_insert_ne by congruence. reflexivity.
      * intros k Hk. rewrite !lookup_insert_ne by congruence. reflexivity.
  - rewrite lookup_insert_eq. simpl. rewrite !lookup_insert_eq. simpl.
    rewrite lookup_insert_eq. simpl. repeat split; try reflexivity.
    + intros k Hk. rewrite !lookup_insert_ne by congruence. reflexivity.
    + intros k Hk. rewrite !lookup_insert_ne by congruence. reflexivity.
Qed.

(** X3. Marking is idempotent: on a credential that is already exhausted
    for the key, [mark_exhausted] changes nothing, so the time and the
    reason of the first exhaustion are the ones that stay. *)
Theorem mark_exhausted_keeps_first state key reason o :
  CredentialState.is_fair_cycle_exhausted state key = true ->
  fst (mark_exhausted state key reason o) = state.
Proof.
  unfold mark_exhausted, _mark_exhausted,
    CredentialState.is_fair_cycle_exhausted, mbind, M_bind, mret, M_ret,
    time_time.
  destruct (CredentialState.fair_cycle state !! key) as [fc|] eqn:E;
    [|discriminate].
  intros Hex. rewrite E, Hex. simpl. apply set_fair_cycle_same.
Qed.

(** ** Cooldowns: applying, checking, reading and clearing *)

Lemma _apply_cooldown_cooldowns
    te state reason duration until model_or_group source o u :
  resolve_cooldown_until (clock (ticks o)) duration until = Some u ->
  exists c,
    CredentialState.cooldowns
      (fst (_apply_cooldown te state reason duration until model_or_group
                            source o))
    = <[py_or_str model_or_group "_global_" := c]>
        (CredentialState.cooldowns state)
    /\ CooldownInfo.until c = u
    /\ CooldownInfo.model_or_group c = model_or_group.
Proof.
  intros Hres. unfold _apply_cooldown, is_active.
  unfold mbind, M_bind, mret, M_ret, time_time. simpl. rewrite Hres.
  destruct (CredentialState.cooldowns state
              !! py_or_str model_or_group "_global_") as [e|]; simpl.
  - destruct (Qlt_bool (clock (S (ticks o))) (CooldownInfo.until e)); simpl;
      (match goal with
       | |- context [if ?b then _ else _] => destruct b
       end; [rewrite _mark_exhausted_cooldowns|]);
      eexists; (split; [reflexivity|split; reflexivity]).
  - match goal with
    | |- context [if ?b then _ else _] => destruct b
    end; [rewrite _mark_exhausted_cooldowns|];
      eexists; (split; [reflexivity|split; reflexivity]).
Qed.

(** The keys that [CooldownChecker.check] looks up, in order. *)
Lemma cooldown_check_keys_blocks state now keys : forall o key c,
  key ∈ keys ->
  CredentialState.cooldowns state !! key = Some c ->
  (now < CooldownInfo.until c)%Q ->
  exists r t,
    fst (cooldown_check_keys state now keys o) = Some r
    /\ LimitCheckResult.allowed r = false
    /\ LimitCheckResult.result r = LimitResult.BLOCKED_COOLDOWN
    /\ LimitCheckResult.blocked_until r = Some t
    /\ (now < t)%Q.
Proof.
  induction keys as [|k keys IH]; intros o key c Hin Hc Hlt.
  - inversion Hin.
  - simpl. destruct (CredentialState.cooldowns state !! k) as [ck|] eqn:Ek.
    + destruct (Qlt_bool now (CooldownInfo.until ck)) eqn:Eact.
      * unfold remaining_seconds, mbind, M_bind, mret, M_ret, time_time.
        simpl. eexists _, _. split; [reflexivity|].
        repeat split. apply Qlt_bool_iff. exact Eact.
      * apply elem_of_cons in Hin as [->|Hin].
        -- rewrite Hc in Ek. inversion Ek; subst ck.
           apply Qlt_bool_iff in Hlt. congruence.
        -- exact (IH o key c Hin Hc Hlt).
    + apply elem_of_cons in Hin as [->|Hin]; [congruence|].
      exact (IH o key c Hin Hc Hlt).
Qed.

Lemma cooldown_check_keys_none state now keys : forall o,
  (forall key, key ∈ keys -> active_cooldown_at state now key = None) ->
  cooldown_check_keys state now keys o = (None, o).
Proof.
  induction keys as [|k keys IH]; intros o Hnone; [reflexivity|].
  simpl. pose proof (Hnone k ltac:(left)) as Hk.
  unfold active_cooldown_at in Hk.
  destruct (CredentialState.cooldowns state !! k) as [ck|].
  - destruct (Qlt_bool now (CooldownInfo.until ck)); [discriminate|].
    apply IH. intros key Hkey. apply Hnone. right. exact Hkey.
  - apply IH. intros key Hkey. apply Hnone. right. exact Hkey.
Qed.

Lemma CooldownChecker_check_blocks state model quota_group o key c :
  key ∈ cooldown_keys_to_check model quota_group ++ ["_global_"] ->
  CredentialState.cooldowns state !! key = Some c ->
  (clock (ticks o) < CooldownInfo.until c)%Q ->
  let result := fst (CooldownChecker_check state model quota_group o) in
  LimitCheckResult.allowed result = false
  /\ LimitCheckResult.result result = LimitResult.BLOCKED_COOLDOWN
  /\ exists t, LimitCheckResult.blocked_until result = Some t
               /\ (clock (ticks o) < t)%Q.
Proof.
  intros Hin Hc Hlt result. subst result.
  unfold CooldownChecker_check, mbind, M_bind, time_time. cbv beta iota.
  destruct (cooldown_check_keys state (clock (ticks o))
              (cooldown_keys_to_check model quota_group)
              {| ticks := S (ticks o); draws := draws o |})
    as [found o1] eqn:Ef.
  destruct found as [r|].
  - (* some scoped key blocks: it is an active cooldown *)
    simpl.
    assert (Hr : LimitCheckResult.allowed r = false
                 /\ LimitCheckResult.result r = LimitResult.BLOCKED_COOLDOWN
                 /\ exists t, LimitCheckResult.blocked_until r = Some t
                              /\ (clock (ticks o) < t)%Q).
    { clear Hin Hc Hlt. revert o1 Ef.
      generalize ({| ticks := S (ticks o); draws := draws o |}).
      induction (cooldown_keys_to_check model quota_group) as [|k keys IH];
        intros o0 o1 Ef; simpl in Ef; [inversion Ef|].
      destruct (CredentialState.cooldowns state !! k) as [ck|];
        [|exact (IH _ _ Ef)].
      destruct (Qlt_bool (clock (ticks o)) (CooldownInfo.until ck)) eqn:Ea;
        [|exact (IH _ _ Ef)].
      unfold remaining_seconds, mbind, M_bind, mret, M_ret, time_time in Ef.
      simpl in Ef. inversion Ef; subst. simpl.
      repeat split. eexists. split; [reflexivity|].
      apply Qlt_bool_iff. exact Ea. }
    exact Hr.
  - apply elem_of_app in Hin as [Hin|Hin].
    + destruct (cooldown_check_keys_blocks state (clock (ticks o)) _
                  {| ticks := S (ticks o); draws := draws o |} key c Hin Hc Hlt)
        as (r & t & Hr & _).
      rewrite Ef in Hr. discriminate.
    + apply list_elem_of_singleton in Hin. subst key. rewrite Hc.
      apply Qlt_bool_iff in Hlt. rewrite Hlt.
      unfold remaining_seconds, mbind, M_bind, mret, M_ret, time_time. simpl.
      repeat split. eexists. split; [reflexivity|].
      apply Qlt_bool_iff. exact Hlt.
Qed.

(** X4. A cooldown that [apply_cooldown] has set blocks the credential:
    for every request whose group key or model is the scope of the
    cooldown, and for every request when the cooldown is credential-wide,
    [CooldownChecker.check] refuses the credential at any later clock
    reading that lies before the end of the cooldown, and reports a
    [blocked_until] in the future. *)
Theorem apply_cooldown_then_check_blocks
    te state reason duration until model_or_group source model quota_group
    o o2 u :
  resolve_cooldown_until (clock (ticks o)) duration until = Some u ->
  py_or_str model_or_group "_global_"
    ∈ cooldown_keys_to_check model quota_group ++ ["_global_"] ->
  (clock (ticks o2) < u)%Q ->
  let state1 :=
    fst (apply_cooldown te state reason duration until model_or_group
                        source o) in
  let result := fst (CooldownChecker_check state1 model quota_group o2) in
  LimitCheckResult.allowed result = false
  /\ LimitCheckResult.result result = LimitResult.BLOCKED_COOLDOWN
  /\ exists t, LimitCheckResult.blocked_until result = Some t
               /\ (clock (ticks o2) < t)%Q.
Proof.
  intros Hres Hin Hlt state1.
  destruct (_apply_cooldown_cooldowns te state reason duration until
              model_or_group source o u Hres) as (c & Hc & Hu & _).
  apply (CooldownChecker_check_blocks state1 model quota_group o2
           (py_or_str model_or_group "_global_") c Hin).
  - subst state1. unfold apply_cooldown. rewrite Hc.
    apply lookup_insert_eq.
  - rewrite Hu. exact Hlt.
Qed.

Lemma _mark_exhausted_exhausted state key reason o :
  CredentialState.is_fair_cycle_exhausted
    (fst (_mark_exhausted state key reason o)) key = true.
Proof. apply (mark_exhausted_then_reset state key reason o). Qed.

Lemma clear_cooldown_fair_cycle state model_or_group :
  CredentialState.fair_cycle (clear_cooldown state model_or_group)
  = CredentialState.fair_cycle state.
Proof.
  unfold clear_cooldown.
  destruct (CredentialState.cooldowns state !! _); reflexivity.
Qed.

Lemma clear_cooldown_lookup state model_or_group :
  CredentialState.cooldowns (clear_cooldown state model_or_group)
    !! py_or_str model_or_group "_global_" = None.
Proof.
  unfold clear_cooldown.
  destruct (CredentialState.cooldowns state !! _) eqn:E; [|exact E].
  simpl. apply lookup_delete_eq.
Qed.

(** X5. Clearing a cooldown does not clear the exhaustion it caused. When
    fair cycle is enabled and a cooldown on a scope runs for at least
    [exhaustion_cooldown_threshold] seconds, [apply_cooldown] also marks
    the credential exhausted; [clear_cooldown] on that scope then removes
    the cooldown but the credential stays fair-cycle exhausted. *)
Theorem clear_cooldown_keeps_exhaustion
    te state reason duration until scope source o u :
  resolve_cooldown_until (clock (ticks o)) duration until = Some u ->
  py_str_truthy scope = true ->
  FairCycleConfig.is_enabled
    (ProviderUsageConfig.fair_cycle (TrackingEngine._config te)) = true ->
  (inject_Z (ProviderUsageConfig.exhaustion_cooldown_threshold
               (TrackingEngine._config te))
   <= u - clock (ticks o))%Q ->
  let state1 :=
    fst (apply_cooldown te state reason duration until (Some scope)
                        source o) in
  let state2 := clear_cooldown state1 (Some scope) in
  CredentialState.is_fair_cycle_exhausted state1
    (_resolve_fair_cycle_key te scope) = true
  /\ CredentialState.cooldowns state2 !! scope = None
  /\ CredentialState.is_fair_cycle_exhausted state2
       (_resolve_fair_cycle_key te scope) = true.
Proof.
  intros Hres Htruthy Hen Hlong state1 state2.
  assert (H1 : CredentialState.is_fair_cycle_exhausted state1
                 (_resolve_fair_cycle_key te scope) = true).
  { subst state1. unfold apply_cooldown, _apply_cooldown, is_active.
    unfold mbind at 1, M_bind at 1, time_time at 1. rewrite Hres.
    apply Qle_bool_iff in Hlong.
    unfold py_or_str, py_opt_str_truthy. rewrite Htruthy.
    destruct (CredentialState.cooldowns state !! scope) as [e|]; simpl.
    - unfold mbind, M_bind, mret, M_ret, time_time. simpl.
      destruct (Qlt_bool (clock (S (ticks o))) (CooldownInfo.until e)); simpl;
        rewrite Hlong, Hen; simpl; apply _mark_exhausted_exhausted.
    - unfold mbind, M_bind, mret, M_ret. simpl.
      rewrite Hlong, Hen. simpl. apply _mark_exhausted_exhausted. }
  split; [exact H1|]. split.
  - pose proof (clear_cooldown_lookup state1 (Some scope)) as H.
    unfold py_or_str in H. rewrite Htruthy in H. exact H.
  - unfold CredentialState.is_fair_cycle_exhausted in *. subst state2.
    rewrite clear_cooldown_fair_cycle. exact H1.
Qed.

(** X6. [acquire] takes a slot exactly when the concurrency checker
    allows the credential. A successful call adds one active request, a
    refused call changes nothing, and a credential within its
    [max_concurrent] stays within it. *)
Theorem acquire_respects_max_concurrent state model :
  let '(acquired, state1) := acquire state model in
  acquired = LimitCheckResult.allowed (ConcurrentLimitChecker_check state)
  /\ CredentialState.active_requests state1
     = (if acquired then CredentialState.active_requests state + 1
        else CredentialState.active_requests state)
  /\ (acquired = false -> state1 = state)
  /\ (forall max_concurrent,
        CredentialState.max_concurrent state = Some max_concurrent ->
        CredentialState.active_requests state <= max_concurrent ->
        CredentialState.active_requests state1 <= max_concurrent).
Proof.
  unfold acquire, ConcurrentLimitChecker_check.
  destruct (CredentialState.max_concurrent state) as [m|] eqn:Em.
  - destruct (m <=? CredentialState.active_requests state) eqn:E; simpl.
    + repeat split; try reflexivity. intros m' Hm' Hle. exact Hle.
    + repeat split; try reflexivity; try discriminate.
      intros m' Hm' Hle. inversion Hm'; subst. lia.
  - simpl. repeat split; try reflexivity; discriminate.
Qed.

(** X7. The three readers of the cooldowns agree. [get_cooldown_end]
    returns the end of the cooldown that [CredentialState.get_cooldown]
    returns, an end that lies after the clock reading; and when it finds
    a cooldown for the group key of a request, [CooldownChecker.check]
    refuses the credential at the same clock reading. *)
Theorem cooldown_readers_agree state model quota_group model_or_group o :
  get_cooldown_end state model_or_group o
  = (CooldownInfo.until <$> fst (get_cooldown state model_or_group o),
     snd (get_cooldown state model_or_group o))
  /\ (forall t, fst (get_cooldown_end state model_or_group o) = Some t ->
        (clock (ticks o) < t)%Q)
  /\ (is_Some (fst (get_cooldown_end state
                      (Some (py_or_str quota_group model)) o)) ->
      LimitCheckResult.allowed
        (fst (CooldownChecker_check state model quota_group o)) = false).
Proof.
  assert (Hact : forall now key c,
            active_cooldown_at state now key = Some c ->
            CredentialState.cooldowns state !! key = Some c
            /\ (now < CooldownInfo.until c)%Q).
  { intros now key c. unfold active_cooldown_at.
    destruct (CredentialState.cooldowns state !! key) as [c'|]; [|discriminate].
    destruct (Qlt_bool now (CooldownInfo.until c')) eqn:E; [|discriminate].
    intros H; inversion H; subst. split; [reflexivity|].
    apply Qlt_bool_iff. exact E. }
  assert (Hend : forall mog t,
            fst (get_cooldown_end state mog o) = Some t ->
            exists key c,
              (key = "_global_"
               \/ (py_opt_str_truthy mog = true /\ key = py_or_str mog ""))
              /\ CredentialState.cooldowns state !! key = Some c
              /\ CooldownInfo.until c = t
              /\ (clock (ticks o) < t)%Q).
  { intros mog t. unfold get_cooldown_end, mbind, M_bind, mret, M_ret, time_time.
    destruct (py_opt_str_truthy mog) eqn:Et.
    - destruct (active_cooldown_at state (clock (ticks o)) (py_or_str mog ""))
        as [c|] eqn:E1; simpl.
      + intros H; inversion H; subst. destruct (Hact _ _ _ E1).
        exists (py_or_str mog ""), c. auto.
      + destruct (active_cooldown_at state (clock (ticks o)) "_global_")
          as [c|] eqn:E2; simpl; [|discriminate].
        intros H; inversion H; subst. destruct (Hact _ _ _ E2).
        exists "_global_", c. auto.
    - simpl.
      destruct (active_cooldown_at state (clock (ticks o)) "_global_")
        as [c|] eqn:E2; simpl; [|discriminate].
      intros H; inversion H; subst. destruct (Hact _ _ _ E2).
      exists "_global_", c. auto. }
  split; [|split].
  - unfold get_cooldown_end, get_cooldown, mbind, M_bind, mret, M_ret, time_time.
    destruct (if py_opt_str_truthy model_or_group
              then active_cooldown_at state (clock (ticks o))
                     (py_or_str model_or_group "")
              else None); reflexivity.
  - intros t Ht. destruct (Hend _ _ Ht) as (key & c & _ & _ & _ & Hlt).
    exact Hlt.
  - intros [t Ht]. destruct (Hend _ _ Ht) as (key & c & Hkey & Hc & Hu & Hlt).
    apply (CooldownChecker_check_blocks state model quota_group o key c).
    + destruct Hkey as [->|[Htr ->]].
      * apply elem_of_app. right. left.
      * apply elem_of_app. left. unfold cooldown_keys_to_check.
        simpl in Htr. simpl.
        replace (py_or_str (Some (py_or_str quota_group model)) "")
          with (py_or_str quota_group model)
          by (unfold py_or_str at 2; rewrite Htr; reflexivity).
        rewrite Htr. left.
    + exact Hc.
    + rewrite Hu. exact Hlt.
Qed.

(** ** Resets through the limit engine *)

Lemma window_limit_loop_usage wm state state' model group_key defs :
  CredentialState.model_usage state' = CredentialState.model_usage state ->
  CredentialState.group_usage state' = CredentialState.group_usage state ->
  window_limit_loop wm state' model group_key defs
  = window_limit_loop wm state model group_key defs.
Proof.
  intros Hm Hg. induction defs as [|definition defs IH]; [reflexivity|].
  simpl. unfold windows_for_definition, CredentialState.get_model_stats,
    CredentialState.get_group_stats. rewrite Hm, Hg, IH. reflexivity.
Qed.

Lemma custom_cap_loop_usage wm state state' all_caps :
  CredentialState.model_usage state' = CredentialState.model_usage state ->
  CredentialState.group_usage state' = CredentialState.group_usage state ->
  custom_cap_loop wm state' all_caps = custom_cap_loop wm state all_caps.
Proof.
  intros Hm Hg. induction all_caps as [|[[cap scope] scope_key] rest IH];
    [reflexivity|].
  simpl. unfold _check_single_cap, scope_windows,
    CredentialState.get_model_stats, CredentialState.get_group_stats.
  rewrite Hm, Hg, IH. reflexivity.
Qed.

Lemma CooldownChecker_check_no_cooldowns state model quota_group o :
  CredentialState.cooldowns state = ∅ ->
  CooldownChecker_check state model quota_group o
  = (LimitCheckResult.ok, mkOracle (S (ticks o)) (draws o)).
Proof.
  intros He. unfold CooldownChecker_check, mbind, M_bind, time_time.
  cbv beta iota. rewrite cooldown_check_keys_none.
  - rewrite He, lookup_empty. reflexivity.
  - intros key _. unfold active_cooldown_at. rewrite He, lookup_empty.
    reflexivity.
Qed.

(** X8. [reset_all] without a scope, on an engine as [LimitEngine.__init__]
    builds it, drops every cooldown and clears every fair-cycle record of
    the credential, so that the cooldown checker lets it pass at any time.
    It does not touch the usage or the active requests: the verdicts of
    the concurrency, window-limit and custom-cap checkers are the ones of
    before the reset. *)
Theorem reset_all_without_scope config wm state :
  let le := LimitEngine.init config wm in
  let state1 := reset_all le state None None in
  CredentialState.cooldowns state1 = ∅
  /\ (forall key, CredentialState.is_fair_cycle_exhausted state1 key = false)
  /\ (forall key fc_state,
        CredentialState.fair_cycle state1 !! key = Some fc_state ->
        FairCycleState.cycle_request_count fc_state = 0)
  /\ (forall model quota_group o,
        LimitCheckResult.allowed
          (fst (CooldownChecker_check state1 model quota_group o)) = true)
  /\ ConcurrentLimitChecker_check state1 = ConcurrentLimitChecker_check state
  /\ (forall model quota_group,
        WindowLimitChecker_check wm state1 model quota_group
        = WindowLimitChecker_check wm state model quota_group)
  /\ (forall caps model quota_group,
        CustomCapChecker_check caps wm state1 model quota_group
        = CustomCapChecker_check caps wm state model quota_group).
Proof.
  intros le state1.
  assert (Hs : state1
               = CredentialState.set_fair_cycle
                   (CredentialState.set_cooldowns state ∅)
                   (FairCycleState.cleared <$> CredentialState.fair_cycle state)).
  { subst state1 le. unfold reset_all, LimitEngine.init. simpl.
    destruct (ProviderUsageConfig.window_limits_enabled config); reflexivity. }
  rewrite Hs. split; [reflexivity|]. split; [|split; [|split; [|split; [|split]]]].
  - intros key. unfold CredentialState.is_fair_cycle_exhausted. simpl.
    rewrite lookup_fmap.
    destruct (CredentialState.fair_cycle state !! key); reflexivity.
  - intros key fc_state. simpl. rewrite lookup_fmap.
    destruct (CredentialState.fair_cycle state !! key); simpl; [|discriminate].
    intros H; inversion H; reflexivity.
  - intros model quota_group o.
    rewrite CooldownChecker_check_no_cooldowns; reflexivity.
  - reflexivity.
  - intros model quota_group. unfold WindowLimitChecker_check.
    apply window_limit_loop_usage; reflexivity.
  - intros caps model quota_group. unfold CustomCapChecker_check.
    destruct caps; [reflexivity|].
    destruct (get_primary_definition wm); [|reflexivity].
    apply custom_cap_loop_usage; reflexivity.
Qed.

(** ** The serialised global fair-cycle state *)

(** X9. Saving and loading the global fair-cycle state is a round trip:
    [load_global_state_dict] applied to the result of
    [get_global_state_dict] restores every provider, every tracking key
    and the three fields of every cycle, whatever was loaded before. *)
Theorem global_state_round_trip global previous :
  load_global_state_dict previous (get_global_state_dict global) = global.
Proof.
  unfold load_global_state_dict, get_global_state_dict.
  apply map_eq. intros provider. rewrite !lookup_fmap.
  destruct (global !! provider) as [groups|]; [|reflexivity]. simpl.
  f_equal. apply map_eq. intros key. rewrite !lookup_fmap.
  destruct (groups !! key) as [[start at_ count]|]; reflexivity.
Qed.

(** ** The other entry points of the limit engine *)

Lemma odict_set_fresh {V} (d : list (string * V)) k v :
  k ∉ odict_keys d -> odict_set d k v = d ++ [(k, v)].
Proof.
  induction d as [|[k' v'] d IH]; simpl; intros Hk; [reflexivity|].
  destruct (String.eqb k' k) eqn:E.
  - apply String.eqb_eq in E. subst. exfalso. apply Hk. left.
  - rewrite IH; [reflexivity|]. intros H. apply Hk. right. exact H.
Qed.

Lemma get_blocking_info_loop_spec le model quota_group checkers :
  forall state global o acc,
    NoDup (map Checker_name checkers) ->
    (forall checker, checker ∈ checkers ->
                     Checker_name checker ∉ odict_keys acc) ->
    exists extra,
      fst (fst (fst (get_blocking_info_loop le checkers state model
                       quota_group global acc o))) = acc ++ extra
      /\ odict_keys extra = map Checker_name checkers
      /\ verdict_of (check_all_loop le checkers state model quota_group
                       global o)
         = match first_blocked extra with
           | Some (_, result) => result
           | None => LimitCheckResult.ok
           end.
Proof.
  induction checkers as [|c rest IH]; intros state global o acc Hnd Hfresh.
  - exists []. simpl. rewrite app_nil_r. auto.
  - simpl. unfold mbind, M_bind.
    destruct (Checker_check le c state model quota_group global o)
      as [[[result state1] global1] o1] eqn:Ec.
    simpl in Hnd. apply NoDup_cons in Hnd as [Hc Hnd].
    rewrite odict_set_fresh by (apply Hfresh; left).
    destruct (IH state1 global1 o1 (acc ++ [(Checker_name c, result)]) Hnd)
      as (extra & Hres & Hkeys & Hverdict).
    { intros c' Hc'. unfold odict_keys. rewrite map_app. simpl.
      intros Hin. apply elem_of_app in Hin as [Hin|Hin].
      - apply (Hfresh c'); [right; exact Hc'|exact Hin].
      - apply list_elem_of_singleton in Hin. apply Hc. rewrite <- Hin.
        apply list_elem_of_fmap. exists c'. split; [reflexivity|exact Hc']. }
    exists ((Checker_name c, result) :: extra). split; [|split].
    + rewrite Hres, <- app_assoc. reflexivity.
    + simpl. f_equal. exact Hkeys.
    + unfold first_blocked. simpl.
      destruct (LimitCheckResult.allowed result) eqn:Ea; simpl.
      * exact Hverdict.
      * reflexivity.
Qed.

(** X10. [get_blocking_info] and [check_all] agree. On an engine whose
    checkers have distinct names, as [LimitEngine.__init__] builds it,
    [get_blocking_info] has one entry per checker, in the order of the
    checkers, and the first entry that is not allowed is the result that
    [check_all] returns from the same state and clock; when every entry
    is allowed, [check_all] allows. *)
Theorem get_blocking_info_agrees_with_check_all
    le state model quota_group global o :
  NoDup (map Checker_name (LimitEngine._checkers le)) ->
  let results :=
    fst (fst (fst (get_blocking_info le state model quota_group global o))) in
  odict_keys results = map Checker_name (LimitEngine._checkers le)
  /\ verdict_of (check_all le state model quota_group global o)
     = match first_blocked results with
       | Some (_, result) => result
       | None => LimitCheckResult.ok
       end.
Proof.
  intros Hnd results.
  destruct (get_blocking_info_loop_spec le model quota_group
              (LimitEngine._checkers le) state global o [] Hnd)
    as (extra & Hres & Hkeys & Hverdict).
  { intros c _ H. inversion H. }
  subst results. unfold get_blocking_info, check_all.
  rewrite Hres. simpl. split; [exact Hkeys|exact Hverdict].
Qed.

Lemma LimitEngine_init_names config wm :
  NoDup (map Checker_name (LimitEngine._checkers (LimitEngine.init config wm))).
Proof.
  unfold LimitEngine.init. simpl.
  destruct (ProviderUsageConfig.window_limits_enabled config); simpl;
    repeat (apply NoDup_cons; split;
            [intros H;
             repeat (apply elem_of_cons in H as [H|H]; [discriminate|]);
             inversion H|]);
    apply NoDup_nil_2.
Qed.

Lemma check_specific_loop_unknown le name model quota_group checkers :
  forall state global o,
    name ∉ map Checker_name checkers ->
    check_specific_loop le checkers name state model quota_group global o
    = (LimitCheckResult.ok, state, global, o).
Proof.
  induction checkers as [|c rest IH]; intros state global o Hnot;
    [reflexivity|].
  simpl. destruct (String.eqb (Checker_name c) name) eqn:E.
  - apply String.eqb_eq in E. exfalso. apply Hnot. rewrite <- E. left.
  - apply IH. intros H. apply Hnot. right. exact H.
Qed.

Lemma filter_other_names name checkers :
  name ∉ map Checker_name checkers ->
  filter (fun checker => Checker_name checker <> name) checkers = checkers.
Proof.
  induction checkers as [|c rest IH]; intros Hnot; [reflexivity|].
  rewrite filter_cons.
  destruct (decide (Checker_name c <> name)) as [Hne|He].
  - rewrite IH; [reflexivity|]. intros H. apply Hnot. right. exact H.
  - exfalso. apply Hnot. simpl.
    destruct (String.eqb_spec (Checker_name c) name) as [->|Hne];
      [left|contradiction].
Qed.

Lemma remove_first_spec name checkers :
  NoDup (map Checker_name checkers) ->
  match remove_first name checkers with
  | Some rest =>
      name ∈ map Checker_name checkers
      /\ rest = filter (fun checker => Checker_name checker <> name) checkers
  | None =>
      name ∉ map Checker_name checkers
  end.
Proof.
  induction checkers as [|c rest IH]; simpl; intros Hnd.
  - intros H. inversion H.
  - apply NoDup_cons in Hnd as [Hc Hnd].
    destruct (String.eqb (Checker_name c) name) eqn:E.
    + apply String.eqb_eq in E. split; [rewrite E; left|].
      rewrite filter_cons.
      destruct (decide (Checker_name c <> name)); [congruence|].
      symmetry. apply filter_other_names. rewrite <- E. exact Hc.
    + apply String.eqb_neq in E. specialize (IH Hnd).
      destruct (remove_first name rest) as [rest'|]; simpl.
      * destruct IH as [Hin ->]. split; [right; exact Hin|].
        rewrite filter_cons.
        destruct (decide (Checker_name c <> name)); [reflexivity|contradiction].
      * intros H. apply elem_of_cons in H as [H|H]; [congruence|].
        exact (IH H).
Qed.

(** X11. [remove_checker] answers whether a checker of that name was
    listed and, on an engine whose checkers have distinct names, leaves
    the other checkers in their order. Afterwards [check_specific] for
    that name is a check by an unknown checker: it allows the credential
    and changes neither the credential nor the global state. *)
Theorem remove_checker_then_check_specific
    le name state model quota_group global o :
  NoDup (map Checker_name (LimitEngine._checkers le)) ->
  let le1 := snd (remove_checker le name) in
  fst (remove_checker le name)
  = bool_decide (name ∈ map Checker_name (LimitEngine._checkers le))
  /\ LimitEngine._checkers le1
     = filter (fun checker => Checker_name checker <> name)
              (LimitEngine._checkers le)
  /\ check_specific le1 name state model quota_group global o
     = (LimitCheckResult.ok, state, global, o).
Proof.
  intros Hnd le1.
  assert (Hgone : name ∉ map Checker_name
                    (filter (fun checker => Checker_name checker <> name)
                            (LimitEngine._checkers le))).
  { intros H. apply list_elem_of_fmap in H as (c & Hc & Hin).
    apply list_elem_of_filter in Hin as [Hne _]. congruence. }
  pose proof (remove_first_spec name (LimitEngine._checkers le) Hnd) as Hspec.
  subst le1. unfold remove_checker.
  destruct (remove_first name (LimitEngine._checkers le)) as [rest|]; simpl.
  - destruct Hspec as [Hin ->]. split; [|split; [reflexivity|]].
    + symmetry. apply bool_decide_eq_true. exact Hin.
    + unfold check_specific. simpl.
      apply check_specific_loop_unknown. exact Hgone.
  - split; [|split].
    + symmetry. apply bool_decide_eq_false. exact Hspec.
    + symmetry. apply filter_other_names. exact Hspec.
    + unfold check_specific. apply check_specific_loop_unknown. exact Hspec.
Qed.

(** ** The sequential strategy *)

Lemma head_sorted_insert {A K} (lt : K -> K -> bool) (key : A -> K) x l :
  head (sorted_insert lt key x l)
  = match head l with
    | Some y => if lt (key y) (key x) then Some y else Some x
    | None => Some x
    end.
Proof.
  destruct l as [|y l]; simpl; [reflexivity|].
  destruct (lt (key y) (key x)); reflexivity.
Qed.

Lemma head_py_sorted_None {A K} (lt : K -> K -> bool) (key : A -> K) l :
  head (py_sorted lt key l) = None -> l = [].
Proof.
  destruct l as [|x l]; [reflexivity|]. simpl. rewrite head_sorted_insert.
  destruct (head (py_sorted lt key l)); [destruct (lt _ _)|]; discriminate.
Qed.

(** The head of a sorted list is a least element, for an order that is
    irreflexive, asymmetric and negatively transitive. *)
Lemma head_py_sorted_least {A K} (lt : K -> K -> bool) (key : A -> K) :
  (forall a, lt a a = false) ->
  (forall a b, lt a b = true -> lt b a = false) ->
  (forall a b c, lt a b = false -> lt b c = false -> lt a c = false) ->
  forall l c,
    head (py_sorted lt key l) = Some c ->
    c ∈ l /\ forall y, y ∈ l -> lt (key y) (key c) = false.
Proof.
  intros Hirr Hasym Htrans. induction l as [|x l IH]; intros c Hc.
  - discriminate.
  - simpl in Hc. rewrite head_sorted_insert in Hc.
    destruct (head (py_sorted lt key l)) as [y|] eqn:Ey.
    + destruct (IH y eq_refl) as [Hy Hmin].
      destruct (lt (key y) (key x)) eqn:E; inversion Hc; subst c.
      * split; [right; exact Hy|]. intros z Hz.
        apply elem_of_cons in Hz as [->|Hz]; [apply Hasym; exact E|].
        apply Hmin. exact Hz.
      * split; [left|]. intros z Hz.
        apply elem_of_cons in Hz as [->|Hz]; [apply Hirr|].
        apply (Htrans _ (key y)); [apply Hmin; exact Hz|exact E].
    + inversion Hc; subst c. split; [left|]. intros z Hz.
      apply elem_of_cons in Hz as [->|Hz]; [apply Hirr|].
      exfalso. destruct l as [|x' l']; [inversion Hz|].
      simpl in Ey. rewrite head_sorted_insert in Ey.
      destruct (head (py_sorted lt key l')) as [y'|];
        [destruct (lt _ _)|]; discriminate.
Qed.

Lemma sort_key_lt_iff p1 u1 l1 p2 u2 l2 :
  sort_key_lt (p1, u1, l1) (p2, u2, l2) = true
  <-> p1 < p2 \/ (p1 = p2 /\ (u1 < u2 \/ (u1 = u2 /\ (l1 < l2)%Q))).
Proof.
  unfold sort_key_lt.
  rewrite orb_true_iff, andb_true_iff, orb_true_iff, andb_true_iff.
  rewrite !Z.ltb_lt, !Z.eqb_eq, Qlt_bool_iff. reflexivity.
Qed.

Lemma sort_key_lt_false_iff p1 u1 l1 p2 u2 l2 :
  sort_key_lt (p1, u1, l1) (p2, u2, l2) = false
  <-> p2 <= p1 /\ (p1 = p2 -> u2 <= u1 /\ (u1 = u2 -> (l2 <= l1)%Q)).
Proof.
  rewrite <- not_true_iff_false, sort_key_lt_iff. split.
  - intros H. split; [lia|]. intros ->. split; [lia|]. intros ->.
    destruct (Qlt_le_dec l1 l2) as [Hl|Hl]; [|exact Hl].
    exfalso. apply H. right. split; [reflexivity|]. right. auto.
  - intros [Hp Hu] [H|[-> [H|[-> H]]]]; [lia| |].
    + destruct (Hu eq_refl) as [Hu' _]. lia.
    + destruct (Hu eq_refl) as [_ Hl]. specialize (Hl eq_refl). lra.
Qed.

(** X12. [_select_by_priority] returns the best candidate of a non-empty
    list: none has a lower priority number; among those of its priority
    none has a higher usage count; and among those of its priority and
    usage none was used more recently. *)
Theorem _select_by_priority_best candidates priorities usage_counts states :
  candidates <> [] ->
  exists c,
    _select_by_priority candidates priorities usage_counts states = Some c
    /\ c ∈ candidates
    /\ forall c', c' ∈ candidates ->
         priority_of priorities c <= priority_of priorities c'
         /\ (priority_of priorities c = priority_of priorities c' ->
             usage_of usage_counts c' <= usage_of usage_counts c
             /\ (usage_of usage_counts c = usage_of usage_counts c' ->
                 (recency_of states c' <= recency_of states c)%Q)).
Proof.
  intros Hne. unfold _select_by_priority.
  destruct (head (py_sorted sort_key_lt
                    (sort_key priorities usage_counts states) candidates))
    as [c|] eqn:Eh.
  - exists c. split; [reflexivity|].
    destruct (head_py_sorted_least sort_key_lt
                (sort_key priorities usage_counts states)) with
      (l := candidates) (c := c) as [Hin Hmin]; try exact Eh.
    + intros [[p u] l]. apply sort_key_lt_false_iff.
      split; [lia|]. intros _. split; [lia|]. intros _. lra.
    + intros [[p1 u1] l1] [[p2 u2] l2] H. apply sort_key_lt_iff in H.
      apply sort_key_lt_false_iff.
      destruct H as [H|[-> [H|[-> H]]]].
      * split; [lia|]. intros ->. lia.
      * split; [lia|]. intros _. split; [lia|]. intros ->. lia.
      * split; [lia|]. intros _. split; [lia|]. intros _. lra.
    + intros [[p1 u1] l1] [[p2 u2] l2] [[p3 u3] l3] H12 H23.
      apply sort_key_lt_false_iff in H12, H23. apply sort_key_lt_false_iff.
      destruct H12 as [Hp12 Hu12], H23 as [Hp23 Hu23].
      split; [lia|]. intros ->. assert (p2 = p3) as -> by lia.
      destruct (Hu12 eq_refl) as [Hu12' Hl12].
      destruct (Hu23 eq_refl) as [Hu23' Hl23].
      split; [lia|]. intros ->. assert (u2 = u3) as -> by lia.
      specialize (Hl12 eq_refl). specialize (Hl23 eq_refl). lra.
    + split; [exact Hin|]. intros c' Hc'. specialize (Hmin c' Hc').
      unfold sort_key in Hmin. apply sort_key_lt_false_iff in Hmin.
      unfold priority_of, usage_of, recency_of.
      destruct Hmin as [Hp Hu]. split; [exact Hp|]. intros Hpe.
      destruct (Hu (eq_sym Hpe)) as [Hu' Hl]. split; [lia|]. intros Hue.
      assert (Hl' : (match odict_get states c with
                     | Some state => - last_used_or_zero state
                     | None => 0
                     end
                     <= match odict_get states c' with
                        | Some state => - last_used_or_zero state
                        | None => 0
                        end)%Q) by (apply Hl; lia).
      destruct (odict_get states c), (odict_get states c'); lra.
  - exfalso. destruct candidates as [|x l]; [congruence|].
    simpl in Eh. rewrite head_sorted_insert in Eh.
    destruct (head (py_sorted _ _ l)); [destruct (sort_key_lt _ _)|];
      discriminate.
Qed.

(** X13. The sequential strategy is sticky. Once [select] has chosen a
    credential among two or more candidates, every later [select] for the
    same provider and the same quota group (or model) returns that
    credential again as long as it is among the candidates, whatever the
    priorities, the usage and the other candidates have become; the
    sticky map is not changed by these calls. *)
Theorem sequential_select_is_sticky
    context states current s current' context' states' :
  (2 <= length (SelectionContext.candidates context))%nat ->
  py_str_truthy s = true ->
  SequentialStrategy_select context states current = (Some s, current') ->
  sticky_key context' = sticky_key context ->
  s ∈ SelectionContext.candidates context' ->
  get_current current' (SelectionContext.provider context)
    (py_or_str (SelectionContext.quota_group context)
               (SelectionContext.model context)) = Some s
  /\ SequentialStrategy_select context' states' current' = (Some s, current').
Proof.
  intros Hlen Htruthy Hsel Hkey Hin.
  assert (Hcur : current' !! sticky_key context = Some s).
  { unfold SequentialStrategy_select in Hsel. fold (sticky_key context) in Hsel.
    destruct (SelectionContext.candidates context) as [|c1 [|c2 cs]];
      simpl in Hlen; [lia|lia|].
    destruct (current !! sticky_key context) as [cur|] eqn:Ec.
    - destruct (py_str_truthy cur && bool_decide (cur ∈ c1 :: c2 :: cs)).
      + inversion Hsel; subst. exact Ec.
      + destruct (_select_by_priority _ _ _ _) as [s0|]; [|discriminate].
        destruct (py_str_truthy s0) eqn:Es0; inversion Hsel; subst.
        * apply lookup_insert_eq.
        * congruence.
    - destruct (_select_by_priority _ _ _ _) as [s0|]; [|discriminate].
      destruct (py_str_truthy s0) eqn:Es0; inversion Hsel; subst.
      + apply lookup_insert_eq.
      + congruence. }
  split; [exact Hcur|].
  unfold SequentialStrategy_select. fold (sticky_key context').
  destruct (SelectionContext.candidates context') as [|c1 [|c2 cs]] eqn:Ecs.
  - inversion Hin.
  - apply list_elem_of_singleton in Hin. subst. reflexivity.
  - rewrite Hkey, Hcur, Htruthy. simpl.
    rewrite bool_decide_eq_true_2 by exact Hin. reflexivity.
Qed.

(** X14. [mark_exhausted] of the sequential strategy drops the sticky
    credential of one provider and group only: [get_current] then finds
    none for it, the sticky credentials of the other keys stay, and the
    next [select] among two or more candidates chooses afresh by
    priority, usage and recency. *)
Theorem sequential_mark_exhausted_forces_rotation
    context states current :
  (2 <= length (SelectionContext.candidates context))%nat ->
  let current1 :=
    SequentialStrategy_mark_exhausted current
      (SelectionContext.provider context)
      (py_or_str (SelectionContext.quota_group context)
                 (SelectionContext.model context)) in
  get_current current1 (SelectionContext.provider context)
    (py_or_str (SelectionContext.quota_group context)
               (SelectionContext.model context)) = None
  /\ (forall provider model_or_group,
        (provider, model_or_group) <> sticky_key context ->
        get_current current1 provider model_or_group
        = get_current current provider model_or_group)
  /\ fst (SequentialStrategy_select context states current1)
     = _select_by_priority (SelectionContext.candidates context)
         (SelectionContext.priorities context)
         (SelectionContext.usage_counts context) states.
Proof.
  intros Hlen current1.
  assert (Hnone : current1 !! sticky_key context = None).
  { subst current1. unfold SequentialStrategy_mark_exhausted.
    fold (sticky_key context).
    destruct (current !! sticky_key context) eqn:E; [|exact E].
    apply lookup_delete_eq. }
  split; [exact Hnone|]. split.
  - intros provider model_or_group Hne. subst current1.
    unfold get_current, SequentialStrategy_mark_exhausted.
    fold (sticky_key context).
    destruct (current !! sticky_key context); [|reflexivity].
    apply lookup_delete_ne. congruence.
  - unfold SequentialStrategy_select. fold (sticky_key context).
    destruct (SelectionContext.candidates context) as [|c1 [|c2 cs]];
      simpl in Hlen; [lia|lia|].
    rewrite Hnone.
    destruct (_select_by_priority _ _ _ _) as [s|]; [|reflexivity].
    destruct (py_str_truthy s); reflexivity.
Qed.

(** ** The balanced strategy *)

Lemma setdefault_append_nonempty {A} (groups : list (Z * list A)) p x :
  (forall q xs, (q, xs) ∈ groups -> xs <> []) ->
  forall q xs, (q, xs) ∈ setdefault_append groups p x -> xs <> [].
Proof.
  induction groups as [|[q0 xs0] groups IH]; simpl; intros Hne q xs Hin.
  - apply list_elem_of_singleton in Hin. inversion Hin; subst. discriminate.
  - destruct (Z.eqb q0 p).
    + apply elem_of_cons in Hin as [Heq|Hin].
      * inversion Heq; subst. intros H. apply app_eq_nil in H as [_ H].
        discriminate.
      * apply (Hne q). right. exact Hin.
    + apply elem_of_cons in Hin as [Heq|Hin].
      * inversion Heq; subst. apply (Hne q0). left.
      * apply (IH (fun q' xs' H =>
                     Hne q' xs' (proj2 (elem_of_cons _ _ _) (or_intror H)))
                  q xs Hin).
Qed.

Lemma group_by_priority_nonempty {A} (key : A -> Z) (l : list A) q xs :
  (q, xs) ∈ group_by_priority key l -> xs <> [].
Proof.
  unfold group_by_priority.
  assert (H : forall groups,
            (forall q xs, (q, xs) ∈ groups -> xs <> []) ->
            forall q xs,
              (q, xs) ∈ fold_left
                          (fun groups x => setdefault_append groups (key x) x)
                          l groups ->
              xs <> []).
  { induction l as [|x l IH]; simpl; intros groups Hne; [exact Hne|].
    apply IH. apply setdefault_append_nonempty. exact Hne. }
  apply H. intros q' xs' Hin. inversion Hin.
Qed.

Lemma _weighted_random_choice_some candidates weights o :
  candidates <> [] ->
  exists c, fst (_weighted_random_choice candidates weights o) = Some c.
Proof.
  unfold _weighted_random_choice.
  destruct candidates as [|c1 [|c2 cs]]; intros Hne; [congruence|eauto|].
  destruct (Qle_bool _ 0).
  - unfold random_choice. cbn [fst].
    apply lookup_lt_is_Some_2. apply Nat.mod_upper_bound. discriminate.
  - unfold mbind, M_bind, random_uniform.
    destruct (weighted_loop _ 0 _) as [c'|]; simpl; [eauto|].
    destruct (last_is_Some (c1 :: c2 :: cs)) as [_ H].
    destruct H as [c Hc]; [discriminate|]. simpl in Hc. eauto.
Qed.

(** X15. The balanced strategy selects from the best tier. For candidates
    with non-empty ids it returns one of them, and none of the candidates
    has a lower priority number than the one returned (a candidate
    without a priority counts as 999), whatever the random numbers. *)
Theorem balanced_select_best_tier tolerance context o :
  SelectionContext.candidates context <> [] ->
  "" ∉ SelectionContext.candidates context ->
  exists s,
    fst (BalancedStrategy_select tolerance context o) = Some s
    /\ s ∈ SelectionContext.candidates context
    /\ forall c, c ∈ SelectionContext.candidates context ->
         priority_of (SelectionContext.priorities context) s
         <= priority_of (SelectionContext.priorities context) c.
Proof.
  intros Hne Htruthy. unfold BalancedStrategy_select.
  destruct (SelectionContext.candidates context) as [|c1 [|c2 cs]] eqn:Ecs;
    [congruence| |].
  - exists c1. split; [reflexivity|]. split; [left|].
    intros c Hc. apply list_elem_of_singleton in Hc. subst. lia.
  - set (candidates := c1 :: c2 :: cs) in *.
    set (key := fun stable_id : string =>
                  default 999 (SelectionContext.priorities context !! stable_id)).
    set (groups := _group_by_priority candidates
                     (SelectionContext.priorities context)).
    destruct (head (py_sorted Z.ltb fst groups)) as [[q xs]|] eqn:Eh.
    + destruct (head_py_sorted_least Z.ltb (@fst Z (list string)))
        with (l := groups) (c := (q, xs)) as [Hin Hmin]; try exact Eh.
      { intros a. apply Z.ltb_irrefl. }
      { intros a b H. apply Z.ltb_lt in H. apply Z.ltb_ge. lia. }
      { intros a b c H1 H2. apply Z.ltb_ge in H1, H2. apply Z.ltb_ge. lia. }
      assert (Hxs : xs <> [])
        by (eapply group_by_priority_nonempty; exact Hin).
      destruct (py_sorted Z.ltb fst groups) as [|t tiers] eqn:Es;
        [discriminate|].
      simpl in Eh. inversion Eh; subst t. simpl balanced_tier_loop.
      destruct xs as [|x xs']; [congruence|].
      unfold mbind, M_bind.
      destruct (_weighted_random_choice_some (x :: xs')
                  (_calculate_weights tolerance (x :: xs')
                     (SelectionContext.usage_counts context)) o)
        as [s Hs]; [discriminate|].
      destruct (_weighted_random_choice (x :: xs') _ o) as [sel o1] eqn:Ew.
      simpl in Hs. subst sel.
      assert (Hsx : s ∈ x :: xs').
      { eapply _weighted_random_choice_elem. rewrite Ew. reflexivity. }
      assert (Hsc : s ∈ candidates).
      { eapply group_by_priority_elem; [exact Hin|exact Hsx]. }
      assert (Hst : py_opt_str_truthy (Some s) = true).
      { simpl. unfold py_str_truthy.
        destruct (String.eqb_spec s ""); [subst; contradiction|reflexivity]. }
      rewrite Hst. simpl. exists s. split; [reflexivity|].
      split; [exact Hsc|]. intros c Hc.
      destruct (group_by_priority_keyed key candidates) as [_ Hkeyed].
      destruct (group_by_priority_covers key candidates c Hc)
        as (q' & xs'' & Hg & Hcx).
      unfold priority_of. change (key s <= key c).
      rewrite (Hkeyed q (x :: xs') s Hin Hsx), (Hkeyed q' xs'' c Hg Hcx).
      specialize (Hmin (q', xs'') Hg). simpl in Hmin.
      apply Z.ltb_ge in Hmin. exact Hmin.
    + exfalso.
      destruct (group_by_priority_covers key candidates c1 ltac:(left))
        as (q & xs & Hg & _).
      apply head_py_sorted_None in Eh. unfold groups, _group_by_priority in Eh.
      fold key in Eh. rewrite Eh in Hg. inversion Hg.
Qed.

(** X16. The weights of the balanced strategy: one per candidate, never
    below 0.1, and a candidate that was used no more than another weighs
    no less than it. *)
Theorem _calculate_weights_monotone tolerance candidates usage_counts :
  let weights := _calculate_weights tolerance candidates usage_counts in
  length weights = length candidates
  /\ forall i j ci cj,
       candidates !! i = Some ci -> candidates !! j = Some cj ->
       usage_of usage_counts ci <= usage_of usage_counts cj ->
       exists wi wj,
         weights !! i = Some wi /\ weights !! j = Some wj
         /\ (1 # 10 <= wj)%Q /\ (wj <= wi)%Q.
Proof.
  unfold _calculate_weights. destruct candidates as [|c cs].
  - split; [reflexivity|]. intros i j ci cj H. rewrite lookup_nil in H.
    discriminate.
  - set (candidates := c :: cs).
    set (usages := map (fun sid => default 0 (usage_counts !! sid)) candidates).
    set (max_usage := foldr Z.max (hd 0 usages) usages).
    cbv zeta. split; [unfold usages; rewrite !length_map; reflexivity|].
    intros i j ci cj Hi Hj Hle.
    exists (Qmax (inject_Z (max_usage - usage_of usage_counts ci)
                  + tolerance + 1) (1 # 10)),
           (Qmax (inject_Z (max_usage - usage_of usage_counts cj)
                  + tolerance + 1) (1 # 10)).
    split; [|split; [|split]].
    + change (map ?f usages !! i) with ((f <$> usages) !! i).
      rewrite list_lookup_fmap. unfold usages.
      change (map ?f candidates !! i) with ((f <$> candidates) !! i).
      rewrite list_lookup_fmap, Hi. reflexivity.
    + change (map ?f usages !! j) with ((f <$> usages) !! j).
      rewrite list_lookup_fmap. unfold usages.
      change (map ?f candidates !! j) with ((f <$> candidates) !! j).
      rewrite list_lookup_fmap, Hj. reflexivity.
    + apply Q.le_max_r.
    + apply Q.max_le_compat_r.
      assert (inject_Z (max_usage - usage_of usage_counts cj)
              <= inject_Z (max_usage - usage_of usage_counts ci))%Q
        by (rewrite <- Zle_Qle; lia).
      lra.
Qed.

(** ** What a selection leaves alone *)

Lemma pool_only_fair_cycle_differs_refl w : pool_only_fair_cycle_differs w w.
Proof.
  split; [reflexivity|]. intros sid state H. exists state.
  split; [exact H|apply only_fair_cycle_differs_refl].
Qed.

Lemma pool_only_fair_cycle_differs_trans w1 w2 w3 :
  pool_only_fair_cycle_differs w1 w2 -> pool_only_fair_cycle_differs w2 w3 ->
  pool_only_fair_cycle_differs w1 w3.
Proof.
  intros [Hk1 H1] [Hk2 H2]. split; [congruence|].
  intros sid state Hs. destruct (H1 sid state Hs) as (s2 & Hs2 & Hd1).
  destruct (H2 sid s2 Hs2) as (s3 & Hs3 & Hd2).
  exists s3. split; [exact Hs3|].
  eapply only_fair_cycle_differs_trans; eassumption.
Qed.

Lemma odict_set_frame w sid state state1 global current :
  odict_get (w_states w) sid = Some state ->
  only_fair_cycle_differs state state1 ->
  pool_only_fair_cycle_differs w
    (mkWorld (odict_set (w_states w) sid state1) global current).
Proof.
  intros Hget Hd. split; simpl.
  - apply odict_keys_set. rewrite Hget. eauto.
  - intros sid' state' Hs. destruct (decide (sid = sid')) as [<-|Hne].
    + rewrite odict_get_set_eq. exists state1. split; [reflexivity|].
      congruence.
    + rewrite odict_get_set_ne by exact Hne. exists state'.
      split; [exact Hs|apply only_fair_cycle_differs_refl].
Qed.

Lemma filter_available_frame se model quota_group candidates :
  forall w o,
    pool_only_fair_cycle_differs w
      (snd (fst (filter_available se model quota_group candidates w o))).
Proof.
  induction candidates as [|sid rest IH]; intros w o.
  - apply pool_only_fair_cycle_differs_refl.
  - simpl. destruct (odict_get (w_states w) sid) as [state|] eqn:Hget;
      [|apply IH].
    unfold mbind, M_bind.
    pose proof (check_all_loop_frame (SelectionEngine._limits se) model
                  quota_group
                  (LimitEngine._checkers (SelectionEngine._limits se))
                  state (w_global w) o) as Hc.
    fold (check_all (SelectionEngine._limits se) state model quota_group
            (w_global w)) in Hc.
    destruct (check_all _ state model quota_group (w_global w) o)
      as [[[r state1] global1] o1]. simpl in Hc.
    specialize (IH (mkWorld (odict_set (w_states w) sid state1) global1
                            (w_current w)) o1).
    destruct (filter_available se model quota_group rest _ o1)
      as [[available w2] o2]. simpl in *.
    eapply pool_only_fair_cycle_differs_trans; [|exact IH].
    exact (odict_set_frame w sid state state1 global1 (w_current w) Hget Hc).
Qed.

Lemma fair_cycle_blocked_loop_frame se model quota_group candidates :
  forall blocked count w o,
    pool_only_fair_cycle_differs w
      (snd (fst (fair_cycle_blocked_loop se model quota_group candidates
                   blocked count w o))).
Proof.
  induction candidates as [|sid rest IH]; intros blocked count w o.
  - apply pool_only_fair_cycle_differs_refl.
  - simpl. destruct (odict_get (w_states w) sid) as [state|] eqn:Hget;
      [|apply IH].
    unfold mbind, M_bind.
    pose proof (check_all_loop_frame (SelectionEngine._limits se) model
                  quota_group
                  (LimitEngine._checkers (SelectionEngine._limits se))
                  state (w_global w) o) as Hc.
    fold (check_all (SelectionEngine._limits se) state model quota_group
            (w_global w)) in Hc.
    destruct (check_all _ state model quota_group (w_global w) o)
      as [[[r state1] global1] o1]. simpl in Hc.
    pose proof (odict_set_frame w sid state state1 global1 (w_current w)
                  Hget Hc) as Hw.
    destruct (LimitCheckResult.allowed r); [exact Hw|].
    destruct (LimitResult.eqb _ _);
      (eapply pool_only_fair_cycle_differs_trans; [exact Hw|apply IH]).
Qed.

Lemma reset_fair_cycle_frame state key :
  only_fair_cycle_differs state (reset_fair_cycle state key).
Proof.
  unfold reset_fair_cycle.
  destruct (CredentialState.fair_cycle state !! key);
    [eexists; reflexivity|apply only_fair_cycle_differs_refl].
Qed.

Lemma reset_cycle_frame provider key ids w o :
  pool_only_fair_cycle_differs w (fst (reset_cycle provider key ids w o)).
Proof.
  unfold reset_cycle, mbind, M_bind, time_time. cbv beta iota.
  destruct (_get_global_state (w_global w) provider key _)
    as [[g global1] o1]. simpl. split; simpl.
  - apply reset_cycle_states_keys.
  - intros sid state Hs. rewrite reset_cycle_states_get, Hs.
    destruct (bool_decide (sid ∈ ids)); simpl.
    + eexists. split; [reflexivity|apply reset_fair_cycle_frame].
    + eexists. split; [reflexivity|apply only_fair_cycle_differs_refl].
Qed.

Lemma tier_reset_loop_frame se provider tracking_key group_key tiers :
  forall reset_any w o,
    pool_only_fair_cycle_differs w
      (snd (fst (tier_reset_loop se provider tracking_key group_key tiers
                   reset_any w o))).
Proof.
  induction tiers as [|[q ids] rest IH]; intros reset_any w o.
  - apply pool_only_fair_cycle_differs_refl.
  - simpl. destruct (forallb _ _); [|apply IH].
    unfold mbind, M_bind.
    destruct (_get_shortest_cooldown se _ group_key o)
      as [[[has_short a] b] o1].
    destruct has_short; [apply IH|].
    pose proof (reset_cycle_frame provider tracking_key ids w o1) as Hr.
    destruct (reset_cycle provider tracking_key ids w o1) as [w1 o2].
    simpl in Hr.
    eapply pool_only_fair_cycle_differs_trans; [exact Hr|apply IH].
Qed.

Lemma _try_fair_cycle_reset_frame
    se provider model quota_group candidates priorities w o :
  pool_only_fair_cycle_differs w
    (snd (fst (_try_fair_cycle_reset se provider model quota_group candidates
                 priorities w o))).
Proof.
  unfold _try_fair_cycle_reset, mbind, M_bind.
  pose proof (fair_cycle_blocked_loop_frame se model quota_group candidates
                true 0 w o) as H1.
  destruct (fair_cycle_blocked_loop se model quota_group candidates true 0 w o)
    as [[counted w1] o1]. simpl in H1.
  destruct counted as [[blocked count]|]; [|exact H1].
  destruct (count =? 0); [exact H1|].
  destruct (FairCycleConfig.cross_tier _).
  - destruct (check_all_exhausted _ _ _ _); [|exact H1].
    destruct (_get_shortest_cooldown se _ _ o1) as [[[has_short a] b] o2].
    destruct has_short; [exact H1|].
    pose proof (reset_cycle_frame provider
                  (get_tracking_key
                     (ProviderUsageConfig.fair_cycle (SelectionEngine._config se))
                     model quota_group) candidates w1 o2) as Hr.
    destruct (reset_cycle _ _ candidates w1 o2) as [w2 o3]. simpl in *.
    eapply pool_only_fair_cycle_differs_trans; eassumption.
  - eapply pool_only_fair_cycle_differs_trans; [exact H1|].
    apply tier_reset_loop_frame.
Qed.

(** X17. A selection touches nothing but fair-cycle records. Whatever the
    configuration, the clock, the random numbers and the number of
    retries, [select] leaves the pool with the same credentials under the
    same ids in the same order, and each credential differs from what it
    was at most in its fair-cycle records: usage, cooldowns, priority,
    limits and active requests are never written. *)
Theorem select_only_writes_fair_cycle
    fuel se provider model quota_group exclude priorities deadline :
  forall w o,
    pool_only_fair_cycle_differs w
      (snd (fst (select fuel se provider model quota_group exclude priorities
                        deadline w o))).
Proof.
  induction fuel as [|fuel IH]; intros w o.
  - apply pool_only_fair_cycle_differs_refl.
  - simpl select.
    destruct (filter _ (odict_keys (w_states w))) as [|c cs] eqn:Ecand;
      [apply pool_only_fair_cycle_differs_refl|].
    rewrite <- Ecand. unfold mbind, M_bind.
    pose proof (filter_available_frame se model quota_group
                  (filter (fun sid => sid ∉ default ∅ exclude)
                          (odict_keys (w_states w))) w o) as H1.
    destruct (filter_available se model quota_group _ w o)
      as [[available w1] o1]. simpl in H1.
    destruct available as [|a av].
    + destruct (FairCycleConfig.is_enabled _); [|exact H1].
      pose proof (_try_fair_cycle_reset_frame se provider model quota_group
                    (filter (fun sid => sid ∉ default ∅ exclude)
                            (odict_keys (w_states w))) priorities w1 o1) as H2.
      destruct (_try_fair_cycle_reset se provider model quota_group _
                  priorities w1 o1) as [[reset_performed w2] o2].
      simpl in H2.
      pose proof (pool_only_fair_cycle_differs_trans _ _ _ H1 H2) as H12.
      destruct reset_performed; [|exact H12].
      eapply pool_only_fair_cycle_differs_trans; [exact H12|apply IH].
    + destruct (usage_counts_loop se model quota_group (a :: av) w1 ∅ o1)
        as [usage_counts o2].
      destruct (Qeq_bool deadline 0);
        unfold time_time, mret, M_ret;
        destruct (ProviderUsageConfig.rotation_mode _);
        try (destruct (BalancedStrategy_select _ _ _) as [s o3]; exact H1);
        destruct (SequentialStrategy_select _ _ _) as [s current];
        exact H1.
Qed.

Lemma Checker_check_fair_cycle_off le checker state model quota_group global o :
  FairCycleConfig.is_enabled
    (ProviderUsageConfig.fair_cycle (LimitEngine._config le)) = false ->
  exists r o1,
    Checker_check le checker state model quota_group global o
    = (r, state, global, o1).
Proof.
  intros Hoff.
  destruct checker; simpl; unfold mbind, M_bind, mret, M_ret;
    try (eexists _, _; reflexivity);
    try (match goal with
         | |- context [let (a, o') := ?m in _] => destruct m
         end; eexists _, _; reflexivity).
  unfold FairCycleChecker_check. rewrite Hoff. simpl.
  eexists _, _; reflexivity.
Qed.

Lemma check_all_loop_fair_cycle_off le model quota_group checkers :
  FairCycleConfig.is_enabled
    (ProviderUsageConfig.fair_cycle (LimitEngine._config le)) = false ->
  forall state global o,
    exists r o1,
      check_all_loop le checkers state model quota_group global o
      = (r, state, global, o1).
Proof.
  intros Hoff. induction checkers as [|c rest IH]; intros state global o.
  - eexists _, _; reflexivity.
  - simpl. unfold mbind, M_bind.
    destruct (Checker_check_fair_cycle_off le c state model quota_group
                global o Hoff) as (r & o1 & ->).
    destruct (LimitCheckResult.allowed r); [apply IH|].
    eexists _, _; reflexivity.
Qed.

Lemma filter_available_fair_cycle_off se model quota_group candidates :
  FairCycleConfig.is_enabled
    (ProviderUsageConfig.fair_cycle
       (LimitEngine._config (SelectionEngine._limits se))) = false ->
  forall w o,
    exists available o1,
      filter_available se model quota_group candidates w o
      = (available, w, o1).
Proof.
  intros Hoff. induction candidates as [|sid rest IH]; intros w o.
  - eexists _, _; reflexivity.
  - simpl. destruct (odict_get (w_states w) sid) as [state|] eqn:Hget;
      [|apply IH].
    unfold mbind, M_bind, check_all.
    destruct (check_all_loop_fair_cycle_off (SelectionEngine._limits se)
                model quota_group
                (LimitEngine._checkers (SelectionEngine._limits se)) Hoff
                state (w_global w) o) as (r & o1 & ->).
    rewrite (odict_set_same _ _ _ Hget).
    replace (mkWorld (w_states w) (w_global w) (w_current w)) with w
      by (destruct w; reflexivity).
    destruct (IH w o1) as (available & o2 & ->).
    eexists _, _; reflexivity.
Qed.

(** X18. With fair cycle disabled a selection is a single pass that only
    reads the pool: [select] returns (it never retries, so it cannot
    exceed the recursion limit), and it leaves every credential and the
    global fair-cycle state exactly as they were. *)
Theorem select_without_fair_cycle
    fuel se provider model quota_group exclude priorities deadline w o :
  FairCycleConfig.is_enabled (fair_cycle_of se) = false ->
  FairCycleConfig.is_enabled
    (ProviderUsageConfig.fair_cycle
       (LimitEngine._config (SelectionEngine._limits se))) = false ->
  exists selected w1 o1,
    select (S fuel) se provider model quota_group exclude priorities deadline
           w o
    = (Returned selected, w1, o1)
    /\ w_states w1 = w_states w
    /\ w_global w1 = w_global w.
Proof.
  intros Hse Hle. simpl select.
  destruct (filter _ (odict_keys (w_states w))) as [|c cs] eqn:Ecand.
  - eexists _, _, _. split; [reflexivity|]. split; reflexivity.
  - rewrite <- Ecand. unfold mbind, M_bind.
    destruct (filter_available_fair_cycle_off se model quota_group
                (filter (fun sid => sid ∉ default ∅ exclude)
                        (odict_keys (w_states w))) Hle w o)
      as (available & o1 & ->).
    destruct available as [|a av].
    + unfold fair_cycle_of in Hse. rewrite Hse.
      eexists _, _, _. split; [reflexivity|]. split; reflexivity.
    + destruct (usage_counts_loop se model quota_group (a :: av) w ∅ o1)
        as [usage_counts o2].
      destruct (Qeq_bool deadline 0);
        unfold time_time, mret, M_ret;
        destruct (ProviderUsageConfig.rotation_mode _);
        try (destruct (BalancedStrategy_select _ _ _) as [s o3];
             eexists _, _, _; split; [reflexivity|]; split; reflexivity);
        destruct (SequentialStrategy_select _ _ _) as [s current];
        eexists _, _, _; (split; [reflexivity|]; split; reflexivity).
Qed.

(** ** What recording usage writes *)

Lemma set_usage_same state :
  CredentialState.set_model_usage
    (CredentialState.set_group_usage state (CredentialState.group_usage state))
    (CredentialState.model_usage state) = state.
Proof. destruct state; reflexivity. Qed.

Lemma _update_from_headers_usage te state headers model group o :
  exists model_usage group_usage,
    fst (_update_from_headers te state headers model group o)
    = CredentialState.set_model_usage
        (CredentialState.set_group_usage state group_usage) model_usage.
Proof.
  destruct state. unfold _update_from_headers.
  destruct (get_primary_definition _) as [primary_def|];
    [|eexists _, _; reflexivity].
  unfold mbind, M_bind.
  match goal with
  | |- context [let (a, o') := ?m o in _] =>
      assert (H1 : exists gu,
                 fst (m o)
                 = CredentialState.set_group_usage
                     (CredentialState.mk stable_id provider accessor
                        display_name tier priority window_definitions
                        model_usage group_usage totals cooldowns fair_cycle
                        active_requests max_concurrent created_at last_updated)
                     gu);
      [|destruct (m o) as [state1 o1]; simpl in H1;
        destruct H1 as [gu ->]]
  end.
  { destruct group as [g|]; [|eexists; reflexivity].
    destruct (py_str_truthy g); [|eexists; reflexivity].
    destruct (CredentialState.get_group_stats _ g) as [gs|];
      [|eexists; reflexivity].
    destruct (GroupStats.windows gs !! _) as [window|];
      [|eexists; reflexivity].
    destruct (_apply_header_updates window _ _ o) as [window' o1].
    eexists. reflexivity. }
  destruct (CredentialState.get_model_stats _ model) as [ms|];
    [|exists model_usage, gu; reflexivity].
  destruct (ModelStats.windows ms !! _) as [window|];
    [|exists model_usage, gu; reflexivity].
  destruct (_apply_header_updates window _ _ o1) as [window' o2].
  eexists _, gu. reflexivity.
Qed.

Lemma headers_step_usage te state response_headers model group o :
  exists model_usage group_usage,
    fst (match response_headers with
         | Some headers => _update_from_headers te state headers model group
         | None => mret state
         end o)
    = CredentialState.set_model_usage
        (CredentialState.set_group_usage state group_usage) model_usage.
Proof.
  destruct response_headers as [headers|].
  - apply _update_from_headers_usage.
  - eexists _, _. symmetry. apply set_usage_same.
Qed.

(** The state after [record_usage]: new usage dicts, the totals and the
    fair-cycle records of steps 3 and 4, and the time of the update. *)
Lemma record_usage_shape te state model update group response_headers o :
  exists model_usage group_usage,
    fst (record_usage te state model update group response_headers o)
    = CredentialState.set_last_updated
        (CredentialState.set_model_usage
           (CredentialState.set_group_usage
              (count_cycle_requests te
                 (CredentialState.set_totals state
                    (_apply_to_totals (CredentialState.totals state) update
                       (clock (ticks o)) (usage_total_tokens update)
                       (usage_output_tokens update)))
                 (_resolve_fair_cycle_key te (py_or_str group model)) update)
              group_usage)
           model_usage)
        (Some (clock (ticks o))).
Proof.
  unfold record_usage, mbind, M_bind, mret, M_ret, time_time.
  cbv beta iota.
  fold (usage_total_tokens update). fold (usage_output_tokens update).
  destruct (CredentialState.get_model_stats_create state model) as [ms st1]
    eqn:E1.
  assert (H1 : exists mu, st1 = CredentialState.set_model_usage state mu).
  { unfold CredentialState.get_model_stats_create in E1.
    destruct (CredentialState.model_usage state !! model);
      injection E1 as _ <-; [|eexists; reflexivity].
    exists (CredentialState.model_usage state). destruct state; reflexivity. }
  destruct H1 as [mu1 ->].
  destruct (_apply_to_windows te (ModelStats.windows ms) update _ _ _ _ _)
    as [model_windows o2].
  destruct (py_opt_str_truthy group).
  - match goal with
    | |- context [CredentialState.get_group_stats_create ?s ?g] =>
        destruct (CredentialState.get_group_stats_create s g) as [gs st3]
          eqn:E3;
        assert (H3 : exists gu, st3 = CredentialState.set_group_usage s gu)
    end.
    { unfold CredentialState.get_group_stats_create in E3.
      destruct (CredentialState.group_usage _ !! _);
        injection E3 as _ <-; [|eexists; reflexivity].
      exists (CredentialState.group_usage state). destruct state; reflexivity. }
    destruct H3 as [gu3 ->].
    destruct (_apply_to_windows te (GroupStats.windows gs) update _ _ _ _ _)
      as [group_windows o3].
    match goal with
    | |- context [match response_headers with
                  | Some headers => _update_from_headers te ?X headers _ _
                  | None => _
                  end ?o1] =>
        destruct (headers_step_usage te X response_headers model group o1)
          as (mu & gu & H); unfold mret, M_ret in H;
        destruct (match response_headers with
                  | Some headers => _update_from_headers te X headers model group
                  | None => fun o => (X, o)
                  end o1) as [s' o4]; simpl in H; subst s'
    end.
    exists mu, gu. unfold count_cycle_requests.
    destruct (FairCycleConfig.is_enabled _); destruct state; reflexivity.
  - match goal with
    | |- context [match response_headers with
                  | Some headers => _update_from_headers te ?X headers _ _
                  | None => _
                  end ?o1] =>
        destruct (headers_step_usage te X response_headers model group o1)
          as (mu & gu & H); unfold mret, M_ret in H;
        destruct (match response_headers with
                  | Some headers => _update_from_headers te X headers model group
                  | None => fun o => (X, o)
                  end o1) as [s' o4]; simpl in H; subst s'
    end.
    exists mu, gu. unfold count_cycle_requests.
    destruct (FairCycleConfig.is_enabled _); destruct state; reflexivity.
Qed.

Lemma count_cycle_requests_exhausted te state key update k :
  CredentialState.is_fair_cycle_exhausted
    (count_cycle_requests te state key update) k
  = CredentialState.is_fair_cycle_exhausted state k.
Proof.
  unfold count_cycle_requests, CredentialState.is_fair_cycle_exhausted.
  destruct (FairCycleConfig.is_enabled _); [|reflexivity]. simpl.
  destruct (decide (key = k)) as [->|Hne].
  - rewrite lookup_insert_eq.
    destruct (CredentialState.fair_cycle state !! k); reflexivity.
  - rewrite lookup_insert_ne by exact Hne. reflexivity.
Qed.

(** The cooldown check reads nothing of a credential but its cooldowns. *)
Lemma cooldown_check_keys_reads_cooldowns state1 state2 now keys o :
  CredentialState.cooldowns state1 = CredentialState.cooldowns state2 ->
  cooldown_check_keys state1 now keys o = cooldown_check_keys state2 now keys o.
Proof.
  intros H. revert o.
  induction keys as [|key rest IH]; intros o; simpl; [reflexivity|].
  rewrite H. destruct (CredentialState.cooldowns state2 !! key) as [c|];
    [|apply IH].
  destruct (Qlt_bool now (CooldownInfo.until c)); [reflexivity|apply IH].
Qed.

Lemma CooldownChecker_check_reads_cooldowns
    state1 state2 model quota_group o :
  CredentialState.cooldowns state1 = CredentialState.cooldowns state2 ->
  CooldownChecker_check state1 model quota_group o
  = CooldownChecker_check state2 model quota_group o.
Proof.
  intros H. unfold CooldownChecker_check, mbind, M_bind, time_time.
  rewrite (cooldown_check_keys_reads_cooldowns state1 state2 _ _ _ H), H.
  reflexivity.
Qed.

(** X19. What [record_usage] leaves alone: the cooldowns, the active
    requests, the concurrency limit, the priority and the identity of the
    credential are as they were, and a credential is fair-cycle exhausted
    for a key after the call exactly if it was before. So the concurrency
    checker and the cooldown checker return for the state after the call
    what they return for the state before, for every model, quota group
    and clock reading. (The window-limit and custom-cap checkers read the
    request counts that [record_usage] increments.) *)
Theorem record_usage_frame te state model update group response_headers o :
  let state1 :=
    fst (record_usage te state model update group response_headers o) in
  CredentialState.cooldowns state1 = CredentialState.cooldowns state
  /\ CredentialState.active_requests state1
     = CredentialState.active_requests state
  /\ CredentialState.max_concurrent state1
     = CredentialState.max_concurrent state
  /\ CredentialState.priority state1 = CredentialState.priority state
  /\ CredentialState.stable_id state1 = CredentialState.stable_id state
  /\ CredentialState.provider state1 = CredentialState.provider state
  /\ (forall key,
        CredentialState.is_fair_cycle_exhausted state1 key
        = CredentialState.is_fair_cycle_exhausted state key)
  /\ ConcurrentLimitChecker_check state1 = ConcurrentLimitChecker_check state
  /\ (forall model' quota_group' o',
        CooldownChecker_check state1 model' quota_group' o'
        = CooldownChecker_check state model' quota_group' o').
Proof.
  intros state1.
  assert (Hframe :
    CredentialState.cooldowns state1 = CredentialState.cooldowns state
    /\ CredentialState.active_requests state1
       = CredentialState.active_requests state
    /\ CredentialState.max_concurrent state1
       = CredentialState.max_concurrent state
    /\ CredentialState.priority state1 = CredentialState.priority state
    /\ CredentialState.stable_id state1 = CredentialState.stable_id state
    /\ CredentialState.provider state1 = CredentialState.provider state
    /\ (forall key,
          CredentialState.is_fair_cycle_exhausted state1 key
          = CredentialState.is_fair_cycle_exhausted state key)).
  { destruct (record_usage_shape te state model update group response_headers
                o) as (mu & gu & Hs).
    subst state1. rewrite Hs. clear Hs.
    assert (Hc : forall key,
              CredentialState.is_fair_cycle_exhausted
                (count_cycle_requests te
                   (CredentialState.set_totals state
                      (_apply_to_totals (CredentialState.totals state) update
                         (clock (ticks o)) (usage_total_tokens update)
                         (usage_output_tokens update)))
                   (_resolve_fair_cycle_key te (py_or_str group model)) update)
                key
              = CredentialState.is_fair_cycle_exhausted state key).
    { intros key. rewrite count_cycle_requests_exhausted. reflexivity. }
    unfold count_cycle_requests in *.
    destruct (FairCycleConfig.is_enabled _); simpl;
      repeat split; try reflexivity; exact Hc. }
  destruct Hframe as (Hcool & Hactive & Hmax & Hprio & Hid & Hprov & Hex).
  repeat (split; [assumption|]).
  split.
  - unfold ConcurrentLimitChecker_check. rewrite Hmax, Hactive. reflexivity.
  - intros model' quota_group' o'.
    apply CooldownChecker_check_reads_cooldowns. exact Hcool.
Qed.

(** X20. Recording usage counts every request once. After [record_usage]
    the credential totals have grown by the request count of the update,
    on the success or the failure side according to its flag; with fair
    cycle enabled the request count of the cycle at the tracking key has
    grown by the same number (from 0 when the key had no record), and
    with fair cycle disabled no fair-cycle record is written; the time of
    the update is the clock reading taken first. *)
Theorem record_usage_counts te state model update group response_headers o :
  let state1 :=
    fst (record_usage te state model update group response_headers o) in
  let key := _resolve_fair_cycle_key te (py_or_str group model) in
  let n := UsageUpdate.request_count update in
  let cycle_count_at (s : CredentialState.t) :=
    default 0 (FairCycleState.cycle_request_count
                 <$> CredentialState.fair_cycle s !! key) in
  TotalStats.request_count (CredentialState.totals state1)
  = TotalStats.request_count (CredentialState.totals state) + n
  /\ TotalStats.success_count (CredentialState.totals state1)
     = TotalStats.success_count (CredentialState.totals state)
       + (if UsageUpdate.success update then n else 0)
  /\ TotalStats.failure_count (CredentialState.totals state1)
     = TotalStats.failure_count (CredentialState.totals state)
       + (if UsageUpdate.success update then 0 else n)
  /\ (if FairCycleConfig.is_enabled
           (ProviderUsageConfig.fair_cycle (TrackingEngine._config te))
      then cycle_count_at state1 = cycle_count_at state + n
      else CredentialState.fair_cycle state1 = CredentialState.fair_cycle state)
  /\ CredentialState.last_updated state1 = Some (clock (ticks o)).
Proof.
  intros state1 key n cycle_count_at.
  destruct (record_usage_shape te state model update group response_headers o)
    as (mu & gu & Hs).
  subst state1 cycle_count_at. rewrite Hs. clear Hs. fold key.
  unfold count_cycle_requests.
  destruct (FairCycleConfig.is_enabled _); simpl;
    (split; [reflexivity|]);
    (split; [destruct (UsageUpdate.success update); subst n; lia|]);
    (split; [destruct (UsageUpdate.success update); subst n; lia|]);
    (split; [|reflexivity]); [|reflexivity].
  rewrite lookup_insert_eq. simpl.
  destruct (CredentialState.fair_cycle state !! key); simpl; subst n; lia.
Qed.

(** ** Failures *)

Lemma _mark_exhausted_totals state key reason o :
  CredentialState.totals (fst (_mark_exhausted state key reason o))
  = CredentialState.totals state.
Proof.
  unfold _mark_exhausted, mbind, M_bind, mret, M_ret, time_time.
  destruct (CredentialState.fair_cycle state !! key) as [fc|] eqn:E.
  - rewrite E. destruct (FairCycleState.exhausted fc); reflexivity.
  - rewrite lookup_insert_eq. reflexivity.
Qed.

Lemma _apply_cooldown_totals
    te state reason duration until model_or_group source o :
  CredentialState.totals
    (fst (_apply_cooldown te state reason duration until model_or_group
                          source o))
  = CredentialState.totals state.
Proof.
  unfold _apply_cooldown, is_active.
  unfold mbind, M_bind, mret, M_ret, time_time. simpl.
  destruct (resolve_cooldown_until _ duration until); [|reflexivity].
  destruct (CredentialState.cooldowns state !! _) as [e|]; simpl.
  - destruct (Qlt_bool _ (CooldownInfo.until e)); simpl;
      match goal with
      | |- context [if ?b then _ else _] => destruct b
      end; try rewrite _mark_exhausted_totals; reflexivity.
  - match goal with
    | |- context [if ?b then _ else _] => destruct b
    end; try rewrite _mark_exhausted_totals; reflexivity.
Qed.

Lemma group_key_is_checked model quota_group :
  py_or_str (Some (py_or_str quota_group model)) "_global_"
    ∈ cooldown_keys_to_check model quota_group ++ ["_global_"].
Proof.
  unfold cooldown_keys_to_check. unfold py_or_str at 1.
  destruct (py_str_truthy (py_or_str quota_group model)).
  - apply elem_of_app. left. left.
  - apply elem_of_app. right. left.
Qed.

(** X21. A failure that comes with the reset time of the quota blocks the
    credential until that time. After [record_failure] with a
    [quota_reset_timestamp], [CooldownChecker.check] refuses the
    credential for the same model and quota group at every clock reading
    before the timestamp; the failure is counted in the totals; and with
    [mark_exhausted] set the credential is fair-cycle exhausted for the
    tracking key of the request. *)
Theorem record_failure_blocks_until_reset
    te state model error_type quota_group cooldown_duration
    quota_reset_timestamp mark_exhausted_flag request_count prompt_tokens
    completion_tokens thinking_tokens prompt_tokens_cache_read
    prompt_tokens_cache_write approx_cost o o2 :
  (clock (ticks o2) < quota_reset_timestamp)%Q ->
  let state1 :=
    fst (record_failure te state model error_type quota_group
           cooldown_duration (Some quota_reset_timestamp) mark_exhausted_flag
           request_count prompt_tokens completion_tokens thinking_tokens
           prompt_tokens_cache_read prompt_tokens_cache_write approx_cost o) in
  let result := fst (CooldownChecker_check state1 model quota_group o2) in
  LimitCheckResult.allowed result = false
  /\ LimitCheckResult.result result = LimitResult.BLOCKED_COOLDOWN
  /\ (exists t, LimitCheckResult.blocked_until result = Some t
                /\ (clock (ticks o2) < t)%Q)
  /\ TotalStats.failure_count (CredentialState.totals state1)
     = TotalStats.failure_count (CredentialState.totals state) + request_count
  /\ TotalStats.success_count (CredentialState.totals state1)
     = TotalStats.success_count (CredentialState.totals state)
  /\ (mark_exhausted_flag = true ->
      CredentialState.is_fair_cycle_exhausted state1
        (_resolve_fair_cycle_key te (py_or_str quota_group model)) = true).
Proof.
  intros Hlt state1 result.
  set (group_key := py_or_str quota_group model) in *.
  set (update := UsageUpdate.mk request_count false prompt_tokens
                   completion_tokens thinking_tokens prompt_tokens_cache_read
                   prompt_tokens_cache_write approx_cost).
  pose proof (record_usage_counts te state model update quota_group None o)
    as (_ & Hsucc & Hfail & _).
  simpl in Hsucc, Hfail.
  unfold record_failure in state1. fold update in state1.
  fold group_key in state1. unfold mbind, M_bind in state1.
  destruct (record_usage te state model update quota_group None o)
    as [s1 o1]. simpl in Hsucc, Hfail.
  set (step2 := match cooldown_duration with
                | Some duration =>
                    if Qlt_bool 0 duration
                    then _apply_cooldown te s1 error_type (Some duration) None
                           (Some group_key) "error"
                    else mret s1
                | None => mret s1
                end) in *.
  assert (H2 : CredentialState.totals (fst (step2 o1))
               = CredentialState.totals s1).
  { unfold step2. destruct cooldown_duration as [d|]; [|reflexivity].
    destruct (Qlt_bool 0 d); [apply _apply_cooldown_totals|reflexivity]. }
  destruct (step2 o1) as [s2 o3]. simpl in H2.
  destruct (_apply_cooldown_cooldowns te s2 error_type None
              (Some quota_reset_timestamp) (Some group_key) "api_quota" o3
              quota_reset_timestamp eq_refl) as (c & Hc & Hu & _).
  pose proof (_apply_cooldown_totals te s2 error_type None
                (Some quota_reset_timestamp) (Some group_key) "api_quota" o3)
    as H3.
  destruct (_apply_cooldown te s2 error_type None (Some quota_reset_timestamp)
              (Some group_key) "api_quota" o3) as [s3 o4].
  simpl in Hc, H3.
  assert (Hcool : CredentialState.cooldowns state1
                    !! py_or_str (Some group_key) "_global_" = Some c).
  { subst state1. destruct mark_exhausted_flag.
    - rewrite _mark_exhausted_cooldowns, Hc. apply lookup_insert_eq.
    - simpl. rewrite Hc. apply lookup_insert_eq. }
  assert (Htot : CredentialState.totals state1 = CredentialState.totals s3).
  { subst state1. destruct mark_exhausted_flag;
      [apply _mark_exhausted_totals|reflexivity]. }
  destruct (CooldownChecker_check_blocks state1 model quota_group o2
              (py_or_str (Some group_key) "_global_") c)
    as (Ha & Hr & Ht).
  { apply group_key_is_checked. }
  { exact Hcool. }
  { rewrite Hu. exact Hlt. }
  split; [exact Ha|]. split; [exact Hr|]. split; [exact Ht|].
  rewrite Htot, H3, H2. split; [lia|]. split; [lia|].
  intros ->. subst state1. apply _mark_exhausted_exhausted.
Qed.

(** ** Creating a window *)

(** X22. [get_or_create_window] returns the window that the dict then
    holds under that name and touches no other entry. When no window of
    that name was active, the window it creates is empty and unused, and
    it stays the active window of that name at every later time, until
    usage is recorded on it. *)
Theorem get_or_create_window_stores wm windows window_name limit o :
  let window := fst (fst (get_or_create_window wm windows window_name limit o)) in
  let windows1 := snd (fst (get_or_create_window wm windows window_name limit o)) in
  windows1 !! window_name = Some window
  /\ (forall other, other <> window_name ->
        windows1 !! other = windows !! other)
  /\ (fst (get_active_window wm windows window_name o) = None ->
      WindowStats.request_count window = 0
      /\ WindowStats.started_at window = None
      /\ WindowStats.reset_at window = None
      /\ forall o', fst (get_active_window wm windows1 window_name o')
                    = Some window).
Proof.
  intros window windows1. subst window windows1.
  remember (get_or_create_window wm windows window_name limit o) as r eqn:Er.
  unfold get_or_create_window, mbind, M_bind in Er.
  destruct (get_active_window wm windows window_name o) as [[w|] o1] eqn:Ea.
  - subst r. simpl. split; [|split; [reflexivity|discriminate]].
    unfold get_active_window in Ea.
    destruct (windows !! window_name) as [w0|]; [|inversion Ea].
    destruct (odict_get _ window_name) as [d|].
    + unfold mbind, M_bind in Ea.
      destruct (_should_reset wm w0 d o) as [[|] o2]; inversion Ea.
      reflexivity.
    + inversion Ea. reflexivity.
  - match type of Er with
    | context [let (a, o') := ?m o1 in _] =>
        destruct (m o1) as [[[old_max old_max_at] old_limit] o2]
    end.
    subst r. simpl. split; [apply lookup_insert_eq|].
    split; [intros other Hne; apply lookup_insert_ne; congruence|].
    intros _. repeat split.
    intros o'. unfold get_active_window. rewrite lookup_insert_eq.
    destruct (odict_get _ window_name) as [d|]; [|reflexivity].
    unfold _should_reset, mbind, M_bind, mret, M_ret, time_time. reflexivity.
Qed.

(** ** Custom caps that do not apply *)

Lemma _cap_index_get_None caps tier_key model_or_group :
  (forall cap, cap ∈ caps ->
     CustomCapConfig.tier_key cap = tier_key ->
     CustomCapConfig.model_or_group cap <> model_or_group) ->
  _cap_index_get caps tier_key model_or_group = None.
Proof.
  induction caps as [|cap rest IH]; intros Hnone; [reflexivity|].
  simpl. rewrite IH by (intros c Hc; apply Hnone; right; exact Hc).
  destruct (String.eqb_spec (CustomCapConfig.tier_key cap) tier_key) as [Ht|];
    [|reflexivity].
  destruct (String.eqb_spec (CustomCapConfig.model_or_group cap) model_or_group)
    as [Hm|]; [|reflexivity].
  exfalso. exact (Hnone cap ltac:(left) Ht Hm).
Qed.

(** X23. Only the caps of the credential's own tier and of the default
    tier, on the requested model or its quota group, can block: when no
    such cap is configured, [CustomCapChecker.check] allows the credential
    whatever its usage, and without reading the clock. *)
Theorem custom_caps_of_other_scopes_never_block
    caps wm state model quota_group o :
  (forall cap, cap ∈ caps ->
     CustomCapConfig.tier_key cap = pretty (CredentialState.priority state)
     \/ CustomCapConfig.tier_key cap = "default" ->
     CustomCapConfig.model_or_group cap <> model
     /\ forall g, quota_group = Some g ->
                  CustomCapConfig.model_or_group cap <> g) ->
  CustomCapChecker_check caps wm state model quota_group o
  = (LimitCheckResult.ok, o).
Proof.
  intros Hnone. unfold CustomCapChecker_check.
  destruct caps as [|cap0 rest] eqn:Ecaps; [reflexivity|]. rewrite <- Ecaps in *.
  destruct (get_primary_definition wm); [|destruct caps; reflexivity].
  assert (Hfor : forall name,
            (name = model \/ quota_group = Some name) ->
            cap_for caps (pretty (CredentialState.priority state)) name = None).
  { intros name Hname. unfold cap_for.
    rewrite !_cap_index_get_None; [reflexivity| |].
    - intros cap Hc Ht. destruct (Hnone cap Hc (or_intror Ht)) as [Hm Hg].
      destruct Hname as [->|Hq]; [exact Hm|exact (Hg name Hq)].
    - intros cap Hc Ht. destruct (Hnone cap Hc (or_introl Ht)) as [Hm Hg].
      destruct Hname as [->|Hq]; [exact Hm|exact (Hg name Hq)]. }
  assert (Hall : _find_all_caps caps (pretty (CredentialState.priority state))
                   model quota_group = []).
  { unfold _find_all_caps. rewrite (Hfor model) by (left; reflexivity).
    destruct quota_group as [g|]; [|reflexivity].
    unfold py_opt_str_truthy. destruct (py_str_truthy g) eqn:Eg; [|reflexivity].
    unfold py_or_str. rewrite Eg.
    rewrite (Hfor g) by (right; reflexivity).
    destruct (negb (String.eqb g model)); reflexivity. }
  rewrite Hall. destruct caps; reflexivity.
Qed.

(** ** The fair-cycle check of an exhausted credential *)

(** X24. An exhausted credential waits for the end of the cycle. With
    fair cycle enabled, a credential that is exhausted for the tracking
    key of a request, in a pool whose cycle for that key has been
    started, is refused by [FairCycleChecker.check] with
    [BLOCKED_FAIR_CYCLE] as long as the clock is before
    [cycle_start + duration], and allowed from then on; neither the
    credential (it stays marked exhausted) nor the global state is
    changed by the check. *)
Theorem fair_cycle_check_of_exhausted
    fc wm state model quota_group global groups g o :
  FairCycleConfig.is_enabled fc = true ->
  CredentialState.is_fair_cycle_exhausted state
    (get_tracking_key fc model quota_group) = true ->
  global !! CredentialState.provider state = Some groups ->
  groups !! get_tracking_key fc model quota_group = Some g ->
  FairCycleChecker_check fc wm state model quota_group global o
  = (if Qle_bool (GlobalFairCycleState.cycle_start g
                  + inject_Z (FairCycleConfig.duration fc))
                 (clock (ticks o))
     then LimitCheckResult.ok
     else LimitCheckResult.blocked LimitResult.BLOCKED_FAIR_CYCLE
            (ReasonFairCycle (get_tracking_key fc model quota_group)) None,
     state, global, mkOracle (S (ticks o)) (draws o)).
Proof.
  unfold get_tracking_key, CredentialState.is_fair_cycle_exhausted,
    FairCycleChecker_check.
  intros Hen Hex Hg Hk. rewrite Hen. simpl.
  set (key := _resolve_tracking_key fc model quota_group) in *.
  destruct (CredentialState.fair_cycle state !! key) as [fs|] eqn:E;
    [|discriminate].
  rewrite Hex. unfold mbind, M_bind, mret, M_ret. simpl.
  rewrite E, Hex. simpl.
  unfold _get_global_state. rewrite Hg. simpl. rewrite Hg. simpl.
  rewrite Hk. unfold mret, M_ret, _should_reset_cycle, mbind, M_bind,
    time_time. simpl.
  destruct (Qle_bool _ _); reflexivity.
Qed.

End Rotator.

(** * Examples: the theorems at concrete inputs *)

(** C7 as stated fails where the nominal value is negative: with a learned
    limit of 30 the offset -50 resolves to 0, not to 30 + (-50). *)
Lemma C7_counterexample :
  _resolve_max_requests (ex_cap_offset (-50)) (Some 30) = 0
  /\ _resolve_max_requests (ex_cap_offset (-50)) (Some 30)
     <> 30 + CustomCapConfig.max_requests (ex_cap_offset (-50)).
Proof. split; [reflexivity | discriminate]. Qed.

(** Scenario S4: after 150 requests the cap of 200 - 50 blocks until the
    window's reset time. *)
Lemma C7_witness :
  let result :=
    fst (_check_single_cap ex_clock ex_past_daily ex_past ex_past ex_wm
           (ex_s4_state 150) (ex_cap_offset (-50)) SCOPE_GROUP "G" ex_o0) in
  _resolve_max_requests (ex_cap_offset (-50)) (Some 200) = 150
  /\ LimitCheckResult.allowed result = false
  /\ LimitCheckResult.result result = LimitResult.BLOCKED_CUSTOM_CAP
  /\ LimitCheckResult.blocked_until result = Some 18900%Q.
Proof.
  pose proof (C7_custom_cap_clamped_max_and_block ex_clock ex_past_daily
                ex_past ex_past ex_wm (ex_s4_state 150) (ex_cap_offset (-50))
                SCOPE_GROUP "G" (ex_s4_windows 150) (ex_window 150 (Some 200))
                ex_o0 (mkOracle 1 0) eq_refl eq_refl) as [H1 [H2 _]].
  split; [exact H1|].
  destruct (H2 ltac:(vm_compute; discriminate)) as (Ha & Hr & Hu).
  split; [exact Ha|]. split; [exact Hr|]. exact (Hu eq_refl).
Defined.

(** C6 as the specification words it fails for a cycle that records no
    request: a rolling window of 18000 seconds is first used at 1000 by
    an update that counts 0 requests, which starts the window and records
    a maximum of 0. At 20000 the window has expired;
    [get_or_create_window] replaces it by a window whose
    [max_recorded_requests] is unset, not the 0 that the cycle
    accumulated and that the predecessor had recorded. *)
Lemma C6_counterexample :
  let uses := [(ex_update 0, 1000%Q)] in
  let old :=
    use_window ex_next_daily ex_next ex_next ex_te ex_def_5h
      (WindowStats.new "5h" None None None None None) uses in
  let w :=
    fst (fst (get_or_create_window (ex_frozen 20000) ex_past_daily ex_past
                ex_past ex_wm (ex_windows old) "5h" None ex_o0)) in
  WindowStats.started_at old = Some 1000%Q
  /\ WindowStats.reset_at old = Some (1000 + 18000)%Q
  /\ requests_of uses = 0
  /\ WindowStats.request_count old = 0
  /\ WindowStats.max_recorded_requests old = Some 0
  /\ fst (get_active_window (ex_frozen 20000) ex_past_daily ex_past ex_past
            ex_wm (ex_windows old) "5h" ex_o0) = None
  /\ WindowStats.request_count w = 0
  /\ WindowStats.max_recorded_requests w = None
  /\ WindowStats.max_recorded_requests w <> Some (requests_of uses)
  /\ WindowStats.max_recorded_requests w
     <> WindowStats.max_recorded_requests old.
Proof. vm_compute. repeat split; discriminate. Qed.

(** C6 at concrete inputs. A window of 7 requests with limit 200 that
    reset at 18900 is replaced at 20000: with no limit passed the new
    window keeps the limit 200, with 300 passed its limit is 300, and it
    remembers 7. A window of 7 requests that had recorded a maximum of 5
    and was last used at 950 is replaced by one that remembers 7, stamped
    950; without a last use the stamp is the second clock reading. And a
    cycle of 1 + 2 requests that began at 1000 in a rolling window of
    18000 seconds is replaced at 20000 by a window that remembers 3. *)
Lemma C6_witness :
  (let w :=
     fst (fst (get_or_create_window (ex_frozen 20000) ex_past_daily ex_past
                 ex_past ex_wm (ex_windows (ex_window 7 (Some 200))) "5h" None
                 ex_o0)) in
   WindowStats.request_count w = 0
   /\ WindowStats.limit w = Some 200
   /\ WindowStats.max_recorded_requests w = Some 7
   /\ WindowStats.max_recorded_at w = Some 950%Q)
  /\
  (let w :=
     fst (fst (get_or_create_window (ex_frozen 20000) ex_past_daily ex_past
                 ex_past ex_wm (ex_windows (ex_window 7 (Some 200))) "5h"
                 (Some 300) ex_o0)) in
   WindowStats.limit w = Some 300)
  /\
  (let w :=
     fst (fst (get_or_create_window (ex_frozen 20000) ex_past_daily ex_past
                 ex_past ex_wm (ex_windows (ex_stale_window (Some 950%Q)))
                 "5h" None ex_o0)) in
   WindowStats.max_recorded_requests w = Some 7
   /\ WindowStats.max_recorded_at w = Some 950%Q)
  /\
  (let w :=
     fst (fst (get_or_create_window ex_clock ex_past_daily ex_past ex_past
                 ex_wm (ex_windows (ex_stale_window None)) "5h" None ex_o0)) in
   WindowStats.max_recorded_requests w = Some 7
   /\ WindowStats.max_recorded_at w = Some (ex_clock 1))
  /\
  (let old :=
     use_window ex_next_daily ex_next ex_next ex_te ex_def_5h
       (WindowStats.new "5h" None None (Some 200) None None)
       [(ex_update 1, 1000%Q); (ex_update 2, 2000%Q)] in
   let w :=
     fst (fst (get_or_create_window (ex_frozen 20000) ex_past_daily ex_past
                 ex_past ex_wm (ex_windows old) "5h" None ex_o0)) in
   WindowStats.request_count w = 0
   /\ WindowStats.limit w = Some 200
   /\ WindowStats.max_recorded_requests w = Some 3
   /\ WindowStats.max_recorded_at w = WindowStats.max_recorded_at old).
Proof.
  split; [|split; [|split; [|split]]].
  - destruct (proj1 (C6_expired_window_is_replaced (ex_frozen 20000)
                       ex_past_daily ex_past ex_past ex_next_daily ex_next
                       ex_next)
                ex_wm (ex_windows (ex_window 7 (Some 200))) "5h" None
                (ex_window 7 (Some 200)) ex_o0
                ltac:(vm_compute; reflexivity) ltac:(vm_compute; reflexivity))
      as (_ & (Hc & _) & _ & _ & _ & Hl & _ & Hm & _).
    split; [exact Hc|]. split; [exact (Hl (or_introl eq_refl))|].
    exact (Hm ltac:(vm_compute; discriminate) ltac:(reflexivity)).
  - destruct (proj1 (C6_expired_window_is_replaced (ex_frozen 20000)
                       ex_past_daily ex_past ex_past ex_next_daily ex_next
                       ex_next)
                ex_wm (ex_windows (ex_window 7 (Some 200))) "5h" (Some 300)
                (ex_window 7 (Some 200)) ex_o0
                ltac:(vm_compute; reflexivity) ltac:(vm_compute; reflexivity))
      as (_ & _ & _ & _ & Hl & _).
    exact (Hl 300 eq_refl ltac:(discriminate)).
  - destruct (proj1 (C6_expired_window_is_replaced (ex_frozen 20000)
                       ex_past_daily ex_past ex_past ex_next_daily ex_next
                       ex_next)
                ex_wm (ex_windows (ex_stale_window (Some 950%Q))) "5h" None
                (ex_stale_window (Some 950%Q)) ex_o0
                ltac:(vm_compute; reflexivity) ltac:(vm_compute; reflexivity))
      as (_ & _ & _ & _ & _ & _ & Hm & _).
    destruct (Hm ltac:(reflexivity)) as (Hmax & Hat & _).
    split; [exact Hmax|].
    exact (Hat 950%Q eq_refl ltac:(vm_compute; discriminate)).
  - destruct (proj1 (C6_expired_window_is_replaced ex_clock ex_past_daily
                       ex_past ex_past ex_next_daily ex_next ex_next)
                ex_wm (ex_windows (ex_stale_window None)) "5h" None
                (ex_stale_window None) ex_o0
                ltac:(vm_compute; reflexivity) ltac:(vm_compute; reflexivity))
      as (_ & _ & _ & _ & _ & _ & Hm & _).
    destruct (Hm ltac:(reflexivity)) as (Hmax & _ & Hat).
    split; [exact Hmax|]. exact (Hat (or_introl eq_refl)).
  - destruct (proj2 (C6_expired_window_is_replaced (ex_frozen 20000)
                       ex_past_daily ex_past ex_past ex_next_daily ex_next
                       ex_next)
                ex_te ex_def_5h 18000 (Some 200) (ex_update 1, 1000%Q)
                [(ex_update 2, 2000%Q)]
                (ex_windows
                   (use_window ex_next_daily ex_next ex_next ex_te ex_def_5h
                      (WindowStats.new "5h" None None (Some 200) None None)
                      [(ex_update 1, 1000%Q); (ex_update 2, 2000%Q)]))
                ex_o0 eq_refl eq_refl ltac:(vm_compute; reflexivity))
      as (Hc & _ & _ & _ & _ & _ & Hl & Hm & _).
    + repeat constructor; vm_compute; discriminate.
    + reflexivity.
    + vm_compute; discriminate.
    + split; [exact Hc|]. split; [exact Hl|].
      exact (Hm ltac:(reflexivity)).
Defined.

(** C2 at a concrete input: a second cooldown of 60 seconds, applied at
    1000 to group ["G"] while its cooldown runs until 5000, keeps the
    reason and bumps the back-off count from 2 to 3. *)
Lemma C2_witness :
  let state' :=
    fst (apply_cooldown ex_clock ex_te (ex_cooling_state "a" 1 5000%Q ∅)
           "quota_exceeded" (Some 60%Q) None (Some "G") "system" ex_o0) in
  exists c,
    CredentialState.cooldowns state' !! "G" = Some c
    /\ CooldownInfo.reason c = "rate_limit"
    /\ CooldownInfo.source c = "error"
    /\ CooldownInfo.started_at c = 900%Q
    /\ CooldownInfo.until c = (ex_clock 0 + 60)%Q
    /\ CooldownInfo.backoff_count c = 3.
Proof.
  destruct (C2_active_cooldown_preserved ex_clock ex_te
              (ex_cooling_state "a" 1 5000%Q ∅) "quota_exceeded" (Some 60%Q)
              None (Some "G") "system" (ex_cooldown 5000%Q)
              (ex_clock 0 + 60)%Q ex_o0
              ltac:(vm_compute; reflexivity) eq_refl
              ltac:(vm_compute; reflexivity))
    as [[c Hc] _].
  exists c. exact Hc.
Defined.

(** C5 at the failing input: the first usage of a fresh credential for
    model ["m"] in group ["G"], answered with [x-ratelimit-reset: 60], on a
    clock that advances between reads. The copy of the timing is followed
    by the header step, which stamps the group window and the model window
    with two different clock readings: [started_at] agrees, [reset_at]
    does not. *)
Theorem C5_header_reset_at_diverges :
  let state' :=
    fst (record_usage ex_clock ex_past_daily ex_past ex_past ex_next_daily
           ex_next ex_next ex_te ex_fresh_state "m" (ex_update 1) (Some "G")
           (Some ex_headers_relative) ex_o0) in
  exists model_stats group_stats mw gw rm rg,
    CredentialState.model_usage state' !! "m" = Some model_stats
    /\ CredentialState.group_usage state' !! "G" = Some group_stats
    /\ ModelStats.windows model_stats !! "5h" = Some mw
    /\ GroupStats.windows group_stats !! "5h" = Some gw
    /\ WindowStats.started_at mw = WindowStats.started_at gw
    /\ WindowStats.reset_at mw = Some rm
    /\ WindowStats.reset_at gw = Some rg
    /\ (rg < rm)%Q.
Proof.
  do 6 eexists. vm_compute.
  split; [reflexivity|]. split; [reflexivity|].
  split; [reflexivity|]. split; [reflexivity|].
  split; [reflexivity|]. split; [reflexivity|].
  split; reflexivity.
Qed.

(** The same call without response headers, where the timing agrees. *)
Lemma C5_no_headers_example :
  let state' :=
    fst (record_usage ex_clock ex_past_daily ex_past ex_past ex_next_daily
           ex_next ex_next ex_te ex_fresh_state "m" (ex_update 1) (Some "G")
           None ex_o0) in
  forall name model_stats group_stats mw gw,
    CredentialState.model_usage state' !! "m" = Some model_stats ->
    CredentialState.group_usage state' !! "G" = Some group_stats ->
    ModelStats.windows model_stats !! name = Some mw ->
    GroupStats.windows group_stats !! name = Some gw ->
    WindowStats.started_at mw = WindowStats.started_at gw
    /\ WindowStats.reset_at mw = WindowStats.reset_at gw.
Proof.
  exact (record_usage_group_timing ex_clock ex_past_daily ex_past ex_past
           ex_next_daily ex_next ex_next ex_te ex_fresh_state "m"
           (ex_update 1) "G" ex_o0 eq_refl).
Defined.

(** C10 at a concrete input: a credential with a ["_global_"] cooldown and
    a ["_credential_"] fair-cycle record, in credential tracking mode. *)
Lemma C10_witness :
  _resolve_fair_cycle_key ex_te_credential "G" = "_credential_"
  /\ CredentialState.cooldowns (clear_cooldown ex_global_cooldown_state None)
     = delete "_global_" (CredentialState.cooldowns ex_global_cooldown_state)
  /\ CredentialState.fair_cycle (clear_cooldown ex_global_cooldown_state None)
     = CredentialState.fair_cycle ex_global_cooldown_state
  /\ reset_fair_cycle
       (CredentialState.set_cooldowns ex_global_cooldown_state ∅)
       (_resolve_fair_cycle_key ex_te_credential "G")
     = CredentialState.set_cooldowns
         (reset_fair_cycle ex_global_cooldown_state
            (_resolve_fair_cycle_key ex_te_credential "G")) ∅.
Proof.
  destruct (C10_sentinels_are_distinct ex_clock ex_past_daily ex_past ex_past
              ex_te_credential ex_global_cooldown_state "quota_exceeded"
              (ex_update 1) "G" "m" (Some "G") ∅ ∅ ex_o0 eq_refl)
    as ((_ & Hk & _) & (Hc & _ & Hf) & (_ & Hr & _)).
  split; [exact Hk|]. split; [exact Hc|]. split; [exact Hf | exact Hr].
Defined.

(** C1 at a concrete input: a credential that is both in cooldown and
    fair-cycle exhausted is reported as blocked by the cooldown, and the
    run ends where the cooldown checker ends. *)
Lemma C1_witness :
  let r :=
    check_all ex_clock ex_past_daily ex_past ex_past (ex_le ex_fc)
      (ex_cooling_exhausted "a" 1 5000%Q) "m" (Some "G") (ex_global 990%Q)
      ex_o0 in
  r = Checker_check ex_clock ex_past_daily ex_past ex_past (ex_le ex_fc)
        CooldownChecker (ex_cooling_exhausted "a" 1 5000%Q) "m" (Some "G")
        (ex_global 990%Q) ex_o0
  /\ LimitCheckResult.result (fst (fst (fst r))) = LimitResult.BLOCKED_COOLDOWN.
Proof.
  destruct (C1_first_blocking_checker_wins ex_clock ex_past_daily ex_past
              ex_past (ex_config RotationMode.BALANCED ex_fc) ex_wm
              (ex_cooling_exhausted "a" 1 5000%Q) "m" (Some "G")
              (ex_global 990%Q) ex_o0 [ConcurrentLimitChecker] CooldownChecker
              [CustomCapChecker; FairCycleChecker] eq_refl eq_refl)
    as (_ & Hblock & _).
  pose proof (Hblock ltac:(vm_compute; reflexivity)) as H.
  split; [exact H|]. vm_compute. reflexivity.
Defined.

(** C8 at the failing input: two credentials of one tier, ["a"] unused
    and ["b"] used 5 times, tolerance 0. The weights are 6 and 1, so a
    draw of [random.random()] = 13/14 (r = 6.5 out of 7) passes over ["a"]
    and selects ["b"], whose usage is not minimal. *)
Theorem C8_tolerance_zero_selects_more_used :
  _calculate_weights 0 ["a"; "b"] ex_unequal_usage = [6%Q; 1%Q]
  /\ fst (_weighted_random_choice ex_random ex_bits ["a"; "b"] [6%Q; 1%Q]
            ex_o0) = Some "b"
  /\ fst (fst (select ex_clock ex_random ex_bits ex_past_daily ex_past ex_past
                 3 (ex_se RotationMode.BALANCED
                          (ex_fair_cycle false TrackingMode.MODEL_GROUP false))
                 "prov" "m" (Some "G") None None 0 ex_unequal_world ex_o0))
     = Returned (Some "b").
Proof. vm_compute. repeat split; reflexivity. Qed.

(** C9 at a concrete input: with ["a"] already tried, the sequential
    strategy, which would prefer nothing over the other candidate, returns
    ["b"]. *)
Lemma C9_witness :
  fst (fst (select ex_clock ex_random ex_bits ex_past_daily ex_past ex_past 3
              (ex_se RotationMode.SEQUENTIAL ex_fc_off) "prov" "m" (Some "G")
              (Some ex_tried_a) None 0 ex_unequal_world ex_o0))
  = Returned (Some "b")
  /\ "b" ∉ ex_tried_a.
Proof.
  split; [vm_compute; reflexivity|].
  exact (C9_select_never_returns_excluded ex_clock ex_random ex_bits
           ex_past_daily ex_past ex_past 3
           (ex_se RotationMode.SEQUENTIAL ex_fc_off) "prov" "m" (Some "G")
           (Some ex_tried_a) None 0 ex_unequal_world ex_o0 "b"
           ltac:(vm_compute; reflexivity)).
Defined.


Lemma ex_global_live (start : Q) :
  (1000 < start + 60)%Q -> cycle_live ex_fc "G" 1000 (ex_global start).
Proof.
  intros H provider groups g Hp Hg. unfold ex_global in Hp.
  apply lookup_singleton_Some in Hp as [_ <-].
  apply lookup_singleton_Some in Hg as [_ <-]. exact H.
Qed.





(** Why C4 speaks of a single tier when it promises [None]: with a second
    tier that can be reset, [select] resets that tier, counts a cycle and
    returns its credential; the tier with the short cooldown stays
    exhausted. *)
Lemma other_tier_is_reset_example :
  let result :=
    select (ex_frozen 1000) ex_random ex_bits ex_past_daily ex_past ex_past 5
           (ex_se RotationMode.BALANCED ex_fc) "prov" "m" (Some "G") None None
           0 ex_two_tier_short_world ex_o0 in
  fst (fst result) = Returned (Some "b")
  /\ odict_get (w_states (snd (fst result))) "a"
     = odict_get (w_states ex_two_tier_short_world) "a"
  /\ cycle_count_of (w_global (snd (fst result))) "prov" "G" = 1.
Proof. vm_compute. repeat split. Qed.

(** Why C3 promises a credential of the tier only when no candidate
    outside the tier is blocked by the fair cycle alone: the tier of
    priority 2 is exhausted, without cooldown, and blocked by the fair
    cycle alone, but so is the tier of priority 1; [select] resets both
    tiers, counting a cycle for each, and returns the credential of
    priority 1. *)
Lemma returned_from_other_tier_example :
  let w := ex_two_tiers_exhausted_world in
  let tier := tier_of 2 w (candidates_of None w) in
  let result :=
    select (ex_frozen 1000) ex_random ex_bits ex_past_daily ex_past ex_past 5
           (ex_se RotationMode.BALANCED ex_fc) "prov" "m" (Some "G") None None
           0 w ex_o0 in
  tier = ["b"]
  /\ forallb (fun state => CredentialState.is_fair_cycle_exhausted state "G")
             (states_of w tier) = true
  /\ existsb (has_short_cooldown 120 1000 "G") (states_of w tier) = false
  /\ fst (fst result) = Returned (Some "a")
  /\ cycle_count_of (w_global (snd (fst result))) "prov" "G" = 2.
Proof. vm_compute. repeat split. Qed.

(** Why C3 asks that the quota threshold not exhaust the credential again
    at once: with a threshold of 0 every reset is followed by a new
    exhaustion, and the retries go on until Python's recursion limit; the
    cycle count grows with every retry. *)
Lemma quota_threshold_zero_example :
  let result :=
    select (ex_frozen 1000) ex_random ex_bits ex_past_daily ex_past ex_past 5
           (ex_se RotationMode.BALANCED ex_fc_threshold_zero) "prov" "m"
           (Some "G") None None 0 ex_quota_world ex_o0 in
  fst (fst result) = RecursionError
  /\ cycle_count_of (w_global (snd (fst result))) "prov" "G" = 5.
Proof. vm_compute. repeat split. Qed.

(** ** The further properties at concrete inputs *)

(** Settles a decidable proposition by evaluating its decision. *)
Ltac by_decision :=
  match goal with
  | |- ?P => apply (bool_decide_unpack P); vm_compute; exact I
  end.

Lemma mark_exhausted_keeps_first_witness :
  fst (mark_exhausted ex_clock (ex_exhausted_state "a" 1) "G" "rate_limit"
                      ex_o0)
  = ex_exhausted_state "a" 1.
Proof.
  exact (mark_exhausted_keeps_first ex_clock (ex_exhausted_state "a" 1) "G"
           "rate_limit" ex_o0 ltac:(vm_compute; reflexivity)).
Defined.

Lemma apply_cooldown_then_check_blocks_witness :
  let state1 :=
    fst (apply_cooldown ex_clock ex_te ex_fresh_state "rate_limit"
           (Some 60%Q) None (Some "G") "system" ex_o0) in
  let result :=
    fst (CooldownChecker_check ex_clock state1 "m" (Some "G")
           (mkOracle 5 0)) in
  LimitCheckResult.allowed result = false
  /\ LimitCheckResult.result result = LimitResult.BLOCKED_COOLDOWN
  /\ exists t, LimitCheckResult.blocked_until result = Some t
               /\ (ex_clock 5 < t)%Q.
Proof.
  exact (apply_cooldown_then_check_blocks ex_clock ex_te ex_fresh_state
           "rate_limit" (Some 60%Q) None (Some "G") "system" "m" (Some "G")
           ex_o0 (mkOracle 5 0) (ex_clock 0 + 60)%Q eq_refl
           ltac:(vm_compute; left) ltac:(vm_compute; reflexivity)).
Defined.

Lemma clear_cooldown_keeps_exhaustion_witness :
  let state1 :=
    fst (apply_cooldown ex_clock ex_te ex_fresh_state "quota_exceeded"
           (Some 600%Q) None (Some "G") "system" ex_o0) in
  let state2 := clear_cooldown state1 (Some "G") in
  CredentialState.is_fair_cycle_exhausted state1
    (_resolve_fair_cycle_key ex_te "G") = true
  /\ CredentialState.cooldowns state2 !! "G" = None
  /\ CredentialState.is_fair_cycle_exhausted state2
       (_resolve_fair_cycle_key ex_te "G") = true.
Proof.
  exact (clear_cooldown_keeps_exhaustion ex_clock ex_te ex_fresh_state
           "quota_exceeded" (Some 600%Q) None "G" "system" ex_o0
           (ex_clock 0 + 600)%Q eq_refl eq_refl eq_refl
           ltac:(vm_compute; discriminate)).
Defined.

Lemma get_blocking_info_agrees_with_check_all_witness :
  let results :=
    fst (fst (fst (get_blocking_info ex_clock ex_past_daily ex_past ex_past
                     (ex_le ex_fc) (ex_cooling_exhausted "a" 1 5000%Q) "m"
                     (Some "G") (ex_global 990%Q) ex_o0))) in
  odict_keys results = map Checker_name (LimitEngine._checkers (ex_le ex_fc))
  /\ verdict_of (check_all ex_clock ex_past_daily ex_past ex_past
                   (ex_le ex_fc) (ex_cooling_exhausted "a" 1 5000%Q) "m"
                   (Some "G") (ex_global 990%Q) ex_o0)
     = match first_blocked results with
       | Some (_, result) => result
       | None => LimitCheckResult.ok
       end.
Proof.
  exact (get_blocking_info_agrees_with_check_all ex_clock ex_past_daily
           ex_past ex_past (ex_le ex_fc) (ex_cooling_exhausted "a" 1 5000%Q)
           "m" (Some "G") (ex_global 990%Q) ex_o0
           ltac:(by_decision)).
Defined.

Lemma remove_checker_then_check_specific_witness :
  let le1 := snd (remove_checker (ex_le ex_fc) "cooldowns") in
  fst (remove_checker (ex_le ex_fc) "cooldowns")
  = bool_decide ("cooldowns"
                   ∈ map Checker_name (LimitEngine._checkers (ex_le ex_fc)))
  /\ LimitEngine._checkers le1
     = filter (fun checker => Checker_name checker <> "cooldowns")
              (LimitEngine._checkers (ex_le ex_fc))
  /\ check_specific ex_clock ex_past_daily ex_past ex_past le1 "cooldowns"
       (ex_cooling_exhausted "a" 1 5000%Q) "m" (Some "G") (ex_global 990%Q)
       ex_o0
     = (LimitCheckResult.ok, ex_cooling_exhausted "a" 1 5000%Q,
        ex_global 990%Q, ex_o0).
Proof.
  exact (remove_checker_then_check_specific ex_clock ex_past_daily ex_past
           ex_past (ex_le ex_fc) "cooldowns"
           (ex_cooling_exhausted "a" 1 5000%Q) "m" (Some "G")
           (ex_global 990%Q) ex_o0
           ltac:(by_decision)).
Defined.

Lemma _select_by_priority_best_witness :
  exists c,
    _select_by_priority ["a"; "b"] {[ "a" := 2; "b" := 1 ]} ∅ [] = Some c
    /\ c ∈ ["a"; "b"]
    /\ forall c', c' ∈ ["a"; "b"] ->
         priority_of {[ "a" := 2; "b" := 1 ]} c
         <= priority_of {[ "a" := 2; "b" := 1 ]} c'
         /\ (priority_of {[ "a" := 2; "b" := 1 ]} c
             = priority_of {[ "a" := 2; "b" := 1 ]} c' ->
             usage_of ∅ c' <= usage_of ∅ c
             /\ (usage_of ∅ c = usage_of ∅ c' ->
                 (recency_of [] c' <= recency_of [] c)%Q)).
Proof.
  exact (_select_by_priority_best ["a"; "b"] {[ "a" := 2; "b" := 1 ]} ∅ []
           ltac:(discriminate)).
Defined.

Lemma sequential_select_is_sticky_witness :
  get_current (ex_sticky "b") "prov" "G" = Some "b"
  /\ SequentialStrategy_select ex_context_later []
       (ex_sticky "b")
     = (Some "b", ex_sticky "b").
Proof.
  exact (sequential_select_is_sticky ex_context (w_states ex_unequal_world)
           ex_no_sticky "b" (ex_sticky "b") ex_context_later []
           (le_n 2) eq_refl ltac:(vm_compute; reflexivity) eq_refl
           ltac:(vm_compute; right; left)).
Defined.

Lemma sequential_mark_exhausted_forces_rotation_witness :
  let current1 :=
    SequentialStrategy_mark_exhausted (ex_sticky "a") "prov" "G" in
  get_current current1 "prov" "G" = None
  /\ (forall provider model_or_group,
        (provider, model_or_group) <> sticky_key ex_context ->
        get_current current1 provider model_or_group
        = get_current (ex_sticky "a") provider model_or_group)
  /\ fst (SequentialStrategy_select ex_context (w_states ex_unequal_world)
            current1)
     = _select_by_priority ["a"; "b"] {[ "a" := 1; "b" := 1 ]}
         ex_unequal_usage (w_states ex_unequal_world).
Proof.
  exact (sequential_mark_exhausted_forces_rotation ex_context
           (w_states ex_unequal_world) (ex_sticky "a") (le_n 2)).
Defined.

Lemma balanced_select_best_tier_witness :
  exists s,
    fst (BalancedStrategy_select ex_random ex_bits 3 ex_context_tiers ex_o0)
    = Some s
    /\ s ∈ ["a"; "b"]
    /\ forall c, c ∈ ["a"; "b"] ->
         priority_of {[ "a" := 2; "b" := 1 ]} s
         <= priority_of {[ "a" := 2; "b" := 1 ]} c.
Proof.
  exact (balanced_select_best_tier ex_random ex_bits 3 ex_context_tiers ex_o0
           ltac:(discriminate)
           ltac:(by_decision)).
Defined.

Lemma select_without_fair_cycle_witness :
  exists selected w1 o1,
    select ex_clock ex_random ex_bits ex_past_daily ex_past ex_past 1
           (ex_se RotationMode.SEQUENTIAL ex_fc_off) "prov" "m" (Some "G")
           None None 0 ex_unequal_world ex_o0
    = (Returned selected, w1, o1)
    /\ w_states w1 = w_states ex_unequal_world
    /\ w_global w1 = w_global ex_unequal_world.
Proof.
  exact (select_without_fair_cycle ex_clock ex_random ex_bits ex_past_daily
           ex_past ex_past 0 (ex_se RotationMode.SEQUENTIAL ex_fc_off) "prov"
           "m" (Some "G") None None 0 ex_unequal_world ex_o0 eq_refl eq_refl).
Defined.

Lemma record_failure_blocks_until_reset_witness :
  let state1 :=
    fst (record_failure ex_clock ex_past_daily ex_past ex_past ex_next_daily
           ex_next ex_next ex_te ex_fresh_state "m" "quota_exceeded"
           (Some "G") (Some 30%Q) (Some 5000%Q) true 1 0 0 0 0 0 0%Q ex_o0) in
  let result :=
    fst (CooldownChecker_check ex_clock state1 "m" (Some "G")
           (mkOracle 50 0)) in
  LimitCheckResult.allowed result = false
  /\ LimitCheckResult.result result = LimitResult.BLOCKED_COOLDOWN
  /\ (exists t, LimitCheckResult.blocked_until result = Some t
                /\ (ex_clock 50 < t)%Q)
  /\ TotalStats.failure_count (CredentialState.totals state1)
     = TotalStats.failure_count (CredentialState.totals ex_fresh_state) + 1
  /\ TotalStats.success_count (CredentialState.totals state1)
     = TotalStats.success_count (CredentialState.totals ex_fresh_state)
  /\ (true = true ->
      CredentialState.is_fair_cycle_exhausted state1
        (_resolve_fair_cycle_key ex_te (py_or_str (Some "G") "m")) = true).
Proof.
  exact (record_failure_blocks_until_reset ex_clock ex_past_daily ex_past
           ex_past ex_next_daily ex_next ex_next ex_te ex_fresh_state "m"
           "quota_exceeded" (Some "G") (Some 30%Q) 5000%Q true 1 0 0 0 0 0
           0%Q ex_o0 (mkOracle 50 0) ltac:(vm_compute; reflexivity)).
Defined.

Lemma custom_caps_of_other_scopes_never_block_witness :
  CustomCapChecker_check ex_clock ex_past_daily ex_past ex_past
    [ex_cap_offset (-50)] ex_wm (ex_s4_state 200) "m2" (Some "H") ex_o0
  = (LimitCheckResult.ok, ex_o0).
Proof.
  refine (custom_caps_of_other_scopes_never_block ex_clock ex_past_daily
            ex_past ex_past [ex_cap_offset (-50)] ex_wm (ex_s4_state 200)
            "m2" (Some "H") ex_o0 _).
  intros cap Hcap _. apply list_elem_of_singleton in Hcap. subst cap.
  split; [discriminate|]. intros g Hg. inversion Hg. discriminate.
Defined.

Lemma fair_cycle_check_of_exhausted_witness :
  FairCycleChecker_check ex_clock ex_past_daily ex_past ex_past ex_fc ex_wm
    (ex_exhausted_state "a" 1) "m" (Some "G") (ex_global 990%Q) ex_o0
  = (LimitCheckResult.blocked LimitResult.BLOCKED_FAIR_CYCLE
       (ReasonFairCycle "G") None,
     ex_exhausted_state "a" 1, ex_global 990%Q, mkOracle 1 0).
Proof.
  exact (fair_cycle_check_of_exhausted ex_clock ex_past_daily ex_past ex_past
           ex_fc ex_wm (ex_exhausted_state "a" 1) "m" (Some "G")
           (ex_global 990%Q) {[ "G" := GlobalFairCycleState.mk 990 None 0 ]}
           (GlobalFairCycleState.mk 990 None 0) ex_o0 eq_refl
           ltac:(vm_compute; reflexivity) ltac:(vm_compute; reflexivity)
           ltac:(vm_compute; reflexivity)).
Defined.

(** What [record_usage] does not leave alone: the custom-cap checker
    reads the request count of the window. With the cap of 200 - 50 on
    group ["G"], a credential at 149 requests is allowed, and after one
    more request is recorded it is blocked by the cap. *)
Lemma record_usage_reaches_cap_example :
  let caps := [ex_cap_offset (-50)] in
  let state := ex_s4_state 149 in
  let state1 :=
    fst (record_usage ex_clock ex_past_daily ex_past ex_past ex_next_daily
           ex_next ex_next ex_te state "m" (ex_update 1) (Some "G") None
           ex_o0) in
  LimitCheckResult.result
    (fst (CustomCapChecker_check ex_clock ex_past_daily ex_past ex_past caps
            ex_wm state "m" (Some "G") ex_o0))
  = LimitResult.ALLOWED
  /\ LimitCheckResult.result
       (fst (CustomCapChecker_check ex_clock ex_past_daily ex_past ex_past
               caps ex_wm state1 "m" (Some "G") ex_o0))
     = LimitResult.BLOCKED_CUSTOM_CAP.
Proof. vm_compute. split; reflexivity. Qed.
